(** * GeoCartConversion: Cartesian <-> geodetic coordinates on a rotational ellipsoid

    A shallow embedding of [GeoCartConversion.py] (functions [step3], [xyzllh],
    [llhxyz] and the interactive driver [tester]) and the properties of its
    specification.

    Numbers.  The program computes with NumPy [float64] scalars and with plain
    Python numbers.  A [float64] is modelled by its IEEE-754 value with the
    rounding of finite results abstracted away: a finite value is a real
    number (overflow and underflow do not occur), and the special values
    (NaN, the two infinities, the negative zero) follow the IEEE rules,
    because they decide what the program does when it divides by zero.  A
    Python number and a NumPy scalar hold the same values but differ in one
    operation: [/] on two Python numbers raises [ZeroDivisionError] when the
    divisor is zero, while NumPy only warns and returns an infinity or NaN.
    A plain Python number is modelled by its [float64] value: this is what it
    is for a Python float, and what a Python int becomes as soon as it meets
    a float or a NumPy scalar.  Python integers outside the [float64] range,
    and the [int64] arithmetic of NumPy on two Python integers, are outside
    the model.

    Exceptions.  On these numbers the only exception the arithmetic of the
    two conversions raises is [ZeroDivisionError]; it is the only one they
    are given.  The driver adds the [EOFError] of [input] and the
    [ValueError] of [float].

    Effects.  [xyzllh] assigns the module-level variable [iters] and prints;
    it is a function of the process state, in a state and exception monad.

    Solver.  [scipy.optimize.root] is outside the repository and is a
    parameter of [xyzllh]: a function from the residual, the Jacobian, the
    starting point and the method to a result.  A call in which the solver
    itself raises (scipy rejects a starting point or a first residual that is
    not finite) has no counterpart here: a statement that [xyzllh] returns is
    a statement about the calls in which the solver returns. *)

From Stdlib Require Import Reals Lra String List Bool Arith.
Import ListNotations.

Local Open Scope R_scope.

(** ** IEEE-754 values *)

Module IEEE.

(** [Fin 0] is the positive zero, [NZero] the negative zero. *)
Inductive float64 : Type :=
| NaN
| PInf
| NInf
| NZero
| Fin (r : R).

Definition to_R (f : float64) : option R :=
  match f with
  | Fin r => Some r
  | NZero => Some 0
  | _ => None
  end.

Definition is_nan (f : float64) : bool :=
  match f with NaN => true | _ => false end.

Definition Req_b (x y : R) : bool := if Req_dec_T x y then true else false.
Definition Rlt_b (x y : R) : bool := if Rlt_dec x y then true else false.

Definition signbit (f : float64) : bool :=
  match f with
  | NaN => false
  | PInf => false
  | NInf => true
  | NZero => true
  | Fin r => Rlt_b r 0
  end.

Definition is_zero (f : float64) : bool :=
  match f with
  | NZero => true
  | Fin r => Req_b r 0
  | _ => false
  end.

Definition inf (neg : bool) : float64 := if neg then NInf else PInf.

(** A finite result [r]; when [r] is zero its sign is [neg]. *)
Definition mk (r : R) (neg : bool) : float64 :=
  if Req_b r 0 then (if neg then NZero else Fin 0) else Fin r.

Definition fneg (a : float64) : float64 :=
  match a with
  | NaN => NaN
  | PInf => NInf
  | NInf => PInf
  | NZero => Fin 0
  | Fin r => mk (- r) (negb (Rlt_b r 0))
  end.

Definition fabs (a : float64) : float64 :=
  match a with
  | NaN => NaN
  | PInf | NInf => PInf
  | NZero => Fin 0
  | Fin r => Fin (Rabs r)
  end.

Definition fadd (a b : float64) : float64 :=
  match a, b with
  | NaN, _ | _, NaN => NaN
  | PInf, NInf | NInf, PInf => NaN
  | PInf, _ | _, PInf => PInf
  | NInf, _ | _, NInf => NInf
  | NZero, NZero => NZero
  | NZero, Fin y => Fin y
  | Fin x, NZero => Fin x
  | Fin x, Fin y => Fin (x + y)
  end.

Definition fsub (a b : float64) : float64 := fadd a (fneg b).

Definition fmul (a b : float64) : float64 :=
  match to_R a, to_R b with
  | Some x, Some y => mk (x * y) (xorb (signbit a) (signbit b))
  | _, _ =>
      if is_nan a || is_nan b || is_zero a || is_zero b then NaN
      else inf (xorb (signbit a) (signbit b))
  end.

Definition fdiv (a b : float64) : float64 :=
  match to_R a, to_R b with
  | Some x, Some y =>
      if Req_b y 0
      then (if Req_b x 0 then NaN else inf (xorb (signbit a) (signbit b)))
      else mk (x / y) (xorb (signbit a) (signbit b))
  | Some _, None =>
      if is_nan b then NaN else mk 0 (xorb (signbit a) (signbit b))
  | None, Some _ =>
      if is_nan a then NaN else inf (xorb (signbit a) (signbit b))
  | None, None => NaN
  end.

Definition fsqrt (a : float64) : float64 :=
  match a with
  | NaN | NInf => NaN
  | PInf => PInf
  | NZero => NZero
  | Fin r => if Rlt_b r 0 then NaN else Fin (sqrt r)
  end.

Definition fatan (a : float64) : float64 :=
  match a with
  | NaN => NaN
  | PInf => Fin (PI / 2)
  | NInf => Fin (- (PI / 2))
  | NZero => NZero
  | Fin r => Fin (atan r)
  end.

Definition fsin (a : float64) : float64 :=
  match a with
  | NaN | PInf | NInf => NaN
  | NZero => NZero
  | Fin r => Fin (sin r)
  end.

Definition fcos (a : float64) : float64 :=
  match a with
  | NaN | PInf | NInf => NaN
  | NZero => Fin 1
  | Fin r => Fin (cos r)
  end.

(** [a < b]; false as soon as one side is NaN. *)
Definition flt (a b : float64) : bool :=
  match a, b with
  | NaN, _ | _, NaN => false
  | _, NInf => false
  | NInf, _ => true
  | PInf, _ => false
  | _, PInf => true
  | _, _ =>
      match to_R a, to_R b with
      | Some x, Some y => Rlt_b x y
      | _, _ => false
      end
  end.

End IEEE.
Export IEEE.

(** ** Python numbers, exceptions and effects *)

(** A number is a plain Python number ([Py], an [int] or a [float]) or a
    NumPy scalar ([Np]).  Python integers are embedded by their value. *)
Inductive num : Type :=
| Py (v : float64)
| Np (v : float64).

Definition val (n : num) : float64 :=
  match n with Py v => v | Np v => v end.

Definition PyInt (k : Z) : num := Py (Fin (IZR k)).

(** [np.pi] is a Python float. *)
Definition np_pi : num := Py (Fin PI).

(** The exceptions the arithmetic of the program can raise by itself. *)
Inductive exn : Type :=
| ZeroDivisionError.

Inductive result (A : Type) : Type :=
| Ok (a : A)
| Raise (e : exn).
Arguments Ok {A} a.
Arguments Raise {A} e.

Definition rbind {A B} (m : result A) (k : A -> result B) : result B :=
  match m with
  | Ok a => k a
  | Raise e => Raise e
  end.

Declare Scope py_scope.
Delimit Scope py_scope with py.

Notation "'let!' x ':=' m 'in' k" := (rbind m (fun x => k))
  (at level 10, x pattern, m at level 100, k at level 200) : py_scope.

(** A binary operator on two Python numbers gives a Python number; as soon
    as one operand is a NumPy scalar the result is a NumPy scalar. *)
Definition arith (op : float64 -> float64 -> float64) (a b : num) : num :=
  match a, b with
  | Py x, Py y => Py (op x y)
  | _, _ => Np (op (val a) (val b))
  end.

Definition nadd := arith fadd.
Definition nsub := arith fsub.
Definition nmul := arith fmul.

(** [a / b] raises exactly when both operands are Python numbers and the
    divisor is zero; NumPy follows IEEE-754 and only warns. *)
Definition raises_zero_division (a b : num) : bool :=
  match a, b with
  | Py _, Py y => is_zero y
  | _, _ => false
  end.

Definition ndiv (a b : num) : result num :=
  if raises_zero_division a b then Raise ZeroDivisionError
  else Ok (arith fdiv a b).

(** Unary minus keeps the kind of its operand. *)
Definition nneg (a : num) : num :=
  match a with Py x => Py (fneg x) | Np x => Np (fneg x) end.

Definition nlt (a b : num) : bool := flt (val a) (val b).

(** NumPy's element-wise functions return NumPy scalars. *)
Definition np_sqrt (a : num) : num := Np (fsqrt (val a)).
Definition np_square (a : num) : num := Np (fmul (val a) (val a)).
Definition np_abs (a : num) : num := Np (fabs (val a)).
Definition np_arctan (a : num) : num := Np (fatan (val a)).
Definition np_sin (a : num) : num := Np (fsin (val a)).
Definition np_cos (a : num) : num := Np (fcos (val a)).

Infix "+" := nadd : py_scope.
Infix "-" := nsub : py_scope.
Infix "*" := nmul : py_scope.
Infix "/" := ndiv : py_scope.
Infix "<?" := nlt (at level 70, no associativity) : py_scope.
Notation "- a" := (nneg a) : py_scope.

(** The value of a number when it is finite. *)
Definition real (n : num) (r : R) : Prop := to_R (val n) = Some r.

(** *** Process state: the module-level counter and the standard output *)

(** A pair of [float64], as in the length-2 arrays SciPy passes around. *)
Definition point : Type := float64 * float64.
Definition matrix : Type := (float64 * float64) * (float64 * float64).

(** What the program writes with [print], by call site. *)
Inductive event : Type :=
| PrintLambdas (lambda_1 lambda_2 : num)
| PrintTrace (lat lon h : num)
| PrintRoot (root : point)
| PrintFinal (lat lon h : num)
| PrintLambda1 (lambda_1 : num)
| PrintIters (n : nat).

(** [iters] is the global variable of the module; [stdout] holds what has
    been printed, oldest first. *)
Record world : Type := World { iters : nat; stdout : list event }.

Definition M (A : Type) : Type := world -> result A * world.

Definition ret {A} (a : A) : M A := fun w => (Ok a, w).

Definition bind {A B} (m : M A) (k : A -> M B) : M B :=
  fun w =>
    match m w with
    | (Ok a, w') => k a w'
    | (Raise e, w') => (Raise e, w')
    end.

Definition lift {A} (r : result A) : M A := fun w => (r, w).

Definition set_iters (n : nat) : M unit :=
  fun w => (Ok tt, World n (stdout w)).

Definition get_iters : M nat := fun w => (Ok (iters w), w).

Definition print (e : event) : M unit :=
  fun w => (Ok tt, World (iters w) (stdout w ++ [e])).

Definition when (c : bool) (m : M unit) : M unit :=
  if c then m else ret tt.

Notation "x <- m ;; k" := (bind m (fun x => k))
  (at level 61, m at next level, right associativity) : py_scope.
Notation "m ;; k" := (bind m (fun _ => k))
  (at level 61, right associativity) : py_scope.

(** *** The result of [scipy.optimize.root] *)

(** SciPy is not part of the repository.  Its root finder is a parameter of
    the model: from the residual function, the Jacobian, the starting point
    and the method name it produces an [OptimizeResult].  Besides the fields
    [x] and [success] of SciPy's object, the model records [evals], the points
    at which the solver called the residual function, in order: each call runs
    the side effects of the Python closure [fun]. *)
Module OptimizeResult.
Record t : Type := Build { x : point; success : bool; evals : list point }.
End OptimizeResult.

Definition root_finder : Type :=
  (point -> point) -> (point -> matrix) -> point -> string -> OptimizeResult.t.

(** ** The program *)

Local Open Scope py_scope.

(** [step3(H, p_E, z_E, p_G, z_G)]: latitude (degrees) and signed height of
    the point [(p_G, z_G)] whose projection on the ellipse is [(p_E, z_E)]. *)
Definition step3 (H p_E z_E p_G z_G : num) : result (num * num) :=
  let! tan_phi := H * H * z_E / p_E in
  let! deg := PyInt 180 / np_pi in
  let phi := np_arctan tan_phi * deg in
  let h := np_sqrt (np_square (p_E - p_G) + np_square (z_E - z_G)) in
  let h := if p_G + np_abs z_G <? p_E + np_abs z_E then - h else h in
  Ok (phi, h).

(** [llhxyz(lat, long, h, a, b)]: geodetic to Cartesian. *)
Definition llhxyz (lat long h a b : num) : result (num * num * num) :=
  let! rad := np_pi / PyInt 180 in
  let lat := lat * rad in
  let! rad' := np_pi / PyInt 180 in
  let long := long * rad' in
  let! ba := b / a in
  let e_2 := PyInt 1 - np_square ba in
  let! N := a / np_sqrt (PyInt 1 - e_2 * np_square (np_sin lat)) in
  let x := (N + h) * np_cos lat * np_cos long in
  let y := (N + h) * np_cos lat * np_sin long in
  let z := ((PyInt 1 - e_2) * N + h) * np_sin lat in
  Ok (x, y, z).

(** The value returned by the closure [fun] of [xyzllh] at the array [x]. *)
Definition fun_value (G H K p_G z_G : num) (x : point) : point :=
  let pe := Np (fst x) in
  let ze := Np (snd x) in
  (val ((pe - p_G) * H * ze - (ze - z_G) * G * pe),
   val (G * pe * pe + H * ze * ze - K)).

(** The closure [fun] with its effects: it computes [step3], counts the call
    in the global [iters], prints when [trace] is set, and returns the
    residual. *)
Definition fun_ (trace : bool) (lambda_2 G H K p_G z_G : num) (x : point) : M point :=
  let pe := Np (fst x) in
  let ze := Np (snd x) in
  s3 <- lift (step3 H pe ze p_G z_G) ;;
  n <- get_iters ;;
  set_iters (S n) ;;
  when trace (print (PrintTrace (fst s3) lambda_2 (snd s3))) ;;
  ret (fun_value G H K p_G z_G x).

(** The closure [jac]. *)
Definition jac (G H p_G z_G : num) (x : point) : matrix :=
  let pe := Np (fst x) in
  let ze := Np (snd x) in
  ((val (H * ze - (ze - z_G) * G), val ((pe - p_G) * H - G * pe)),
   (val (PyInt 2 * G * pe), val (PyInt 2 * H * ze))).

(** The calls the solver makes to [fun], in order. *)
Fixpoint run_evals (f : point -> M point) (pts : list point) : M unit :=
  match pts with
  | [] => ret tt
  | p :: rest => _ <- f p ;; run_evals f rest
  end.

Section Solver.

Variable optimize_root : root_finder.

(** [xyzllh(x, y, z, a, b, trace, method)]: Cartesian to geodetic. *)
Definition xyzllh (x y z a b : num) (trace : bool) (method : string)
  : M (num * num * num * nat) :=
  set_iters 0 ;;
  q1 <- lift (y / x) ;;
  deg1 <- lift (PyInt 180 / np_pi) ;;
  let lambda_1 := np_arctan q1 * deg1 in
  let w := np_sqrt (x * x + y * y) in
  q2 <- lift (y / (x + w)) ;;
  deg2 <- lift (PyInt 180 / np_pi) ;;
  let lambda_2 := PyInt 2 * np_arctan q2 * deg2 in
  when trace (print (PrintLambdas lambda_1 lambda_2)) ;;
  let p_G := np_sqrt (x * x + y * y) in
  let z_G := z in
  G <- lift (b / a) ;;
  H <- lift (a / b) ;;
  let K := a * b in
  r <- lift (PyInt 1 / np_sqrt (p_G * p_G + z_G * z_G)) ;;
  let p_start := a * p_G * r in
  let z_start := b * z_G * r in
  let res := optimize_root (fun_value G H K p_G z_G) (jac G H p_G z_G)
               (val p_start, val z_start) method in
  run_evals (fun_ trace lambda_2 G H K p_G z_G) (OptimizeResult.evals res) ;;
  let root := OptimizeResult.x res in
  print (PrintRoot root) ;;
  toret <- lift (step3 H (Np (fst root)) (Np (snd root)) p_G z_G) ;;
  when trace (print (PrintFinal (fst toret) lambda_2 (snd toret)) ;;
              print (PrintLambda1 lambda_1) ;;
              n <- get_iters ;;
              print (PrintIters n)) ;;
  n <- get_iters ;;
  ret (fst toret, lambda_2, snd toret, n).

End Solver.

Local Close Scope py_scope.

(** ** The formulas of the specification, over the reals *)

Module Spec.

(** Degrees to radians and back. *)
Definition rad (d : R) : R := d * (PI / 180).
Definition deg (r : R) : R := r * (180 / PI).

(** Derived constants of the ellipsoid. *)
Definition G (a b : R) : R := b / a.
Definition H (a b : R) : R := a / b.
Definition K (a b : R) : R := a * b.

(** GeodeticRecoverer. *)
Definition latitude (H p_E z_E : R) : R := deg (atan (H * H * z_E / p_E)).
Definition height_magnitude (p_E z_E p_G z_G : R) : R :=
  sqrt ((p_E - p_G) * (p_E - p_G) + (z_E - z_G) * (z_E - z_G)).
Definition inside (p_E z_E p_G z_G : R) : Prop :=
  p_G + Rabs z_G < p_E + Rabs z_E.

(** MeridianProjector: residual, Jacobian and initial guess. *)
Definition f1 (G H p_G z_G p_E z_E : R) : R :=
  (p_E - p_G) * H * z_E - (z_E - z_G) * G * p_E.
Definition f2 (G H K p_E z_E : R) : R :=
  G * (p_E * p_E) + H * (z_E * z_E) - K.
Definition df1_dp (G H z_G z_E : R) : R := H * z_E - (z_E - z_G) * G.
Definition df1_dz (G H p_G p_E : R) : R := (p_E - p_G) * H - G * p_E.
Definition df2_dp (G p_E : R) : R := 2 * G * p_E.
Definition df2_dz (H z_E : R) : R := 2 * H * z_E.
Definition r (p_G z_G : R) : R := 1 / sqrt (p_G * p_G + z_G * z_G).
Definition p_start (a p_G z_G : R) : R := a * p_G * r p_G z_G.
Definition z_start (b p_G z_G : R) : R := b * z_G * r p_G z_G.

(** Longitude by the half-angle formula, in degrees. *)
Definition longitude (x y : R) : R :=
  deg (2 * atan (y / (x + sqrt (x * x + y * y)))).

(** ForwardProjector; [lat] and [lon] are in degrees. *)
Definition e2 (a b : R) : R := 1 - (b / a) * (b / a).
Definition N (a b lat : R) : R :=
  a / sqrt (1 - e2 a b * (sin (rad lat) * sin (rad lat))).
Definition X (a b lat lon h : R) : R :=
  (N a b lat + h) * cos (rad lat) * cos (rad lon).
Definition Y (a b lat lon h : R) : R :=
  (N a b lat + h) * cos (rad lat) * sin (rad lon).
Definition Z (a b lat h : R) : R :=
  ((1 - e2 a b) * N a b lat + h) * sin (rad lat).

(** The distance of the geodetic point [(lat, lon, h)] to the rotation axis. *)
Definition P (a b lat h : R) : R := (N a b lat + h) * cos (rad lat).

(** The point of the ellipse below the geodetic point [(lat, lon, h)]: the
    foot of the ellipsoid normal, in meridian-plane coordinates. *)
Definition p_foot (a b lat : R) : R := N a b lat * cos (rad lat).
Definition z_foot (a b lat : R) : R := (1 - e2 a b) * N a b lat * sin (rad lat).

(** A well-formed ellipsoid. *)
Definition valid_ellipsoid (a b : R) : Prop := 0 < b /\ b <= a.

End Spec.

(** ** What the program computes when no exception is raised

    The same expressions as in [step3] and [xyzllh], with the IEEE quotient
    in place of a division that is known not to raise.  The lemmas
    [step3_eq] and [xyzllh_run] below connect them to the program. *)

Local Open Scope py_scope.

Notation "a // b" := (arith fdiv a b) (at level 40, left associativity) : py_scope.

Definition step3_value (H p_E z_E p_G z_G : num) : num * num :=
  let phi := np_arctan (H * H * z_E // p_E) * (PyInt 180 // np_pi) in
  let h := np_sqrt (np_square (p_E - p_G) + np_square (z_E - z_G)) in
  (phi, if p_G + np_abs z_G <? p_E + np_abs z_E then - h else h).

Definition lambda_1_value (x y : num) : num :=
  np_arctan (y // x) * (PyInt 180 // np_pi).

Definition lambda_2_value (x y : num) : num :=
  PyInt 2 * np_arctan (y // (x + np_sqrt (x * x + y * y))) * (PyInt 180 // np_pi).

Definition p_G_value (x y : num) : num := np_sqrt (x * x + y * y).

Definition start_value (x y z a b : num) : point :=
  let p_G := p_G_value x y in
  let r := PyInt 1 // np_sqrt (p_G * p_G + z * z) in
  (val (a * p_G * r), val (b * z * r)).

(** The call [optimize.root(fun, [p_start, z_start], jac=jac, method=method)]. *)
Definition solve (optimize_root : root_finder) (x y z a b : num) (method : string)
  : OptimizeResult.t :=
  let p_G := p_G_value x y in
  optimize_root (fun_value (b // a) (a // b) (a * b) p_G z)
    (jac (b // a) (a // b) p_G z) (start_value x y z a b) method.

(** What one call of [xyzllh] prints. *)
Definition xyzllh_prints (optimize_root : root_finder) (x y z a b : num)
  (trace : bool) (method : string) : list event :=
  let res := solve optimize_root x y z a b method in
  let root := OptimizeResult.x res in
  let p_G := p_G_value x y in
  let H := a // b in
  let s3 := step3_value H (Np (fst root)) (Np (snd root)) p_G z in
  let at_point (p : point) :=
    let s := step3_value H (Np (fst p)) (Np (snd p)) p_G z in
    PrintTrace (fst s) (lambda_2_value x y) (snd s) in
  (if trace then [PrintLambdas (lambda_1_value x y) (lambda_2_value x y)] else [])
  ++ (if trace then map at_point (OptimizeResult.evals res) else [])
  ++ [PrintRoot root]
  ++ (if trace
      then [PrintFinal (fst s3) (lambda_2_value x y) (snd s3);
            PrintLambda1 (lambda_1_value x y);
            PrintIters (length (OptimizeResult.evals res))]
      else []).

Local Close Scope py_scope.

(** ** Default arguments and solvers used in the examples *)

(** The defaults of [xyzllh] and [llhxyz]. *)
Definition default_a : num := PyInt 6378.
Definition default_b : num := PyInt 6356.
Definition default_method : string := "broyden1".

(** A solver that evaluates the residual once, at the starting point, and
    returns that point. *)
Definition stay_solver (ok : bool) : root_finder :=
  fun f _ x0 _ => OptimizeResult.Build x0 ok [x0].

(** A solver that returns the point (-6378, 0) without evaluating anything. *)
Definition antipodal_solver : root_finder :=
  fun _ _ _ _ => OptimizeResult.Build (Fin (- 6378), Fin 0) true [].

(** The same solver with the [success] flag of its result inverted. *)
Definition flip_success (optimize_root : root_finder) : root_finder :=
  fun f j x0 m =>
    let r := optimize_root f j x0 m in
    OptimizeResult.Build (OptimizeResult.x r) (negb (OptimizeResult.success r))
      (OptimizeResult.evals r).

(** ** The interactive driver

    [tester] prompts for three numbers with [input], converts them with
    [float], and runs both conversions with the default ellipsoid.  It is
    also the body of the module: the last line of the file calls [tester()].

    The console is the standard input, still to be read, and the standard
    output.  Python's built-in [float] is a parameter: it fails (ValueError)
    on a line that is not a number.  [input] fails (EOFError) when the
    standard input is exhausted. *)

(** A line on the standard output of the driver. *)
Inductive line : Type :=
| Prompt (text : string)
| FromXyzllh (e : event)
| Blank
| ResultsHeader
| Entered (latitude longitude height : num)
| Equivalent (x y z : num)
| BackConverted (la lo h : num)
| Took (iterations : nat).

Record console : Type :=
  Console { c_iters : nat; c_stdin : list string; c_stdout : list line }.

Inductive tester_exn : Type :=
| EOFError
| ValueError
| Arithmetic (e : exn).

Inductive outcome (A : Type) : Type :=
| Done (a : A)
| Failed (e : tester_exn).
Arguments Done {A} a.
Arguments Failed {A} e.

(** [float(input(prompt))]. *)
Definition float_input (float : string -> option float64) (prompt : string)
  (c : console) : outcome num * console :=
  let c1 := Console (c_iters c) (c_stdin c) (c_stdout c ++ [Prompt prompt]) in
  match c_stdin c1 with
  | [] => (Failed EOFError, c1)
  | l :: rest =>
      let c2 := Console (c_iters c1) rest (c_stdout c1) in
      match float l with
      | Some v => (Done (Py v), c2)
      | None => (Failed ValueError, c2)
      end
  end.

(** A call of [xyzllh] from the driver: it shares the global [iters] and the
    standard output with it. *)
Definition call_xyzllh (optimize_root : root_finder) (x y z : num) (trace : bool)
  (c : console) : outcome (num * num * num * nat) * console :=
  match xyzllh optimize_root x y z default_a default_b trace default_method
          (World (c_iters c) []) with
  | (r, w) =>
      let c' := Console (iters w) (c_stdin c) (c_stdout c ++ map FromXyzllh (stdout w)) in
      match r with
      | Ok v => (Done v, c')
      | Raise e => (Failed (Arithmetic e), c')
      end
  end.

(** [tester(trace)]. *)
Definition tester (optimize_root : root_finder) (float : string -> option float64)
  (trace : bool) (c : console) : outcome unit * console :=
  match float_input float "Enter latitude: " c with
  | (Failed e, c1) => (Failed e, c1)
  | (Done latitude, c1) =>
  match float_input float "Enter longitude: " c1 with
  | (Failed e, c2) => (Failed e, c2)
  | (Done longitude, c2) =>
  match float_input float "Enter height: " c2 with
  | (Failed e, c3) => (Failed e, c3)
  | (Done height, c3) =>
  match llhxyz latitude longitude height default_a default_b with
  | Raise e => (Failed (Arithmetic e), c3)
  | Ok (x, y, z) =>
  match call_xyzllh optimize_root x y z trace c3 with
  | (Failed e, c4) => (Failed e, c4)
  | (Done (la, lo, h, iterations), c4) =>
      (Done tt,
       Console (c_iters c4) (c_stdin c4)
         (c_stdout c4 ++
          [Blank; ResultsHeader; Entered latitude longitude height;
           Equivalent x y z; BackConverted la lo h; Took iterations; Blank]))
  end end end end end.

(** The module body: [tester()], with [trace] at its default. *)
Definition main (optimize_root : root_finder) (float : string -> option float64)
  (c : console) : outcome unit * console :=
  tester optimize_root float false c.

(** ** Vocabulary of the further properties *)

(** The real value of a finite [float64]; 0 for the others. *)
Definition real_of (f : float64) : R :=
  match to_R f with Some r => r | None => 0 end.

(** ** Finite values: the operations agree with real arithmetic *)

Lemma Req_b_true (x y : R) : x = y -> Req_b x y = true.
Proof. intros E. unfold Req_b. destruct (Req_dec_T x y); [reflexivity | contradiction]. Qed.

Lemma Req_b_false (x y : R) : x <> y -> Req_b x y = false.
Proof. intros E. unfold Req_b. destruct (Req_dec_T x y); [contradiction | reflexivity]. Qed.

Lemma Rlt_b_true (x y : R) : x < y -> Rlt_b x y = true.
Proof. intros E. unfold Rlt_b. destruct (Rlt_dec x y); [reflexivity | contradiction]. Qed.

Lemma Rlt_b_false (x y : R) : ~ x < y -> Rlt_b x y = false.
Proof. intros E. unfold Rlt_b. destruct (Rlt_dec x y); [contradiction | reflexivity]. Qed.

Lemma Rlt_b_iff (x y : R) : Rlt_b x y = true <-> x < y.
Proof. unfold Rlt_b. destruct (Rlt_dec x y); split; intros; try discriminate; tauto. Qed.

Lemma to_R_mk (r : R) (s : bool) : to_R (mk r s) = Some r.
Proof.
  unfold mk, Req_b. destruct (Req_dec_T r 0) as [E | E].
  - destruct s; simpl; now rewrite E.
  - reflexivity.
Qed.

(** Case analysis on a float whose value is known to be finite. *)
Ltac finite f H :=
  destruct f; simpl in H; try discriminate H; injection H as H; subst.

Lemma to_R_fadd a b x y :
  to_R a = Some x -> to_R b = Some y -> to_R (fadd a b) = Some (x + y).
Proof. intros Ha Hb. finite a Ha; finite b Hb; simpl; f_equal; lra. Qed.

Lemma to_R_fneg a x : to_R a = Some x -> to_R (fneg a) = Some (- x).
Proof. intros Ha. finite a Ha; simpl; [f_equal; lra | apply to_R_mk]. Qed.

Lemma to_R_fsub a b x y :
  to_R a = Some x -> to_R b = Some y -> to_R (fsub a b) = Some (x - y).
Proof. intros Ha Hb. unfold fsub. apply to_R_fadd; [assumption | now apply to_R_fneg]. Qed.

Lemma to_R_fmul a b x y :
  to_R a = Some x -> to_R b = Some y -> to_R (fmul a b) = Some (x * y).
Proof. intros Ha Hb. unfold fmul. rewrite Ha, Hb. apply to_R_mk. Qed.

Lemma to_R_fdiv a b x y :
  to_R a = Some x -> to_R b = Some y -> y <> 0 -> to_R (fdiv a b) = Some (x / y).
Proof.
  intros Ha Hb Hy. unfold fdiv. rewrite Ha, Hb, (Req_b_false y 0 Hy). apply to_R_mk.
Qed.

Lemma to_R_fsqrt a x : to_R a = Some x -> 0 <= x -> to_R (fsqrt a) = Some (sqrt x).
Proof.
  intros Ha Hx. finite a Ha; simpl.
  - now rewrite sqrt_0.
  - rewrite Rlt_b_false by lra. reflexivity.
Qed.

Lemma to_R_fabs a x : to_R a = Some x -> to_R (fabs a) = Some (Rabs x).
Proof. intros Ha. finite a Ha; simpl; [now rewrite Rabs_R0 | reflexivity]. Qed.

Lemma to_R_fatan a x : to_R a = Some x -> to_R (fatan a) = Some (atan x).
Proof. intros Ha. finite a Ha; simpl; [now rewrite atan_0 | reflexivity]. Qed.

Lemma to_R_fsin a x : to_R a = Some x -> to_R (fsin a) = Some (sin x).
Proof. intros Ha. finite a Ha; simpl; [now rewrite sin_0 | reflexivity]. Qed.

Lemma to_R_fcos a x : to_R a = Some x -> to_R (fcos a) = Some (cos x).
Proof. intros Ha. finite a Ha; simpl; [now rewrite cos_0 | reflexivity]. Qed.

Lemma flt_finite a b x y :
  to_R a = Some x -> to_R b = Some y -> flt a b = Rlt_b x y.
Proof. intros Ha Hb. finite a Ha; finite b Hb; reflexivity. Qed.

Lemma is_zero_finite a x : to_R a = Some x -> is_zero a = Req_b x 0.
Proof. intros Ha. finite a Ha; simpl; [now rewrite Req_b_true | reflexivity]. Qed.

(** The same facts on numbers of either kind. *)

Lemma val_arith op a b : val (arith op a b) = op (val a) (val b).
Proof. destruct a, b; reflexivity. Qed.

Lemma val_nmul a b : val (nmul a b) = fmul (val a) (val b).
Proof. apply val_arith. Qed.

Lemma val_nadd a b : val (nadd a b) = fadd (val a) (val b).
Proof. apply val_arith. Qed.

Lemma val_nsub a b : val (nsub a b) = fsub (val a) (val b).
Proof. apply val_arith. Qed.

Lemma real_eq n r r' : real n r -> r = r' -> real n r'.
Proof. intros H E. now rewrite <- E. Qed.

Lemma real_Py r : real (Py (Fin r)) r.
Proof. reflexivity. Qed.

Lemma real_Np r : real (Np (Fin r)) r.
Proof. reflexivity. Qed.

Lemma real_PyInt k : real (PyInt k) (IZR k).
Proof. reflexivity. Qed.

Lemma real_np_pi : real np_pi PI.
Proof. reflexivity. Qed.

Lemma real_Np_val n r : real n r -> real (Np (val n)) r.
Proof. intros H; exact H. Qed.

Lemma real_add a b x y : real a x -> real b y -> real (nadd a b) (x + y).
Proof. unfold real, nadd. rewrite val_arith. apply to_R_fadd. Qed.

Lemma real_sub a b x y : real a x -> real b y -> real (nsub a b) (x - y).
Proof. unfold real, nsub. rewrite val_arith. apply to_R_fsub. Qed.

Lemma real_mul a b x y : real a x -> real b y -> real (nmul a b) (x * y).
Proof. unfold real, nmul. rewrite val_arith. apply to_R_fmul. Qed.

Lemma real_neg a x : real a x -> real (nneg a) (- x).
Proof. unfold real. destruct a; simpl; apply to_R_fneg. Qed.

Lemma real_quot a b x y : real a x -> real b y -> y <> 0 -> real (arith fdiv a b) (x / y).
Proof. unfold real. rewrite val_arith. apply to_R_fdiv. Qed.

Lemma ndiv_no_raise a b : raises_zero_division a b = false -> ndiv a b = Ok (arith fdiv a b).
Proof. intros H. unfold ndiv. now rewrite H. Qed.

Lemma no_raise_nonzero a b y : real b y -> y <> 0 -> raises_zero_division a b = false.
Proof.
  unfold real. intros Hb Hy. destruct a, b; simpl in *; try reflexivity.
  rewrite (is_zero_finite _ _ Hb). now apply Req_b_false.
Qed.

Lemma ndiv_ok a b y : real b y -> y <> 0 -> ndiv a b = Ok (arith fdiv a b).
Proof. intros Hb Hy. apply ndiv_no_raise. now apply (no_raise_nonzero a b y). Qed.

Lemma ndiv_Np_l v b : ndiv (Np v) b = Ok (Np (fdiv v (val b))).
Proof. destruct b; reflexivity. Qed.

Lemma ndiv_Np_r a v : ndiv a (Np v) = Ok (Np (fdiv (val a) v)).
Proof. destruct a; reflexivity. Qed.

Lemma real_sqrt a x : real a x -> 0 <= x -> real (np_sqrt a) (sqrt x).
Proof. unfold real. simpl. apply to_R_fsqrt. Qed.

Lemma real_square a x : real a x -> real (np_square a) (x * x).
Proof. unfold real. simpl. intros H. now apply to_R_fmul. Qed.

Lemma real_abs a x : real a x -> real (np_abs a) (Rabs x).
Proof. unfold real. simpl. apply to_R_fabs. Qed.

Lemma real_arctan a x : real a x -> real (np_arctan a) (atan x).
Proof. unfold real. simpl. apply to_R_fatan. Qed.

Lemma real_sin a x : real a x -> real (np_sin a) (sin x).
Proof. unfold real. simpl. apply to_R_fsin. Qed.

Lemma real_cos a x : real a x -> real (np_cos a) (cos x).
Proof. unfold real. simpl. apply to_R_fcos. Qed.

Lemma nlt_real a b x y : real a x -> real b y -> nlt a b = Rlt_b x y.
Proof. unfold real, nlt. apply flt_finite. Qed.

Create HintDb finite discriminated.
#[local] Hint Resolve real_Py real_Np real_PyInt real_np_pi real_Np_val
  real_add real_sub real_mul real_neg real_square real_abs
  real_arctan real_sin real_cos : finite.

(** ** Properties of [step3] *)

Lemma deg_factor_ok : ndiv (PyInt 180) np_pi = Ok (arith fdiv (PyInt 180) np_pi).
Proof. apply (ndiv_ok _ _ PI); [apply real_np_pi | apply PI_neq0]. Qed.

Lemma real_deg_factor : real (arith fdiv (PyInt 180) np_pi) (180 / PI).
Proof. apply real_quot; [apply real_PyInt | apply real_np_pi | apply PI_neq0]. Qed.

Lemma rad_factor_ok : ndiv np_pi (PyInt 180) = Ok (arith fdiv np_pi (PyInt 180)).
Proof. apply (ndiv_ok _ _ 180); [apply real_PyInt | lra]. Qed.

Lemma real_rad_factor : real (arith fdiv np_pi (PyInt 180)) (PI / 180).
Proof. apply real_quot; [apply real_np_pi | apply real_PyInt | lra]. Qed.

#[local] Hint Resolve real_deg_factor real_rad_factor : finite.

Lemma sum_squares_nonneg (u v : R) : 0 <= u * u + v * v.
Proof. nra. Qed.

(** The height [step3] computes before it chooses the sign. *)
Lemma real_height_magnitude p_E z_E p_G z_G vpE vzE vpG vzG :
  real p_E vpE -> real z_E vzE -> real p_G vpG -> real z_G vzG ->
  real (np_sqrt (nadd (np_square (nsub p_E p_G)) (np_square (nsub z_E z_G))))
       (Spec.height_magnitude vpE vzE vpG vzG).
Proof.
  intros. unfold Spec.height_magnitude.
  apply real_sqrt; [auto with finite | apply sum_squares_nonneg].
Qed.

Lemma sqrt_sum_squares_pos (u v : R) : u <> 0 \/ v <> 0 -> 0 < sqrt (u * u + v * v).
Proof. intros H. apply sqrt_lt_R0. nra. Qed.

(** [step3] on finite arguments with a non-zero [p_E]. *)
Lemma step3_finite (H p_E z_E p_G z_G : num) (vH vpE vzE vpG vzG : R) :
  real H vH -> real p_E vpE -> real z_E vzE -> real p_G vpG -> real z_G vzG ->
  vpE <> 0 ->
  exists phi h vh,
    step3 H p_E z_E p_G z_G = Ok (phi, h) /\
    real phi (Spec.latitude vH vpE vzE) /\
    real h vh /\
    Rabs vh = Spec.height_magnitude vpE vzE vpG vzG /\
    (vh < 0 <-> Spec.inside vpE vzE vpG vzG).
Proof.
  intros rH rpE rzE rpG rzG HpE.
  unfold step3.
  rewrite (ndiv_ok _ _ _ rpE HpE). cbn [rbind].
  rewrite deg_factor_ok. cbn [rbind].
  assert (Hmag := real_height_magnitude _ _ _ _ _ _ _ _ rpE rzE rpG rzG).
  assert (Hcmp : nlt (nadd p_G (np_abs z_G)) (nadd p_E (np_abs z_E))
                 = Rlt_b (vpG + Rabs vzG) (vpE + Rabs vzE))
    by (apply nlt_real; auto with finite).
  rewrite Hcmp.
  set (m := Spec.height_magnitude vpE vzE vpG vzG) in *.
  assert (Hm : 0 <= m) by apply sqrt_pos.
  unfold Rlt_b. destruct (Rlt_dec (vpG + Rabs vzG) (vpE + Rabs vzE)) as [Hin | Hout].
  - eexists _, _, (- m). split; [reflexivity |].
    split.
    { unfold Spec.latitude, Spec.deg. apply real_mul; [| apply real_deg_factor].
      apply real_arctan, real_quot; auto with finite. }
    split; [now apply real_neg |].
    split; [rewrite Rabs_Ropp; now apply Rabs_pos_eq |].
    split; [intros _; exact Hin | intros _].
    assert (0 < m); [| lra].
    apply sqrt_sum_squares_pos.
    destruct (Req_dec_T vpE vpG) as [E1 | E1]; [| left; lra].
    destruct (Req_dec_T vzE vzG) as [E2 | E2]; [| right; lra].
    subst. lra.
  - eexists _, _, m. split; [reflexivity |].
    split.
    { unfold Spec.latitude, Spec.deg. apply real_mul; [| apply real_deg_factor].
      apply real_arctan, real_quot; auto with finite. }
    split; [assumption |].
    split; [now apply Rabs_pos_eq |].
    unfold Spec.inside. split; [lra | tauto].
Qed.

(** ** Properties of [llhxyz] *)

Lemma ratio_bounds (a b : R) :
  Spec.valid_ellipsoid a b -> 0 < b / a <= 1.
Proof.
  intros [Hb Hab]. assert (Ha : 0 < a) by lra. split.
  - now apply Rdiv_lt_0_compat.
  - apply (Rmult_le_reg_r a); [assumption |]. field_simplify; lra.
Qed.

Lemma e2_bounds (a b : R) :
  Spec.valid_ellipsoid a b -> 0 <= Spec.e2 a b < 1.
Proof. intros V. pose proof (ratio_bounds a b V). unfold Spec.e2. nra. Qed.

Lemma sin2_bounds (t : R) : 0 <= sin t * sin t <= 1.
Proof. pose proof (sin2_cos2 t) as E. unfold Rsqr in E. nra. Qed.

(** The radicand of the prime-vertical radius is positive. *)
Lemma radicand_pos (a b lat : R) :
  Spec.valid_ellipsoid a b ->
  0 < 1 - Spec.e2 a b * (sin (Spec.rad lat) * sin (Spec.rad lat)).
Proof.
  intros V. pose proof (e2_bounds a b V). pose proof (sin2_bounds (Spec.rad lat)). nra.
Qed.

Lemma N_pos (a b lat : R) : Spec.valid_ellipsoid a b -> 0 < Spec.N a b lat.
Proof.
  intros V. unfold Spec.N. apply Rdiv_lt_0_compat.
  - destruct V; lra.
  - apply sqrt_lt_R0, radicand_pos, V.
Qed.

(** [llhxyz] on finite arguments, whenever [a] is not zero and the radicand of
    the prime-vertical radius is positive. *)
Lemma llhxyz_finite_radicand (lat long h a b : num) (vlat vlon vh va vb : R) :
  real lat vlat -> real long vlon -> real h vh -> real a va -> real b vb ->
  va <> 0 ->
  0 < 1 - Spec.e2 va vb * (sin (Spec.rad vlat) * sin (Spec.rad vlat)) ->
  exists x y z,
    llhxyz lat long h a b = Ok (x, y, z) /\
    real x (Spec.X va vb vlat vlon vh) /\
    real y (Spec.Y va vb vlat vlon vh) /\
    real z (Spec.Z va vb vlat vh).
Proof.
  intros rlat rlon rh ra rb Ha Hrad.
  unfold llhxyz.
  rewrite rad_factor_ok. cbn [rbind].
  rewrite (ndiv_ok _ _ _ ra Ha). cbn [rbind].
  assert (rlat' : real (nmul lat (arith fdiv np_pi (PyInt 180))) (Spec.rad vlat))
    by (unfold Spec.rad; auto with finite).
  assert (rlon' : real (nmul long (arith fdiv np_pi (PyInt 180))) (Spec.rad vlon))
    by (unfold Spec.rad; auto with finite).
  assert (re2 : real (nsub (PyInt 1) (np_square (arith fdiv b a))) (Spec.e2 va vb)).
  { unfold Spec.e2. apply real_sub; [apply real_PyInt |].
    apply real_square, real_quot; assumption. }
  assert (rden : real (np_sqrt (nsub (PyInt 1)
                   (nmul (nsub (PyInt 1) (np_square (arith fdiv b a)))
                      (np_square (np_sin (nmul lat (arith fdiv np_pi (PyInt 180))))))))
                   (sqrt (1 - Spec.e2 va vb * (sin (Spec.rad vlat) * sin (Spec.rad vlat))))).
  { apply real_sqrt; [| lra]. auto with finite. }
  assert (Hden : sqrt (1 - Spec.e2 va vb * (sin (Spec.rad vlat) * sin (Spec.rad vlat))) <> 0).
  { apply Rgt_not_eq, sqrt_lt_R0, Hrad. }
  rewrite (ndiv_ok _ _ _ rden Hden). cbn [rbind].
  assert (rN := real_quot _ _ _ _ ra rden Hden).
  fold (Spec.N va vb vlat) in rN.
  eexists _, _, _. split; [reflexivity |].
  unfold Spec.X, Spec.Y, Spec.Z. repeat split; auto 10 with finite.
Qed.

(** [llhxyz] on finite arguments and a well-formed ellipsoid. *)
Lemma llhxyz_finite (lat long h a b : num) (vlat vlon vh va vb : R) :
  real lat vlat -> real long vlon -> real h vh -> real a va -> real b vb ->
  Spec.valid_ellipsoid va vb ->
  exists x y z,
    llhxyz lat long h a b = Ok (x, y, z) /\
    real x (Spec.X va vb vlat vlon vh) /\
    real y (Spec.Y va vb vlat vlon vh) /\
    real z (Spec.Z va vb vlat vh).
Proof.
  intros rlat rlon rh ra rb V.
  apply llhxyz_finite_radicand; try assumption.
  - destruct V; lra.
  - now apply radicand_pos.
Qed.

(** ** Running [xyzllh] *)

Lemma raises_Np_l v b : raises_zero_division (Np v) b = false.
Proof. destruct b; reflexivity. Qed.

Lemma raises_Np_r a v : raises_zero_division a (Np v) = false.
Proof. destruct a; reflexivity. Qed.

Lemma arith_Np_l op v b : arith op (Np v) b = Np (op v (val b)).
Proof. destruct b; reflexivity. Qed.

Lemma arith_Np_r op a v : arith op a (Np v) = Np (op (val a) v).
Proof. destruct a; reflexivity. Qed.

Lemma step3_eq H p_E z_E p_G z_G :
  step3 H p_E z_E p_G z_G =
  if raises_zero_division (nmul (nmul H H) z_E) p_E then Raise ZeroDivisionError
  else Ok (step3_value H p_E z_E p_G z_G).
Proof.
  unfold step3, ndiv at 1.
  destruct (raises_zero_division (nmul (nmul H H) z_E) p_E); [reflexivity |].
  cbn [rbind]. rewrite deg_factor_ok. reflexivity.
Qed.

(** Inside [xyzllh] the projected point comes from a NumPy array: [step3]
    cannot raise there. *)
Lemma step3_Np H v z_E p_G z_G :
  step3 H (Np v) z_E p_G z_G = Ok (step3_value H (Np v) z_E p_G z_G).
Proof. rewrite step3_eq, raises_Np_r. reflexivity. Qed.

Lemma run_evals_fun trace lambda_2 G H K p_G z_G pts w :
  run_evals (fun_ trace lambda_2 G H K p_G z_G) pts w =
  (Ok tt,
   World (iters w + length pts)
     (stdout w ++
      (if trace
       then map (fun p => let s := step3_value H (Np (fst p)) (Np (snd p)) p_G z_G in
                          PrintTrace (fst s) lambda_2 (snd s)) pts
       else []))).
Proof.
  revert w. induction pts as [| p pts IH]; intros [n out].
  - cbn. rewrite Nat.add_0_r. destruct trace; cbn; now rewrite app_nil_r.
  - cbn [run_evals]. unfold bind at 1. unfold fun_ at 1.
    rewrite step3_Np.
    unfold bind, lift, get_iters, set_iters, when, print, ret. cbn [iters stdout].
    destruct trace.
    + cbn [iters stdout]. rewrite IH. cbn [iters stdout length map].
      rewrite Nat.add_succ_r, <- app_assoc. reflexivity.
    + rewrite IH. cbn [iters stdout length]. rewrite Nat.add_succ_r. reflexivity.
Qed.

Lemma ndiv_by_sqrt a u : ndiv a (np_sqrt u) = Ok (arith fdiv a (np_sqrt u)).
Proof. apply ndiv_no_raise, raises_Np_r. Qed.

Lemma ndiv_by_sum_sqrt y x u :
  ndiv y (nadd x (np_sqrt u)) = Ok (arith fdiv y (nadd x (np_sqrt u))).
Proof. apply ndiv_no_raise. unfold np_sqrt, nadd. rewrite arith_Np_r. apply raises_Np_r. Qed.

Lemma bind_lift_Ok {A B} (a : A) (k : A -> M B) w : bind (lift (Ok a)) k w = k a w.
Proof. reflexivity. Qed.

Section Run.

Variable optimize_root : root_finder.

(** The outcome of a call in which no Python division raises. *)
Lemma xyzllh_run x y z a b trace method w :
  raises_zero_division y x = false ->
  raises_zero_division b a = false ->
  raises_zero_division a b = false ->
  let res := solve optimize_root x y z a b method in
  let root := OptimizeResult.x res in
  let s3 := step3_value (arith fdiv a b) (Np (fst root)) (Np (snd root)) (p_G_value x y) z in
  xyzllh optimize_root x y z a b trace method w =
  (Ok (fst s3, lambda_2_value x y, snd s3, length (OptimizeResult.evals res)),
   World (length (OptimizeResult.evals res))
     (stdout w ++ xyzllh_prints optimize_root x y z a b trace method)).
Proof.
  intros Hyx Hba Hab res root s3.
  unfold xyzllh.
  unfold bind at 1. unfold set_iters at 1.
  rewrite (ndiv_no_raise _ _ Hyx), bind_lift_Ok.
  rewrite deg_factor_ok, bind_lift_Ok.
  rewrite ndiv_by_sum_sqrt, bind_lift_Ok, bind_lift_Ok.
  fold (p_G_value x y). fold (lambda_1_value x y). fold (lambda_2_value x y).
  unfold bind at 1.
  assert (Hwhen : forall e w0, when trace (print e) w0
            = (Ok tt, World (iters w0) (stdout w0 ++ (if trace then [e] else [])))).
  { intros e [n out]. destruct trace; cbn; [reflexivity | now rewrite app_nil_r]. }
  rewrite Hwhen. cbn [iters stdout].
  rewrite (ndiv_no_raise _ _ Hba), bind_lift_Ok.
  rewrite (ndiv_no_raise _ _ Hab), bind_lift_Ok.
  rewrite ndiv_by_sqrt, bind_lift_Ok.
  change (optimize_root _ _ _ method) with res. fold root.
  unfold bind at 1. rewrite run_evals_fun. cbn [iters stdout Nat.add].
  unfold bind at 1. unfold print at 1. cbn [iters stdout].
  rewrite step3_Np, bind_lift_Ok. fold s3.
  unfold xyzllh_prints. fold res. fold root. fold s3.
  destruct trace; cbn -[s3 root res app];
    repeat rewrite <- app_assoc; cbn [app]; reflexivity.
Qed.

(** A Python-level division by zero in the first statement: [y / x]. *)
Lemma xyzllh_raise_yx x y z a b trace method w :
  raises_zero_division y x = true ->
  xyzllh optimize_root x y z a b trace method w =
  (Raise ZeroDivisionError, World 0 (stdout w)).
Proof.
  intros Hyx. unfold xyzllh. unfold bind at 1. unfold set_iters at 1.
  unfold ndiv at 1. rewrite Hyx. reflexivity.
Qed.

(** A Python-level division by zero in [G = b/a ; H = a/b]. *)
Lemma xyzllh_raise_GH x y z a b trace method w :
  raises_zero_division y x = false ->
  raises_zero_division b a || raises_zero_division a b = true ->
  xyzllh optimize_root x y z a b trace method w =
  (Raise ZeroDivisionError,
   World 0 (stdout w ++
            if trace then [PrintLambdas (lambda_1_value x y) (lambda_2_value x y)] else [])).
Proof.
  intros Hyx HGH. unfold xyzllh.
  unfold bind at 1. unfold set_iters at 1.
  rewrite (ndiv_no_raise _ _ Hyx), bind_lift_Ok.
  rewrite deg_factor_ok, bind_lift_Ok.
  rewrite ndiv_by_sum_sqrt, bind_lift_Ok, bind_lift_Ok.
  fold (lambda_1_value x y). fold (lambda_2_value x y).
  unfold bind at 1.
  assert (Hwhen : forall e w0, when trace (print e) w0
            = (Ok tt, World (iters w0) (stdout w0 ++ (if trace then [e] else [])))).
  { intros e [n out]. destruct trace; cbn; [reflexivity | now rewrite app_nil_r]. }
  rewrite Hwhen. cbn [iters stdout].
  unfold ndiv at 1. destruct (raises_zero_division b a); [reflexivity |].
  rewrite bind_lift_Ok. simpl in HGH.
  unfold ndiv at 1. rewrite HGH. reflexivity.
Qed.

End Run.

(** The solver's [success] flag is never read. *)
Lemma solve_flip_success R x y z a b method :
  OptimizeResult.x (solve (flip_success R) x y z a b method)
    = OptimizeResult.x (solve R x y z a b method) /\
  OptimizeResult.evals (solve (flip_success R) x y z a b method)
    = OptimizeResult.evals (solve R x y z a b method).
Proof. split; reflexivity. Qed.

(** [llhxyz] raises exactly when [b / a] does. *)
Lemma llhxyz_outcome (lat long h a b : num) :
  exists r,
    llhxyz lat long h a b =
    if raises_zero_division b a then Raise ZeroDivisionError else Ok r.
Proof.
  unfold llhxyz. rewrite rad_factor_ok. cbn [rbind].
  unfold ndiv at 1. destruct (raises_zero_division b a).
  - exists (a, a, a). reflexivity.
  - cbn [rbind]. rewrite ndiv_by_sqrt. cbn [rbind]. eexists. reflexivity.
Qed.

(** ** Division by a zero denominator in the longitude *)

Lemma is_zero_real f : is_zero f = true -> to_R f = Some 0.
Proof.
  destruct f; simpl; try discriminate; [reflexivity |].
  unfold Req_b. destruct (Req_dec_T r 0); [now subst | discriminate].
Qed.

Lemma fdiv_zero_zero a b : to_R a = Some 0 -> to_R b = Some 0 -> fdiv a b = NaN.
Proof.
  intros Ha Hb. unfold fdiv. rewrite Ha, Hb. now rewrite !Req_b_true.
Qed.

Lemma fmul_NaN_r a : fmul a NaN = NaN.
Proof. unfold fmul. destruct (to_R a), (is_nan a); reflexivity. Qed.

Lemma fmul_NaN_l b : fmul NaN b = NaN.
Proof. reflexivity. Qed.

Lemma sqrt_square_neg (v : R) : v <= 0 -> sqrt (v * v + 0 * 0) = - v.
Proof.
  intros Hv. replace (v * v + 0 * 0) with ((- v) * (- v)) by ring.
  apply sqrt_square. lra.
Qed.

(** On the closed negative x-axis the denominator [x + w] of the half-angle
    formula is zero. *)
Lemma half_angle_denominator_zero x y vx :
  real x vx -> vx <= 0 -> is_zero (val y) = true ->
  real (nadd x (np_sqrt (nadd (nmul x x) (nmul y y)))) 0.
Proof.
  intros rx Hx Hy. apply is_zero_real in Hy. fold (real y 0) in Hy.
  apply (real_eq _ (vx + sqrt (vx * vx + 0 * 0))).
  - apply real_add; [assumption |].
    apply real_sqrt; [auto with finite | apply sum_squares_nonneg].
  - rewrite sqrt_square_neg by assumption. ring.
Qed.

Lemma lambda_2_nan x y vx :
  real x vx -> vx <= 0 -> is_zero (val y) = true ->
  val (lambda_2_value x y) = NaN.
Proof.
  intros rx Hx Hy.
  pose proof (half_angle_denominator_zero x y vx rx Hx Hy) as Hden.
  apply is_zero_real in Hy.
  unfold lambda_2_value. rewrite !val_nmul. unfold np_arctan at 1. cbn [val].
  rewrite (val_arith fdiv), (fdiv_zero_zero _ _ Hy Hden). cbn [fatan].
  now rewrite fmul_NaN_r.
Qed.

(** ** Zero operands *)

Lemma is_zero_mk r s : r = 0 -> is_zero (mk r s) = true.
Proof.
  intros E. unfold mk. rewrite (Req_b_true _ _ E).
  destruct s; simpl; [reflexivity | now apply Req_b_true].
Qed.

Lemma signbit_nonzero f t : to_R f = Some t -> t <> 0 -> signbit f = Rlt_b t 0.
Proof. intros Hf Ht. finite f Hf; [contradiction | reflexivity]. Qed.

Lemma fmul_zero_self f : is_zero f = true -> fmul f f = Fin 0.
Proof.
  intros Hz. apply is_zero_real in Hz. unfold fmul. rewrite Hz, xorb_nilpotent.
  unfold mk. rewrite Req_b_true by ring. reflexivity.
Qed.

(** A product with a zero factor is a zero, or NaN when the other factor is
    not finite. *)
Lemma fmul_zero_r a f :
  is_zero f = true -> fmul a f = NaN \/ is_zero (fmul a f) = true.
Proof.
  intros Hz. pose proof (is_zero_real _ Hz) as Hf. unfold fmul. rewrite Hf.
  destruct (to_R a) as [va |].
  - right. apply is_zero_mk. ring.
  - left. rewrite Hz. now rewrite !orb_true_r.
Qed.

Lemma fmul_zero_PInf m : m = NaN \/ is_zero m = true -> fmul m PInf = NaN.
Proof.
  intros [-> | Hz]; [reflexivity |].
  unfold fmul. destruct (to_R m); simpl; rewrite Hz; now rewrite !orb_true_r.
Qed.

Lemma sqrt_zero_sum : sqrt (0 + 0) = 0.
Proof. rewrite Rplus_0_r. apply sqrt_0. Qed.

(** [1 / sqrt(0 + 0)] is the positive infinity. *)
Lemma inverse_norm_zero :
  fdiv (Fin 1) (fsqrt (fadd (Fin 0) (Fin 0))) = PInf.
Proof.
  cbn [fadd fsqrt]. rewrite Rlt_b_false by lra.
  unfold fdiv. cbn [to_R signbit].
  rewrite (Req_b_true (sqrt (0 + 0)) 0 sqrt_zero_sum), (Req_b_false 1 0) by lra.
  rewrite sqrt_zero_sum, !Rlt_b_false by lra. reflexivity.
Qed.

Lemma p_G_zero x y :
  is_zero (val x) = true -> is_zero (val y) = true ->
  val (p_G_value x y) = Fin (sqrt (0 + 0)).
Proof.
  intros Hx Hy. unfold p_G_value, np_sqrt. cbn [val].
  rewrite val_nadd, !val_nmul, (fmul_zero_self _ Hx), (fmul_zero_self _ Hy).
  cbn [fadd fsqrt]. now rewrite Rlt_b_false by lra.
Qed.

(** At the origin the radial scaling of the starting point divides by zero,
    and both coordinates of the starting point are NaN. *)
Lemma start_nan x y z a b :
  is_zero (val x) = true -> is_zero (val y) = true -> is_zero (val z) = true ->
  start_value x y z a b = (NaN, NaN).
Proof.
  intros Hx Hy Hz. unfold start_value.
  assert (HpG : is_zero (val (p_G_value x y)) = true).
  { rewrite (p_G_zero x y Hx Hy). simpl. apply Req_b_true, sqrt_zero_sum. }
  assert (Hr : val (arith fdiv (PyInt 1)
                 (np_sqrt (nadd (nmul (p_G_value x y) (p_G_value x y)) (nmul z z)))) = PInf).
  { rewrite val_arith. unfold np_sqrt. cbn [val PyInt].
    rewrite val_nadd, !val_nmul, (fmul_zero_self _ HpG), (fmul_zero_self _ Hz).
    apply inverse_norm_zero. }
  cbv zeta. rewrite !val_nmul, Hr.
  f_equal; apply fmul_zero_PInf, fmul_zero_r; assumption.
Qed.

(** ** The latitude on the polar axis *)

Lemma quarter_turn_degrees : PI / 2 * (180 / PI) = 90.
Proof. field. apply PI_neq0. Qed.

Section PolarAxis.

Variables (H z_E p_G z_G : num) (vH vz : R).
Hypothesis rH : real H vH.
Hypothesis HH : vH <> 0.
Hypothesis rz : real z_E vz.

Lemma real_tangent_numerator : real (nmul (nmul H H) z_E) (vH * vH * vz).
Proof. auto with finite. Qed.

Lemma tangent_numerator_sign :
  vz <> 0 -> vH * vH * vz <> 0 /\ Rlt_b (vH * vH * vz) 0 = Rlt_b vz 0.
Proof.
  intros Hz. assert (0 < vH * vH) by nra. split; [nra |].
  unfold Rlt_b. destruct (Rlt_dec (vH * vH * vz) 0), (Rlt_dec vz 0); try reflexivity; nra.
Qed.

(** [p_E] is the positive zero: the quotient is the infinity with the sign of
    [z_E], and the latitude is 90 or -90 degrees accordingly. *)
Lemma latitude_positive_zero :
  vz <> 0 ->
  real (fst (step3_value H (Np (Fin 0)) z_E p_G z_G)) (if Rlt_b vz 0 then - 90 else 90).
Proof.
  intros Hz. destruct (tangent_numerator_sign Hz) as [Ht Hs].
  pose proof real_tangent_numerator as rt.
  unfold step3_value. cbn [fst]. unfold real. rewrite val_nmul.
  unfold np_arctan. cbn [val]. rewrite arith_Np_r. cbn [val].
  unfold fdiv. rewrite rt. cbn [to_R]. rewrite Req_b_true, (Req_b_false _ 0 Ht) by reflexivity.
  rewrite (signbit_nonzero _ _ rt Ht), Hs. cbn [signbit]. rewrite (Rlt_b_false 0 0) by lra.
  rewrite xorb_false_r.
  destruct (Rlt_b vz 0); cbn [inf fatan].
  - erewrite to_R_fmul; [| reflexivity | apply real_deg_factor].
    f_equal. field. apply PI_neq0.
  - erewrite to_R_fmul; [| reflexivity | apply real_deg_factor].
    f_equal. field. apply PI_neq0.
Qed.

(** [p_E] is the negative zero: the sign of the infinity, and of the
    latitude, is reversed. *)
Lemma latitude_negative_zero :
  vz <> 0 ->
  real (fst (step3_value H (Np NZero) z_E p_G z_G)) (if Rlt_b vz 0 then 90 else - 90).
Proof.
  intros Hz. destruct (tangent_numerator_sign Hz) as [Ht Hs].
  pose proof real_tangent_numerator as rt.
  unfold step3_value. cbn [fst]. unfold real. rewrite val_nmul.
  unfold np_arctan. cbn [val]. rewrite arith_Np_r. cbn [val].
  unfold fdiv. rewrite rt. cbn [to_R]. rewrite Req_b_true, (Req_b_false _ 0 Ht) by reflexivity.
  rewrite (signbit_nonzero _ _ rt Ht), Hs. cbn [signbit].
  rewrite xorb_true_r.
  destruct (Rlt_b vz 0); cbn [negb inf fatan].
  - erewrite to_R_fmul; [| reflexivity | apply real_deg_factor].
    f_equal. field. apply PI_neq0.
  - erewrite to_R_fmul; [| reflexivity | apply real_deg_factor].
    f_equal. field. apply PI_neq0.
Qed.

(** [z_E] is zero as well: the quotient is 0/0 and the latitude is NaN. *)
Lemma latitude_zero_zero p_E :
  vz = 0 -> is_zero (val p_E) = true ->
  val (fst (step3_value H p_E z_E p_G z_G)) = NaN.
Proof.
  intros Hz Hp. pose proof real_tangent_numerator as rt.
  assert (Ht : vH * vH * vz = 0) by (rewrite Hz; ring). rewrite Ht in rt.
  unfold step3_value. cbn [fst]. rewrite val_nmul.
  unfold np_arctan. cbn [val]. rewrite val_arith.
  rewrite (fdiv_zero_zero _ _ rt (is_zero_real _ Hp)). reflexivity.
Qed.

End PolarAxis.

(** ** The system handed to the solver *)

Section MeridianSystem.

Variables (G H K p_G z_G : num) (g h k pg zg : R).
Hypothesis rG : real G g.
Hypothesis rH : real H h.
Hypothesis rK : real K k.
Hypothesis rpG : real p_G pg.
Hypothesis rzG : real z_G zg.

(** The residual at a finite point. *)
Lemma fun_value_finite (p : point) (pe ze : R) :
  to_R (fst p) = Some pe -> to_R (snd p) = Some ze ->
  to_R (fst (fun_value G H K p_G z_G p)) = Some (Spec.f1 g h pg zg pe ze) /\
  to_R (snd (fun_value G H K p_G z_G p)) = Some (Spec.f2 g h k pe ze).
Proof.
  intros Hpe Hze.
  assert (rpe : real (Np (fst p)) pe) by exact Hpe.
  assert (rze : real (Np (snd p)) ze) by exact Hze.
  unfold fun_value. cbn [fst snd]. split.
  - change (real (nsub (nmul (nmul (nsub (Np (fst p)) p_G) H) (Np (snd p)))
                       (nmul (nmul (nsub (Np (snd p)) z_G) G) (Np (fst p))))
                 (Spec.f1 g h pg zg pe ze)).
    unfold Spec.f1. auto 10 with finite.
  - change (real (nsub (nadd (nmul (nmul G (Np (fst p))) (Np (fst p)))
                             (nmul (nmul H (Np (snd p))) (Np (snd p)))) K)
                 (Spec.f2 g h k pe ze)).
    apply (real_eq _ (g * pe * pe + h * ze * ze - k)); [auto 10 with finite |].
    unfold Spec.f2. ring.
Qed.

(** The Jacobian at a finite point. *)
Lemma jac_finite (p : point) (pe ze : R) :
  to_R (fst p) = Some pe -> to_R (snd p) = Some ze ->
  to_R (fst (fst (jac G H p_G z_G p))) = Some (Spec.df1_dp g h zg ze) /\
  to_R (snd (fst (jac G H p_G z_G p))) = Some (Spec.df1_dz g h pg pe) /\
  to_R (fst (snd (jac G H p_G z_G p))) = Some (Spec.df2_dp g pe) /\
  to_R (snd (snd (jac G H p_G z_G p))) = Some (Spec.df2_dz h ze).
Proof.
  intros Hpe Hze.
  assert (rpe : real (Np (fst p)) pe) by exact Hpe.
  assert (rze : real (Np (snd p)) ze) by exact Hze.
  unfold jac. cbn [fst snd]. repeat split.
  - change (real (nsub (nmul H (Np (snd p))) (nmul (nsub (Np (snd p)) z_G) G))
                 (Spec.df1_dp g h zg ze)).
    unfold Spec.df1_dp. auto 10 with finite.
  - change (real (nsub (nmul (nsub (Np (fst p)) p_G) H) (nmul G (Np (fst p))))
                 (Spec.df1_dz g h pg pe)).
    unfold Spec.df1_dz. auto 10 with finite.
  - change (real (nmul (nmul (PyInt 2) G) (Np (fst p))) (Spec.df2_dp g pe)).
    unfold Spec.df2_dp. auto 10 with finite.
  - change (real (nmul (nmul (PyInt 2) H) (Np (snd p))) (Spec.df2_dz h ze)).
    unfold Spec.df2_dz. auto 10 with finite.
Qed.

End MeridianSystem.

(** The matrix given to the solver is the Jacobian of the residual. *)

Lemma derivable_pt_lim_eq (f g : R -> R) (t l : R) :
  (forall u, f u = g u) -> derivable_pt_lim g t l -> derivable_pt_lim f t l.
Proof.
  intros E D eps Heps. destruct (D eps Heps) as [delta Hd].
  exists delta. intros u Hu Hlt. rewrite !E. now apply Hd.
Qed.

Lemma quadratic_derivative (A B C t : R) :
  derivable_pt_lim (fun u => A * (u * u) + B * u + C) t (2 * A * t + B).
Proof.
  replace (2 * A * t + B) with (A * (1 * t + t * 1) + B * 1 + 0) by ring.
  apply (derivable_pt_lim_plus (fun u => A * (u * u) + B * u) (fun _ => C)).
  - apply (derivable_pt_lim_plus (fun u => A * (u * u)) (fun u => B * u)).
    + apply (derivable_pt_lim_scal (fun u => u * u) A).
      apply (derivable_pt_lim_mult id id); apply derivable_pt_lim_id.
    + apply (derivable_pt_lim_scal id B). apply derivable_pt_lim_id.
  - apply derivable_pt_lim_const.
Qed.

Lemma jacobian_is_derivative (G H K p_G z_G p z : R) :
  derivable_pt_lim (fun u => Spec.f1 G H p_G z_G u z) p (Spec.df1_dp G H z_G z) /\
  derivable_pt_lim (fun u => Spec.f1 G H p_G z_G p u) z (Spec.df1_dz G H p_G p) /\
  derivable_pt_lim (fun u => Spec.f2 G H K u z) p (Spec.df2_dp G p) /\
  derivable_pt_lim (fun u => Spec.f2 G H K p u) z (Spec.df2_dz H z).
Proof.
  repeat split.
  - apply (derivable_pt_lim_eq _
             (fun u => 0 * (u * u) + (H * z - (z - z_G) * G) * u + - (p_G * H * z))).
    + intros u. unfold Spec.f1. ring.
    + replace (Spec.df1_dp G H z_G z) with (2 * 0 * p + (H * z - (z - z_G) * G))
        by (unfold Spec.df1_dp; ring).
      apply quadratic_derivative.
  - apply (derivable_pt_lim_eq _
             (fun u => 0 * (u * u) + ((p - p_G) * H - G * p) * u + z_G * G * p)).
    + intros u. unfold Spec.f1. ring.
    + replace (Spec.df1_dz G H p_G p) with (2 * 0 * z + ((p - p_G) * H - G * p))
        by (unfold Spec.df1_dz; ring).
      apply quadratic_derivative.
  - apply (derivable_pt_lim_eq _ (fun u => G * (u * u) + 0 * u + (H * (z * z) - K))).
    + intros u. unfold Spec.f2. ring.
    + replace (Spec.df2_dp G p) with (2 * G * p + 0) by (unfold Spec.df2_dp; ring).
      apply quadratic_derivative.
  - apply (derivable_pt_lim_eq _ (fun u => H * (u * u) + 0 * u + (G * (p * p) - K))).
    + intros u. unfold Spec.f2. ring.
    + replace (Spec.df2_dz H z) with (2 * H * z + 0) by (unfold Spec.df2_dz; ring).
      apply quadratic_derivative.
Qed.

(** The meridian-plane radius of a finite point. *)
Lemma real_p_G x y vx vy :
  real x vx -> real y vy -> real (p_G_value x y) (sqrt (vx * vx + vy * vy)).
Proof.
  intros rx ry. unfold p_G_value.
  apply real_sqrt; [auto with finite | apply sum_squares_nonneg].
Qed.

Lemma norm_pos (vx vy vz : R) :
  vx <> 0 \/ vy <> 0 \/ vz <> 0 ->
  0 < sqrt (sqrt (vx * vx + vy * vy) * sqrt (vx * vx + vy * vy) + vz * vz).
Proof.
  intros Hne. rewrite sqrt_sqrt by apply sum_squares_nonneg.
  apply sqrt_lt_R0. destruct Hne as [Hn | [Hn | Hn]]; nra.
Qed.

(** The starting point for a finite input away from the origin. *)
Lemma start_finite x y z a b vx vy vz va vb :
  real x vx -> real y vy -> real z vz -> real a va -> real b vb ->
  vx <> 0 \/ vy <> 0 \/ vz <> 0 ->
  to_R (fst (start_value x y z a b))
    = Some (Spec.p_start va (sqrt (vx * vx + vy * vy)) vz) /\
  to_R (snd (start_value x y z a b))
    = Some (Spec.z_start vb (sqrt (vx * vx + vy * vy)) vz).
Proof.
  intros rx ry rz ra rb Hne.
  pose proof (real_p_G x y vx vy rx ry) as rp.
  pose proof (norm_pos vx vy vz Hne) as Hpos.
  set (pg := sqrt (vx * vx + vy * vy)) in *.
  assert (rr : real (arith fdiv (PyInt 1)
                 (np_sqrt (nadd (nmul (p_G_value x y) (p_G_value x y)) (nmul z z))))
                 (Spec.r pg vz)).
  { unfold Spec.r. apply real_quot; [apply real_PyInt | | lra].
    apply real_sqrt; [auto with finite | apply sum_squares_nonneg]. }
  unfold start_value. cbn [fst snd]. split.
  - change (real (nmul (nmul a (p_G_value x y))
                   (arith fdiv (PyInt 1)
                      (np_sqrt (nadd (nmul (p_G_value x y) (p_G_value x y)) (nmul z z)))))
                 (Spec.p_start va pg vz)).
    unfold Spec.p_start. auto with finite.
  - change (real (nmul (nmul b z)
                   (arith fdiv (PyInt 1)
                      (np_sqrt (nadd (nmul (p_G_value x y) (p_G_value x y)) (nmul z z)))))
                 (Spec.z_start vb pg vz)).
    unfold Spec.z_start. auto with finite.
Qed.

(** ** Uniqueness of the root in a quadrant

    Two points of the ellipse [q p^2 + Hh z^2 = k] with [p > 0] that satisfy
    the orthogonality condition in the form [C p = z (pG - e p)], with a
    positive factor [pG - e p], coincide: along the ellipse [p^2] and [z^2]
    cannot both grow. *)

Lemma roots_ordered_absurd (q Hh e pG C k p1 z1 p2 z2 : R) :
  0 < q -> 0 < Hh -> 0 <= e ->
  0 < p1 ->
  0 < pG - e * p2 ->
  C * p1 = z1 * (pG - e * p1) ->
  C * p2 = z2 * (pG - e * p2) ->
  q * (p1 * p1) + Hh * (z1 * z1) = k ->
  q * (p2 * p2) + Hh * (z2 * z2) = k ->
  p1 < p2 -> False.
Proof.
  intros Hq HH He Hp1 HD2 E1 E2 K1 K2 Hlt.
  set (D1 := pG - e * p1) in *. set (D2 := pG - e * p2) in *.
  assert (HD : D2 <= D1) by (unfold D1, D2; nra).
  assert (Hpp : p1 * p1 < p2 * p2) by nra.
  assert (Hz : z1 * z1 <= z2 * z2).
  { destruct (Rle_lt_dec (z1 * z1) (z2 * z2)) as [L | L]; [exact L | exfalso].
    assert (S1 : (z1 * D1) * (z1 * D1) = (C * C) * (p1 * p1)) by (rewrite <- E1; ring).
    assert (S2 : (z2 * D2) * (z2 * D2) = (C * C) * (p2 * p2)) by (rewrite <- E2; ring).
    assert (HDD : D2 * D2 <= D1 * D1) by nra.
    assert (HC : 0 <= C * C) by nra.
    assert (0 <= z2 * z2) by nra.
    assert (0 < D2 * D2) by nra.
    assert (T1 : (z2 * z2) * (D2 * D2) <= (z2 * z2) * (D1 * D1)) by nra.
    assert (T2 : (z2 * z2) * (D1 * D1) < (z1 * z1) * (D1 * D1)) by nra.
    assert (T3 : (C * C) * (p1 * p1) <= (C * C) * (p2 * p2)) by nra.
    nra. }
  assert (q * (p1 * p1) < q * (p2 * p2)) by nra.
  assert (Hh * (z1 * z1) <= Hh * (z2 * z2)) by nra.
  lra.
Qed.

Lemma roots_coincide (q Hh e pG C k p1 z1 p2 z2 : R) :
  0 < q -> 0 < Hh -> 0 <= e ->
  0 < p1 -> 0 < p2 ->
  0 < pG - e * p1 -> 0 < pG - e * p2 ->
  C * p1 = z1 * (pG - e * p1) ->
  C * p2 = z2 * (pG - e * p2) ->
  q * (p1 * p1) + Hh * (z1 * z1) = k ->
  q * (p2 * p2) + Hh * (z2 * z2) = k ->
  p1 = p2 /\ z1 = z2.
Proof.
  intros Hq HH He Hp1 Hp2 HD1 HD2 E1 E2 K1 K2.
  assert (Ep : p1 = p2).
  { destruct (Rtotal_order p1 p2) as [L | [L | L]]; [exfalso | exact L | exfalso].
    - exact (roots_ordered_absurd q Hh e pG C k p1 z1 p2 z2 Hq HH He Hp1 HD2 E1 E2 K1 K2 L).
    - exact (roots_ordered_absurd q Hh e pG C k p2 z2 p1 z1 Hq HH He Hp2 HD1 E2 E1 K2 K1 L). }
  split; [exact Ep |]. subst p2.
  apply (Rmult_eq_reg_r (pG - e * p1)); [| lra]. lra.
Qed.

(** ** The round trip, over the reals *)

Section RoundTrip.

Variables (a b lat lon h : R).
Hypothesis V : Spec.valid_ellipsoid a b.
Hypothesis Hlat : - 90 < lat < 90.
Hypothesis Hlon : - 180 < lon < 180.
Hypothesis Hh : - (b * b / a) < h.

Lemma a_pos : 0 < a.
Proof. destruct V; lra. Qed.

Lemma b_pos : 0 < b.
Proof. destruct V; lra. Qed.

Lemma rad_lat_bounds : - (PI / 2) < Spec.rad lat < PI / 2.
Proof.
  pose proof PI_RGT_0 as Hpi. assert (Hk : 0 < PI / 180) by lra.
  destruct Hlat as [L U].
  pose proof (Rmult_lt_compat_r _ _ _ Hk L). pose proof (Rmult_lt_compat_r _ _ _ Hk U).
  unfold Spec.rad. lra.
Qed.

Lemma half_rad_lon_bounds : - (PI / 2) < Spec.rad lon / 2 < PI / 2.
Proof.
  pose proof PI_RGT_0 as Hpi. assert (Hk : 0 < PI / 180) by lra.
  destruct Hlon as [L U].
  pose proof (Rmult_lt_compat_r _ _ _ Hk L). pose proof (Rmult_lt_compat_r _ _ _ Hk U).
  unfold Spec.rad. lra.
Qed.

Lemma cos_lat_pos : 0 < cos (Spec.rad lat).
Proof. apply cos_gt_0; apply rad_lat_bounds. Qed.

Lemma one_minus_e2 : 1 - Spec.e2 a b = b / a * (b / a).
Proof. unfold Spec.e2. ring. Qed.

Lemma N_radicand :
  Spec.N a b lat * Spec.N a b lat
  * (1 - Spec.e2 a b * (sin (Spec.rad lat) * sin (Spec.rad lat))) = a * a.
Proof.
  pose proof (radicand_pos a b lat V) as Hrad. unfold Spec.N.
  set (q := 1 - Spec.e2 a b * (sin (Spec.rad lat) * sin (Spec.rad lat))) in *.
  assert (Hs : sqrt q * sqrt q = q) by (apply sqrt_sqrt; lra).
  assert (Hs0 : sqrt q <> 0) by (apply Rgt_not_eq, sqrt_lt_R0, Hrad).
  rewrite <- Hs at 3. field. exact Hs0.
Qed.

Lemma N_ge_a : a <= Spec.N a b lat.
Proof.
  pose proof (radicand_pos a b lat V) as Hrad.
  pose proof (e2_bounds a b V) as He. pose proof (sin2_bounds (Spec.rad lat)) as Hs.
  pose proof a_pos as Ha. pose proof (N_pos a b lat V) as HN.
  pose proof N_radicand as E.
  set (q := 1 - Spec.e2 a b * (sin (Spec.rad lat) * sin (Spec.rad lat))) in *.
  assert (Hq : q <= 1) by (unfold q; nra).
  destruct (Rle_lt_dec a (Spec.N a b lat)) as [L | L]; [exact L |].
  exfalso. assert (Spec.N a b lat * Spec.N a b lat < a * a) by nra. nra.
Qed.

Lemma polar_term_pos : 0 < (1 - Spec.e2 a b) * Spec.N a b lat + h.
Proof.
  pose proof a_pos as Ha. pose proof b_pos as Hb. pose proof N_ge_a as HN.
  rewrite one_minus_e2.
  assert (Hq : 0 < b / a * (b / a)).
  { apply Rmult_lt_0_compat; now apply Rdiv_lt_0_compat. }
  assert (E : b / a * (b / a) * a = b * b / a) by (field; lra).
  nra.
Qed.

Lemma N_plus_h_pos : 0 < Spec.N a b lat + h.
Proof.
  pose proof polar_term_pos as Hp. pose proof (e2_bounds a b V) as He.
  pose proof (N_pos a b lat V) as HN. nra.
Qed.

(** The meridian-plane radius of the Cartesian point. *)
Lemma meridian_radius :
  sqrt (Spec.X a b lat lon h * Spec.X a b lat lon h
        + Spec.Y a b lat lon h * Spec.Y a b lat lon h)
  = (Spec.N a b lat + h) * cos (Spec.rad lat).
Proof.
  pose proof N_plus_h_pos as Hp. pose proof cos_lat_pos as Hc.
  unfold Spec.X, Spec.Y.
  set (rho := (Spec.N a b lat + h) * cos (Spec.rad lat)).
  assert (Hrho : 0 < rho) by (unfold rho; nra).
  pose proof (sin2_cos2 (Spec.rad lon)) as E. unfold Rsqr in E.
  replace (rho * cos (Spec.rad lon) * (rho * cos (Spec.rad lon))
           + rho * sin (Spec.rad lon) * (rho * sin (Spec.rad lon)))
    with (rho * rho) by nra.
  apply sqrt_square. lra.
Qed.

Lemma cos_lon_gt_minus_1 : - 1 < cos (Spec.rad lon).
Proof.
  pose proof half_rad_lon_bounds as Hb.
  assert (Hc : 0 < cos (Spec.rad lon / 2)) by (apply cos_gt_0; lra).
  replace (Spec.rad lon) with (2 * (Spec.rad lon / 2)) by field.
  rewrite cos_2a_cos. nra.
Qed.

Lemma half_angle_tangent :
  sin (Spec.rad lon) / (1 + cos (Spec.rad lon)) = tan (Spec.rad lon / 2).
Proof.
  pose proof half_rad_lon_bounds as Hb.
  assert (Hc : 0 < cos (Spec.rad lon / 2)) by (apply cos_gt_0; lra).
  replace (Spec.rad lon) with (2 * (Spec.rad lon / 2)) at 1 2 by field.
  rewrite sin_2a, cos_2a_cos. unfold tan. field. repeat split; nra.
Qed.

(** The half-angle formula recovers a longitude strictly between -180 and
    180 degrees. *)
Lemma longitude_recovered :
  Spec.X a b lat lon h
  + sqrt (Spec.X a b lat lon h * Spec.X a b lat lon h
          + Spec.Y a b lat lon h * Spec.Y a b lat lon h) <> 0 /\
  Spec.longitude (Spec.X a b lat lon h) (Spec.Y a b lat lon h) = lon.
Proof.
  pose proof N_plus_h_pos as Hp. pose proof cos_lat_pos as Hc.
  pose proof cos_lon_gt_minus_1 as Hl.
  unfold Spec.longitude. rewrite meridian_radius. unfold Spec.X, Spec.Y.
  set (rho := (Spec.N a b lat + h) * cos (Spec.rad lat)).
  assert (Hrho : 0 < rho) by (unfold rho; nra).
  assert (Hden : rho * cos (Spec.rad lon) + rho <> 0) by nra.
  split; [exact Hden |].
  replace (rho * sin (Spec.rad lon) / (rho * cos (Spec.rad lon) + rho))
    with (sin (Spec.rad lon) / (1 + cos (Spec.rad lon))) by (field; split; lra).
  rewrite half_angle_tangent, atan_tan by apply half_rad_lon_bounds.
  unfold Spec.deg, Spec.rad. field. apply PI_neq0.
Qed.

Lemma foot_p_pos : 0 < Spec.p_foot a b lat.
Proof.
  unfold Spec.p_foot. apply Rmult_lt_0_compat; [apply N_pos, V | apply cos_lat_pos].
Qed.

(** [step3]'s formula recovers the latitude from the foot point. *)
Lemma latitude_recovered :
  Spec.latitude (Spec.H a b) (Spec.p_foot a b lat) (Spec.z_foot a b lat) = lat.
Proof.
  pose proof a_pos as Ha. pose proof b_pos as Hb.
  pose proof (N_pos a b lat V) as HN. pose proof cos_lat_pos as Hc.
  unfold Spec.latitude, Spec.H, Spec.p_foot, Spec.z_foot. rewrite one_minus_e2.
  replace (a / b * (a / b) * (b / a * (b / a) * Spec.N a b lat * sin (Spec.rad lat))
           / (Spec.N a b lat * cos (Spec.rad lat)))
    with (tan (Spec.rad lat)) by (unfold tan; field; repeat split; lra).
  rewrite atan_tan by apply rad_lat_bounds.
  unfold Spec.deg, Spec.rad. field. apply PI_neq0.
Qed.

(** The distance from the point to its foot is [|h|]. *)
Lemma height_magnitude_recovered :
  Spec.height_magnitude (Spec.p_foot a b lat) (Spec.z_foot a b lat)
    ((Spec.N a b lat + h) * cos (Spec.rad lat)) (Spec.Z a b lat h)
  = Rabs h.
Proof.
  unfold Spec.height_magnitude, Spec.p_foot, Spec.z_foot, Spec.Z.
  pose proof (sin2_cos2 (Spec.rad lat)) as E. unfold Rsqr in E.
  set (c := cos (Spec.rad lat)) in *. set (s := sin (Spec.rad lat)) in *.
  set (n := Spec.N a b lat). set (e := Spec.e2 a b).
  replace ((n * c - (n + h) * c) * (n * c - (n + h) * c)
           + ((1 - e) * n * s - ((1 - e) * n + h) * s)
             * ((1 - e) * n * s - ((1 - e) * n + h) * s))
    with (h * h) by nra.
  rewrite <- (sqrt_Rsqr_abs h). reflexivity.
Qed.

(** The sign rule of [step3] holds for a point above the equatorial plane of
    its foot: it reports "inside" exactly for a negative height. *)
Lemma inside_iff_negative_height :
  Spec.inside (Spec.p_foot a b lat) (Spec.z_foot a b lat)
    ((Spec.N a b lat + h) * cos (Spec.rad lat)) (Spec.Z a b lat h)
  <-> h < 0.
Proof.
  pose proof polar_term_pos as Hp. pose proof cos_lat_pos as Hc.
  pose proof (N_pos a b lat V) as HN. pose proof (e2_bounds a b V) as He.
  unfold Spec.inside, Spec.p_foot, Spec.z_foot, Spec.Z.
  set (c := cos (Spec.rad lat)) in *. set (s := sin (Spec.rad lat)) in *.
  set (n := Spec.N a b lat) in *. set (e := Spec.e2 a b) in *.
  rewrite !Rabs_mult.
  rewrite (Rabs_pos_eq ((1 - e) * n + h)) by lra.
  rewrite (Rabs_pos_eq (1 - e)) by lra. rewrite (Rabs_pos_eq n) by lra.
  pose proof (Rabs_pos s) as Hs.
  split; intros Hi; nra.
Qed.

(** The foot point solves the system handed to the solver. *)
Lemma foot_is_root :
  Spec.f1 (Spec.G a b) (Spec.H a b)
    ((Spec.N a b lat + h) * cos (Spec.rad lat)) (Spec.Z a b lat h)
    (Spec.p_foot a b lat) (Spec.z_foot a b lat) = 0 /\
  Spec.f2 (Spec.G a b) (Spec.H a b) (Spec.K a b)
    (Spec.p_foot a b lat) (Spec.z_foot a b lat) = 0.
Proof.
  pose proof a_pos as Ha. pose proof b_pos as Hb.
  pose proof N_radicand as E.
  pose proof (sin2_cos2 (Spec.rad lat)) as T. unfold Rsqr in T.
  unfold Spec.f1, Spec.f2, Spec.G, Spec.H, Spec.K, Spec.p_foot, Spec.z_foot, Spec.Z.
  rewrite one_minus_e2. unfold Spec.e2 in E.
  set (c := cos (Spec.rad lat)) in *. set (s := sin (Spec.rad lat)) in *.
  set (n := Spec.N a b lat) in *.
  split; [field; lra |].
  assert (E' : n * n * (c * c + b / a * (b / a) * (s * s)) = a * a).
  { rewrite <- E. replace (c * c) with (1 - s * s) by lra. ring. }
  replace (b / a * (n * c * (n * c))
           + a / b * (b / a * (b / a) * n * s * (b / a * (b / a) * n * s)) - a * b)
    with (b / a * (n * n * (c * c + b / a * (b / a) * (s * s))) - a * b)
    by (field; lra).
  rewrite E'. field. lra.
Qed.

(** The orthogonality condition, cleared of the denominators of G and H. *)
Lemma orthogonality_cleared (pG zG p z : R) :
  Spec.f1 (Spec.G a b) (Spec.H a b) pG zG p z = 0 ->
  b / a * (b / a) * zG * p = z * (pG - Spec.e2 a b * p).
Proof.
  pose proof a_pos as Ha. pose proof b_pos as Hb.
  unfold Spec.f1, Spec.G, Spec.H, Spec.e2. intros E.
  assert (Eq : a / b * (b / a) = 1) by (field; lra).
  set (q := b / a) in *. set (k := a / b) in *.
  apply Rminus_diag_uniq.
  replace (q * q * zG * p - z * (pG - (1 - q * q) * p))
    with (q * ((p - pG) * k * z - (z - zG) * q * p) - (k * q - 1) * ((p - pG) * z))
    by ring.
  rewrite E, Eq. ring.
Qed.

Lemma on_ellipse_cleared (p z : R) :
  Spec.f2 (Spec.G a b) (Spec.H a b) (Spec.K a b) p z = 0 ->
  b / a * (p * p) + a / b * (z * z) = a * b.
Proof. unfold Spec.f2, Spec.G, Spec.H, Spec.K. lra. Qed.

(** On the equatorial plane the point is at distance [a + h] of the axis. *)
Lemma equatorial_point :
  Spec.Z a b lat h = 0 ->
  (Spec.N a b lat + h) * cos (Spec.rad lat) = a + h.
Proof.
  pose proof polar_term_pos as Hp. pose proof cos_lat_pos as Hc.
  pose proof a_pos as Ha. pose proof (N_pos a b lat V) as HN.
  pose proof N_radicand as E.
  pose proof (sin2_cos2 (Spec.rad lat)) as T. unfold Rsqr in T.
  unfold Spec.Z. intros EZ.
  assert (Es : sin (Spec.rad lat) = 0).
  { destruct (Rmult_integral _ _ EZ) as [F | F]; [lra | exact F]. }
  rewrite Es in E, T.
  assert (Ec : cos (Spec.rad lat) = 1) by nra.
  assert (En : Spec.N a b lat = a) by nra.
  rewrite Ec, En. ring.
Qed.

(** A root of the system on the side of the point ([p > 0], [z] not of the
    sign opposite to [z_G]) is the foot of the normal. *)
Lemma root_in_quadrant_is_foot (p z : R) :
  Spec.f1 (Spec.G a b) (Spec.H a b)
    ((Spec.N a b lat + h) * cos (Spec.rad lat)) (Spec.Z a b lat h) p z = 0 ->
  Spec.f2 (Spec.G a b) (Spec.H a b) (Spec.K a b) p z = 0 ->
  0 < p -> 0 <= z * Spec.Z a b lat h ->
  p = Spec.p_foot a b lat /\ z = Spec.z_foot a b lat.
Proof.
  intros F1 F2 Hp Hz.
  pose proof a_pos as Ha. pose proof b_pos as Hb.
  pose proof (ratio_bounds a b V) as Hq. pose proof (e2_bounds a b V) as He.
  pose proof polar_term_pos as Hpt. pose proof cos_lat_pos as Hc.
  pose proof (N_pos a b lat V) as HN. pose proof foot_p_pos as Hp0.
  destruct foot_is_root as [G1 G2].
  pose proof (orthogonality_cleared _ _ _ _ F1) as S.
  pose proof (orthogonality_cleared _ _ _ _ G1) as S0.
  pose proof (on_ellipse_cleared _ _ F2) as K1.
  pose proof (on_ellipse_cleared _ _ G2) as K0.
  assert (HH : 0 < a / b) by (now apply Rdiv_lt_0_compat).
  set (pG := (Spec.N a b lat + h) * cos (Spec.rad lat)) in *.
  set (zG := Spec.Z a b lat h) in *.
  assert (D0 : 0 < pG - Spec.e2 a b * Spec.p_foot a b lat).
  { unfold pG, Spec.p_foot. nra. }
  assert (D : 0 < pG - Spec.e2 a b * p).
  { destruct (Req_dec_T zG 0) as [Ez | Ez].
    - assert (EpG : pG = a + h) by (apply equatorial_point; exact Ez).
      assert (Hpa : p <= a).
      { assert (b / a * (p * p) <= a * b) by nra.
        assert (Eab : b / a * (a * a) = a * b) by (field; lra).
        destruct (Rle_lt_dec p a) as [L | L]; [exact L | exfalso].
        assert (Hsq : a * a < p * p) by nra.
        pose proof (Rmult_lt_compat_l (b / a) _ _ (proj1 Hq) Hsq). lra. }
      assert (Ee : Spec.e2 a b * a = a - b * b / a) by (unfold Spec.e2; field; lra).
      nra.
    - assert (Hpos : 0 < b / a * (b / a) * (zG * zG) * p).
      { pose proof (Rsqr_pos_lt zG Ez) as Hs. unfold Rsqr in Hs.
        assert (Hq2 : 0 < b / a * (b / a)) by (apply Rmult_lt_0_compat; lra).
        apply Rmult_lt_0_compat; [apply Rmult_lt_0_compat |]; assumption. }
      assert (Em : b / a * (b / a) * (zG * zG) * p = (z * zG) * (pG - Spec.e2 a b * p)).
      { replace ((z * zG) * (pG - Spec.e2 a b * p))
          with ((z * (pG - Spec.e2 a b * p)) * zG) by ring.
        rewrite <- S. ring. }
      destruct (Rle_lt_dec (pG - Spec.e2 a b * p) 0) as [L | L]; [exfalso | exact L].
      nra. }
  apply (roots_coincide (b / a) (a / b) (Spec.e2 a b) pG (b / a * (b / a) * zG) (a * b));
    assumption || lra.
Qed.

(** The foot itself is on the side of the point. *)
Lemma foot_same_side : 0 <= Spec.z_foot a b lat * Spec.Z a b lat h.
Proof.
  pose proof polar_term_pos as Hpt. pose proof (e2_bounds a b V) as He.
  pose proof (N_pos a b lat V) as HN.
  unfold Spec.z_foot, Spec.Z.
  set (s := sin (Spec.rad lat)). set (m := (1 - Spec.e2 a b) * Spec.N a b lat) in *.
  assert (0 <= m) by (unfold m; nra).
  replace (m * s * ((m + h) * s)) with ((m * (m + h)) * (s * s)) by ring.
  apply Rmult_le_pos; nra.
Qed.

End RoundTrip.

(** ** The round trip, on the program *)

(** The longitude of a finite point off the closed negative x-axis. *)
Lemma lambda_2_finite x y vx vy :
  real x vx -> real y vy ->
  vx + sqrt (vx * vx + vy * vy) <> 0 ->
  real (lambda_2_value x y) (Spec.longitude vx vy).
Proof.
  intros rx ry Hden. unfold lambda_2_value, Spec.longitude, Spec.deg.
  apply real_mul; [| apply real_deg_factor].
  apply real_mul; [apply real_PyInt |].
  apply real_arctan, real_quot; [assumption | | assumption].
  apply real_add; [assumption |].
  apply real_sqrt; [auto with finite | apply sum_squares_nonneg].
Qed.

(** [llhxyz] returns NumPy scalars. *)
Lemma llhxyz_Np lat long h a b x y z :
  llhxyz lat long h a b = Ok (x, y, z) ->
  exists fx fy fz, x = Np fx /\ y = Np fy /\ z = Np fz.
Proof.
  unfold llhxyz. rewrite rad_factor_ok. cbn [rbind].
  unfold ndiv at 1. destruct (raises_zero_division b a); [discriminate |].
  cbn [rbind]. rewrite ndiv_by_sqrt. cbn [rbind].
  intros E. injection E as <- <- <-.
  unfold nmul, np_cos, np_sin. rewrite !arith_Np_r.
  eexists _, _, _. repeat split; reflexivity.
Qed.

(** A height with the magnitude and the sign of [h] is [h]. *)
Lemma signed_height_unique (v h : R) :
  Rabs v = Rabs h -> (v < 0 <-> h < 0) -> v = h.
Proof.
  unfold Rabs. destruct (Rcase_abs v), (Rcase_abs h); intros E [S1 S2]; lra.
Qed.

(** ** Values of the forward formulas on the equator *)

Lemma rad_0 : Spec.rad 0 = 0.
Proof. unfold Spec.rad. ring. Qed.

Lemma N_equator (a b : R) : Spec.N a b 0 = a.
Proof.
  unfold Spec.N. rewrite rad_0, sin_0.
  replace (1 - Spec.e2 a b * (0 * 0)) with 1 by ring. rewrite sqrt_1. field.
Qed.

Lemma forward_on_equator (a b lon h : R) :
  Spec.X a b 0 lon h = (a + h) * cos (Spec.rad lon) /\
  Spec.Y a b 0 lon h = (a + h) * sin (Spec.rad lon) /\
  Spec.Z a b 0 h = 0.
Proof.
  unfold Spec.X, Spec.Y, Spec.Z. rewrite N_equator, rad_0, sin_0, cos_0.
  repeat split; ring.
Qed.

Lemma forward_at_origin_of_angles (a b : R) :
  Spec.X a b 0 0 0 = a /\ Spec.Y a b 0 0 0 = 0 /\ Spec.Z a b 0 0 = 0.
Proof.
  destruct (forward_on_equator a b 0 0) as (EX & EY & EZ).
  rewrite EX, EY, EZ, rad_0, sin_0, cos_0. repeat split; ring.
Qed.

Lemma rad_270 : Spec.rad 270 = 3 * (PI / 2).
Proof. unfold Spec.rad. field. Qed.

Lemma forward_at_longitude_270 (a b : R) :
  Spec.X a b 0 270 0 = 0 /\ Spec.Y a b 0 270 0 = - a /\ Spec.Z a b 0 0 = 0.
Proof.
  destruct (forward_on_equator a b 270 0) as (EX & EY & EZ).
  rewrite EX, EY, EZ, rad_270, cos_3PI2, sin_3PI2. repeat split; ring.
Qed.

(** On the negative y-axis the half-angle formula gives -90 degrees. *)
Lemma longitude_negative_y_axis (a : R) :
  0 < a ->
  0 + sqrt (0 * 0 + - a * - a) <> 0 /\ Spec.longitude 0 (- a) = - 90.
Proof.
  intros Ha.
  assert (Es : sqrt (0 * 0 + - a * - a) = a).
  { replace (0 * 0 + - a * - a) with (a * a) by ring. apply sqrt_square. lra. }
  unfold Spec.longitude. rewrite Es. split; [lra |].
  replace (- a / (0 + a)) with (- 1) by (field; lra).
  replace (- 1) with (- (1)) by ring. rewrite atan_opp, atan_1.
  unfold Spec.deg. field. apply PI_neq0.
Qed.

(** The round trip in exact arithmetic. *)
Lemma round_trip_exact (lat long h a b : num) (vlat vlon vh va vb : R) :
  real lat vlat -> real long vlon -> real h vh -> real a va -> real b vb ->
  Spec.valid_ellipsoid va vb ->
  - 90 < vlat < 90 -> - 180 < vlon < 180 -> - (vb * vb / va) < vh ->
  exists x y z,
    llhxyz lat long h a b = Ok (x, y, z) /\
    real (p_G_value x y) (Spec.P va vb vlat vh) /\
    real z (Spec.Z va vb vlat vh) /\
    (Spec.f1 (Spec.G va vb) (Spec.H va vb) (Spec.P va vb vlat vh) (Spec.Z va vb vlat vh)
       (Spec.p_foot va vb vlat) (Spec.z_foot va vb vlat) = 0 /\
     Spec.f2 (Spec.G va vb) (Spec.H va vb) (Spec.K va vb)
       (Spec.p_foot va vb vlat) (Spec.z_foot va vb vlat) = 0 /\
     0 < Spec.p_foot va vb vlat /\
     0 <= Spec.z_foot va vb vlat * Spec.Z va vb vlat vh) /\
    forall (solver : root_finder) (trace : bool) (method : string) (w : world)
           (pE zE : R),
      to_R (fst (OptimizeResult.x (solve solver x y z a b method))) = Some pE ->
      to_R (snd (OptimizeResult.x (solve solver x y z a b method))) = Some zE ->
      Spec.f1 (Spec.G va vb) (Spec.H va vb) (Spec.P va vb vlat vh) (Spec.Z va vb vlat vh)
        pE zE = 0 ->
      Spec.f2 (Spec.G va vb) (Spec.H va vb) (Spec.K va vb) pE zE = 0 ->
      0 < pE -> 0 <= zE * Spec.Z va vb vlat vh ->
      exists phi lam hh n w',
        xyzllh solver x y z a b trace method w = (Ok (phi, lam, hh, n), w') /\
        real phi vlat /\ real lam vlon /\ real hh vh.
Proof.
  intros rlat rlon rh ra rb V Hlat Hlon Hh.
  destruct (llhxyz_finite lat long h a b vlat vlon vh va vb rlat rlon rh ra rb V)
    as (x & y & z & E & rx & ry & rz).
  destruct (llhxyz_Np _ _ _ _ _ _ _ _ E) as (fx & fy & fz & Ex & Ey & Ez).
  pose proof (real_p_G x y _ _ rx ry) as rp.
  rewrite (meridian_radius va vb vlat vlon vh V Hlat Hh) in rp.
  fold (Spec.P va vb vlat vh) in rp.
  exists x, y, z. split; [exact E |]. split; [exact rp |]. split; [exact rz |]. split.
  { destruct (foot_is_root va vb vlat vh V) as [F1 F2].
    repeat split; [exact F1 | exact F2 | apply (foot_p_pos va vb vlat V Hlat) |
                   apply (foot_same_side va vb vlat vh V Hh)]. }
  intros solver trace method w pE zE Hp Hz F1 F2 HpE Hside.
  destruct (root_in_quadrant_is_foot va vb vlat vh V Hlat Hh pE zE F1 F2 HpE Hside)
    as [-> ->].
  assert (Hyx : raises_zero_division y x = false) by (rewrite Ex; apply raises_Np_r).
  assert (Ha : va <> 0) by (destruct V; lra).
  assert (Hb : vb <> 0) by (destruct V; lra).
  rewrite (xyzllh_run solver x y z a b trace method w Hyx
             (no_raise_nonzero b a va ra Ha) (no_raise_nonzero a b vb rb Hb)).
  set (root := OptimizeResult.x (solve solver x y z a b method)) in *.
  destruct (step3_finite (arith fdiv a b) (Np (fst root)) (Np (snd root)) (p_G_value x y) z
              (Spec.H va vb) (Spec.p_foot va vb vlat) (Spec.z_foot va vb vlat)
              (Spec.P va vb vlat vh) (Spec.Z va vb vlat vh))
    as (phi & hh & vhh & E3 & rphi & rhh & Hmag & Hsign);
    try assumption.
  { now apply real_quot. }
  { apply Rgt_not_eq, (foot_p_pos va vb vlat V Hlat). }
  rewrite step3_Np in E3.
  assert (E3' : step3_value (arith fdiv a b) (Np (fst root)) (Np (snd root)) (p_G_value x y) z
                = (phi, hh)) by congruence.
  rewrite E3'.
  eexists _, _, _, _, _. split; [reflexivity |]. cbn [fst snd].
  split; [| split].
  - now rewrite (latitude_recovered va vb vlat V Hlat) in rphi.
  - destruct (longitude_recovered va vb vlat vlon vh V Hlat Hlon Hh) as [Hden Hlam].
    rewrite <- Hlam. now apply lambda_2_finite.
  - unfold Spec.P in Hmag, Hsign.
    rewrite (height_magnitude_recovered va vb vlat vh) in Hmag.
    rewrite (inside_iff_negative_height va vb vlat vh V Hlat Hh) in Hsign.
    assert (Ev : vhh = vh).
    { apply signed_height_unique; [exact Hmag | exact Hsign]. }
    now rewrite <- Ev.
Qed.


(** The equatorial surface point of the specification: (lat, lon, h) =
    (0, 0, 0) on the default ellipsoid goes to (6378, 0, 0), the starting
    point of the solver is already the projection, and a solver that stays
    there gives back (0, 0, 0). *)
Lemma start_on_equator (a b : R) :
  0 < a ->
  Spec.p_start a (sqrt (a * a + 0 * 0)) 0 = a /\
  Spec.z_start b (sqrt (a * a + 0 * 0)) 0 = 0.
Proof.
  intros Ha.
  assert (Es : sqrt (a * a + 0 * 0) = a).
  { replace (a * a + 0 * 0) with (a * a) by ring. apply sqrt_square. lra. }
  unfold Spec.p_start, Spec.z_start, Spec.r. rewrite Es, Es. split; [| ring].
  field. lra.
Qed.

Lemma foot_on_equator (a b : R) :
  Spec.p_foot a b 0 = a /\ Spec.z_foot a b 0 = 0.
Proof.
  unfold Spec.p_foot, Spec.z_foot. rewrite N_equator, rad_0, sin_0, cos_0. split; ring.
Qed.

Lemma round_trip_equator :
  exists x y z,
    llhxyz (PyInt 0) (PyInt 0) (PyInt 0) default_a default_b = Ok (x, y, z) /\
    exists phi lam hh n w',
      xyzllh (stay_solver true) x y z default_a default_b false default_method (World 0 [])
      = (Ok (phi, lam, hh, n), w') /\
      real phi 0 /\ real lam 0 /\ real hh 0.
Proof.
  assert (V : Spec.valid_ellipsoid 6378 6356) by (unfold Spec.valid_ellipsoid; lra).
  destruct (round_trip_exact (PyInt 0) (PyInt 0) (PyInt 0) default_a default_b
              0 0 0 6378 6356) as (x & y & z & E & _ & _ & (F1 & F2 & Fp0 & Fside) & RT);
    try reflexivity; try assumption; try lra.
  destruct (llhxyz_finite (PyInt 0) (PyInt 0) (PyInt 0) default_a default_b
              0 0 0 6378 6356) as (x' & y' & z' & E' & rx & ry & rz);
    try reflexivity; try assumption.
  rewrite E in E'. injection E' as <- <- <-.
  destruct (forward_at_origin_of_angles 6378 6356) as (EX & EY & EZ).
  rewrite EX in rx. rewrite EY in ry. rewrite EZ in rz.
  exists x, y, z. split; [exact E |].
  destruct (start_finite x y z default_a default_b 6378 0 0 6378 6356)
    as [Sp Sz]; try assumption; try reflexivity; [left; lra |].
  destruct (start_on_equator 6378 6356) as [Ep Ez]; [lra |].
  destruct (foot_on_equator 6378 6356) as [Fp Fz].
  apply (RT _ _ _ _ (Spec.p_foot 6378 6356 0) (Spec.z_foot 6378 6356 0));
    try assumption; cbn [stay_solver solve OptimizeResult.x].
  - rewrite Sp. f_equal. lra.
  - rewrite Sz. f_equal. lra.
Qed.

(** The conditions of the round trip cannot be dropped. *)

Lemma real_zero_is_zero n : real n 0 -> is_zero (val n) = true.
Proof. intros H. rewrite (is_zero_finite _ _ H). now apply Req_b_true. Qed.

(** A height below [-N]: the point (lat, lon, h) = (0, 0, -12756) is the
    point (-6378, 0, 0) of the negative x-axis, and its longitude comes back
    as NaN. *)
Lemma round_trip_fails_through_the_axis :
  exists x y z,
    llhxyz (PyInt 0) (PyInt 0) (PyInt (- 12756)) default_a default_b = Ok (x, y, z) /\
    real x (- 6378) /\ real y 0 /\
    forall (solver : root_finder) (trace : bool) (method : string) (w : world),
    exists phi lam hh n w',
      xyzllh solver x y z default_a default_b trace method w
      = (Ok (phi, lam, hh, n), w') /\
      val lam = NaN.
Proof.
  destruct (llhxyz_finite (PyInt 0) (PyInt 0) (PyInt (- 12756)) default_a default_b
              0 0 (- 12756) 6378 6356) as (x & y & z & E & rx & ry & rz);
    try reflexivity; [unfold Spec.valid_ellipsoid; lra |].
  destruct (forward_on_equator 6378 6356 0 (- 12756)) as (EX & EY & EZ).
  rewrite EX, rad_0, cos_0 in rx. rewrite EY, rad_0, sin_0 in ry.
  assert (rx' : real x (- 6378)) by (apply (real_eq _ _ _ rx); lra).
  assert (ry' : real y 0) by (apply (real_eq _ _ _ ry); lra).
  destruct (llhxyz_Np _ _ _ _ _ _ _ _ E) as (fx & fy & fz & Ex & Ey & Ez).
  exists x, y, z. repeat (split; [assumption |]).
  intros solver trace method w.
  rewrite xyzllh_run; [| rewrite Ex; apply raises_Np_r | apply Req_b_false; lra ..].
  eexists _, _, _, _, _. split; [reflexivity |].
  apply (lambda_2_nan x y (- 6378)); [assumption | lra | now apply real_zero_is_zero].
Qed.

(** Another root of the system, with [p_E < 0]: for the point (6378, 0, 0) of
    the equator the antipodal point (-6378, 0) of the ellipse solves both
    equations, and a solver that returns it makes [xyzllh] report the height
    12756 instead of 0. *)
Lemma round_trip_fails_at_another_root :
  Spec.f1 (Spec.G 6378 6356) (Spec.H 6378 6356) 6378 0 (- 6378) 0 = 0 /\
  Spec.f2 (Spec.G 6378 6356) (Spec.H 6378 6356) (Spec.K 6378 6356) (- 6378) 0 = 0 /\
  exists phi lam hh n w',
    xyzllh antipodal_solver (Np (Fin 6378)) (Np (Fin 0)) (Np (Fin 0))
      default_a default_b false default_method (World 0 [])
    = (Ok (phi, lam, hh, n), w') /\
    real hh 12756.
Proof.
  split; [unfold Spec.f1, Spec.G, Spec.H; field; lra |].
  split; [unfold Spec.f2, Spec.G, Spec.H, Spec.K; field; lra |].
  rewrite xyzllh_run; try reflexivity; try (apply Req_b_false; lra).
  cbn [antipodal_solver solve OptimizeResult.x fst snd].
  assert (Es : sqrt (6378 * 6378 + 0 * 0) = 6378).
  { replace (6378 * 6378 + 0 * 0) with (6378 * 6378) by ring. apply sqrt_square. lra. }
  destruct (step3_finite (arith fdiv default_a default_b) (Np (Fin (- 6378))) (Np (Fin 0))
              (p_G_value (Np (Fin 6378)) (Np (Fin 0))) (Np (Fin 0))
              (6378 / 6356) (- 6378) 0 6378 0)
    as (phi & hh & vhh & E3 & rphi & rhh & Hmag & Hsign); try reflexivity; try lra.
  { apply real_quot; [reflexivity | reflexivity | lra]. }
  { apply (real_eq _ (sqrt (6378 * 6378 + 0 * 0))); [apply real_p_G; reflexivity | exact Es]. }
  rewrite step3_Np in E3.
  assert (E3' : step3_value (arith fdiv default_a default_b) (Np (Fin (- 6378))) (Np (Fin 0))
                  (p_G_value (Np (Fin 6378)) (Np (Fin 0))) (Np (Fin 0)) = (phi, hh))
    by congruence.
  rewrite E3'. eexists _, _, _, _, _. split; [reflexivity |]. cbn [snd].
  assert (Em : Spec.height_magnitude (- 6378) 0 6378 0 = 12756).
  { unfold Spec.height_magnitude.
    replace ((- 6378 - 6378) * (- 6378 - 6378) + (0 - 0) * (0 - 0)) with (12756 * 12756)
      by ring.
    apply sqrt_square. lra. }
  rewrite Em in Hmag.
  assert (Hout : ~ Spec.inside (- 6378) 0 6378 0).
  { unfold Spec.inside. rewrite Rabs_R0. lra. }
  assert (Ev : vhh = 12756).
  { unfold Rabs in Hmag. destruct (Rcase_abs vhh) as [L | L]; [| lra].
    exfalso. apply Hout, Hsign, L. }
  now rewrite <- Ev.
Qed.


(** ** Stability of [step3] near the projection

    A solver does not return the projection exactly.  The latitude and the
    height that [step3] recovers from a point close to the projection differ
    from those of the projection by at most a multiple of the distance. *)

Lemma norm_le_sum (u v : R) : sqrt (u * u + v * v) <= Rabs u + Rabs v.
Proof.
  pose proof (Rabs_pos u) as Hu. pose proof (Rabs_pos v) as Hv.
  rewrite <- (sqrt_square (Rabs u + Rabs v)) by lra.
  apply sqrt_le_1_alt.
  assert (Eu : Rabs u * Rabs u = u * u).
  { rewrite <- Rabs_mult. apply Rabs_pos_eq. nra. }
  assert (Ev : Rabs v * Rabs v = v * v).
  { rewrite <- Rabs_mult. apply Rabs_pos_eq. nra. }
  nra.
Qed.

Lemma cauchy_schwarz (u1 u2 v1 v2 : R) :
  u1 * v1 + u2 * v2 <= sqrt (u1 * u1 + u2 * u2) * sqrt (v1 * v1 + v2 * v2).
Proof.
  pose proof (sqrt_pos (u1 * u1 + u2 * u2)) as HA.
  pose proof (sqrt_pos (v1 * v1 + v2 * v2)) as HB.
  pose proof (sqrt_sqrt _ (sum_squares_nonneg u1 u2)) as EA.
  pose proof (sqrt_sqrt _ (sum_squares_nonneg v1 v2)) as EB.
  set (A := sqrt (u1 * u1 + u2 * u2)) in *.
  set (B := sqrt (v1 * v1 + v2 * v2)) in *.
  destruct (Rle_lt_dec (u1 * v1 + u2 * v2) (A * B)) as [L | L]; [exact L | exfalso].
  assert (HAB : 0 <= A * B) by (apply Rmult_le_pos; lra).
  assert (Hlt : (A * B) * (A * B) < (u1 * v1 + u2 * v2) * (u1 * v1 + u2 * v2))
    by (apply Rmult_le_0_lt_compat; lra).
  assert (Heq : (A * B) * (A * B) = (u1 * u1 + u2 * u2) * (v1 * v1 + v2 * v2)).
  { rewrite <- EA, <- EB. ring. }
  pose proof (Rle_0_sqr (u1 * v2 - u2 * v1)) as Q. unfold Rsqr in Q. nra.
Qed.

Lemma norm_triangle (u1 u2 v1 v2 : R) :
  sqrt ((u1 + v1) * (u1 + v1) + (u2 + v2) * (u2 + v2))
  <= sqrt (u1 * u1 + u2 * u2) + sqrt (v1 * v1 + v2 * v2).
Proof.
  pose proof (cauchy_schwarz u1 u2 v1 v2) as CS.
  pose proof (sqrt_pos (u1 * u1 + u2 * u2)) as HA.
  pose proof (sqrt_pos (v1 * v1 + v2 * v2)) as HB.
  pose proof (sqrt_sqrt _ (sum_squares_nonneg u1 u2)) as EA.
  pose proof (sqrt_sqrt _ (sum_squares_nonneg v1 v2)) as EB.
  set (A := sqrt (u1 * u1 + u2 * u2)) in *.
  set (B := sqrt (v1 * v1 + v2 * v2)) in *.
  rewrite <- (sqrt_square (A + B)) by lra.
  apply sqrt_le_1_alt. nra.
Qed.

(** The distance to a fixed point changes by at most the displacement. *)
Lemma height_magnitude_stable (pE zE pF zF pG zG : R) :
  Rabs (Spec.height_magnitude pE zE pG zG - Spec.height_magnitude pF zF pG zG)
  <= Rabs (pE - pF) + Rabs (zE - zF).
Proof.
  unfold Spec.height_magnitude.
  pose proof (norm_triangle (pE - pF) (zE - zF) (pF - pG) (zF - zG)) as T1.
  pose proof (norm_triangle (pF - pE) (zF - zE) (pE - pG) (zE - zG)) as T2.
  pose proof (norm_le_sum (pE - pF) (zE - zF)) as S1.
  pose proof (norm_le_sum (pF - pE) (zF - zE)) as S2.
  replace (pE - pF + (pF - pG)) with (pE - pG) in T1 by ring.
  replace (zE - zF + (zF - zG)) with (zE - zG) in T1 by ring.
  replace (pF - pE + (pE - pG)) with (pF - pG) in T2 by ring.
  replace (zF - zE + (zE - zG)) with (zF - zG) in T2 by ring.
  rewrite (Rabs_minus_sym pF pE), (Rabs_minus_sym zF zE) in S2.
  apply Rabs_le. lra.
Qed.

Lemma side_sum_stable (pE zE pF zF : R) :
  Rabs ((pE + Rabs zE) - (pF + Rabs zF)) <= Rabs (pE - pF) + Rabs (zE - zF).
Proof.
  replace (pE + Rabs zE - (pF + Rabs zF)) with ((pE - pF) + (Rabs zE - Rabs zF)) by ring.
  pose proof (Rabs_triang (pE - pF) (Rabs zE - Rabs zF)).
  pose proof (Rabs_triang_inv2 zE zF). lra.
Qed.

Lemma Rabs_lt_bounds (x d : R) : Rabs x < d -> - d < x < d.
Proof. unfold Rabs. destruct (Rcase_abs x); lra. Qed.

(** The signed height of [step3] changes by at most twice the displacement
    around a point [(pF, zF)] with height [hF], as long as the displacement
    does not reach the margin of the sign test. *)
Lemma signed_height_lipschitz (pF zF pG zG hF pE zE hE d : R) :
  Rabs hF = Spec.height_magnitude pF zF pG zG ->
  (hF < 0 <-> Spec.inside pF zF pG zG) ->
  (0 < hF -> pF + Rabs zF < pG + Rabs zG) ->
  Rabs (pE - pF) <= d -> Rabs (zE - zF) <= d ->
  hF = 0 \/ 2 * d < Rabs ((pG + Rabs zG) - (pF + Rabs zF)) ->
  Rabs hE = Spec.height_magnitude pE zE pG zG ->
  (hE < 0 <-> Spec.inside pE zE pG zG) ->
  Rabs (hE - hF) <= 2 * d.
Proof.
  intros Hmag Hsign Hout Dp Dz Hmargin HmagE HsignE. unfold Spec.inside in *.
  pose proof (height_magnitude_stable pE zE pF zF pG zG) as S.
  rewrite <- Hmag, <- HmagE in S.
  pose proof (side_sum_stable pE zE pF zF) as T.
  assert (S' : - (2 * d) <= Rabs hE - Rabs hF <= 2 * d).
  { assert (B : Rabs (Rabs hE - Rabs hF) <= 2 * d) by lra.
    revert B. unfold Rabs at 1. destruct (Rcase_abs (Rabs hE - Rabs hF)); lra. }
  destruct (Req_dec hF 0) as [H0 | Hn0].
  - rewrite H0, Rabs_R0 in S'. rewrite H0.
    replace (hE - 0) with hE by ring. lra.
  - destruct Hmargin as [H0 | Hm]; [contradiction |].
    set (m := Rabs ((pG + Rabs zG) - (pF + Rabs zF))) in *.
    assert (T' : - m < (pE + Rabs zE) - (pF + Rabs zF) < m).
    { apply Rabs_lt_bounds. lra. }
    destruct (Rtotal_order hF 0) as [L | [E | G]]; [| contradiction |].
    + assert (Hin : pG + Rabs zG < pF + Rabs zF) by (now apply Hsign).
      assert (Em : m = (pF + Rabs zF) - (pG + Rabs zG)).
      { unfold m. rewrite Rabs_left; lra. }
      assert (LE : hE < 0) by (apply HsignE; lra).
      rewrite (Rabs_left hE LE), (Rabs_left hF L) in S'.
      apply Rabs_le. lra.
    + assert (Hin : pF + Rabs zF < pG + Rabs zG) by (now apply Hout).
      assert (Em : m = (pG + Rabs zG) - (pF + Rabs zF)).
      { unfold m. rewrite Rabs_pos_eq; lra. }
      assert (GE : 0 <= hE).
      { destruct (Rle_lt_dec 0 hE) as [Q | Q]; [exact Q | exfalso].
        apply HsignE in Q. lra. }
      rewrite (Rabs_pos_eq hE GE), (Rabs_pos_eq hF) in S' by lra.
      apply Rabs_le. lra.
Qed.

(** The arctangent does not increase distances. *)
Lemma atan_lipschitz (u v : R) : Rabs (atan u - atan v) <= Rabs (u - v).
Proof.
  assert (Hlt : forall a b, a < b -> Rabs (atan b - atan a) <= Rabs (b - a)).
  { intros a b Hab.
    destruct (MVT_cor2 atan (fun x => / (1 + x ^ 2)) a b Hab) as (c & Ec & _).
    { intros c _. apply derivable_pt_lim_atan. }
    rewrite Ec, Rabs_mult.
    assert (Hc : 0 < / (1 + c ^ 2) <= 1).
    { pose proof (pow2_ge_0 c) as Q. split; [apply Rinv_0_lt_compat; lra |].
      apply (Rmult_le_reg_l (1 + c ^ 2)); [lra |].
      rewrite Rinv_r by lra. lra. }
    rewrite (Rabs_pos_eq (/ (1 + c ^ 2))) by lra.
    pose proof (Rabs_pos (b - a)). nra. }
  destruct (Rtotal_order u v) as [L | [-> | G]].
  - rewrite (Rabs_minus_sym (atan u)), (Rabs_minus_sym u). now apply Hlt.
  - replace (atan v - atan v) with 0 by ring. rewrite Rabs_R0. apply Rabs_pos.
  - now apply Hlt.
Qed.

(** The latitude of [step3] around a point with [p > 0]: the error is at
    most a multiple of the displacement. *)
Lemma latitude_lipschitz (H pF zF pE zE d : R) :
  0 < pF ->
  Rabs (pE - pF) <= d -> Rabs (zE - zF) <= d -> d < pF / 2 ->
  0 < pE /\
  Rabs (Spec.latitude H pE zE - Spec.latitude H pF zF)
  <= 180 / PI * (H * H * (pF + Rabs zF) * 2 / (pF * pF)) * d.
Proof.
  intros HpF Dp Dz Hd.
  pose proof PI_RGT_0 as Hpi.
  assert (Bp : - d <= pE - pF <= d).
  { revert Dp. unfold Rabs. destruct (Rcase_abs (pE - pF)); lra. }
  assert (HpE : 0 < pE) by lra.
  split; [exact HpE |].
  pose proof (Rabs_pos zF) as HzF.
  pose proof (Rabs_pos (zE - zF)) as HdZ. pose proof (Rabs_pos (pE - pF)) as HdP.
  assert (Hclose : Rabs (H * H * zE / pE - H * H * zF / pF)
                   <= H * H * (pF + Rabs zF) * 2 / (pF * pF) * d).
  { replace (H * H * zE / pE - H * H * zF / pF)
      with (H * H * ((zE - zF) * pF - zF * (pE - pF)) * / (pE * pF)) by (field; lra).
    assert (Hnum : Rabs ((zE - zF) * pF - zF * (pE - pF)) <= d * (pF + Rabs zF)).
    { eapply Rle_trans; [apply Rabs_triang |].
      rewrite Rabs_Ropp, !Rabs_mult, (Rabs_pos_eq pF) by lra.
      nra. }
    assert (Hinv : 0 < / (pE * pF) <= 2 / (pF * pF)).
    { split; [apply Rinv_0_lt_compat; nra |].
      apply (Rmult_le_reg_r (pE * pF)); [nra |].
      rewrite Rinv_l by (apply Rgt_not_eq; nra).
      replace (2 / (pF * pF) * (pE * pF)) with (2 * pE / pF) by (field; lra).
      apply (Rmult_le_reg_r pF); [lra |].
      replace (2 * pE / pF * pF) with (2 * pE) by (field; lra). lra. }
    do 2 rewrite Rabs_mult.
    rewrite (Rabs_pos_eq (/ (pE * pF))) by lra.
    rewrite (Rabs_pos_eq (H * H)) by nra.
    replace (H * H * (pF + Rabs zF) * 2 / (pF * pF) * d)
      with (H * H * (d * (pF + Rabs zF)) * (2 / (pF * pF))) by (field; lra).
    pose proof (Rabs_pos ((zE - zF) * pF - zF * (pE - pF))).
    assert (0 <= H * H) by nra.
    apply Rmult_le_compat; [| lra | | lra].
    - apply Rmult_le_pos; lra.
    - apply Rmult_le_compat_l; lra. }
  unfold Spec.latitude, Spec.deg.
  replace (atan (H * H * zE / pE) * (180 / PI) - atan (H * H * zF / pF) * (180 / PI))
    with ((atan (H * H * zE / pE) - atan (H * H * zF / pF)) * (180 / PI)) by ring.
  assert (Hk : 0 < 180 / PI) by (apply Rdiv_lt_0_compat; lra).
  rewrite Rabs_mult, (Rabs_pos_eq (180 / PI)) by lra.
  pose proof (atan_lipschitz (H * H * zE / pE) (H * H * zF / pF)) as Ha.
  apply Rle_trans with (Rabs (H * H * zE / pE - H * H * zF / pF) * (180 / PI));
    [apply Rmult_le_compat_r; lra |].
  replace (180 / PI * (H * H * (pF + Rabs zF) * 2 / (pF * pF)) * d)
    with (H * H * (pF + Rabs zF) * 2 / (pF * pF) * d * (180 / PI)) by ring.
  apply Rmult_le_compat_r; lra.
Qed.

(** A positive height puts the point strictly on the outer side of the sign
    test of [step3]. *)
Lemma outside_margin (a b lat h : R) :
  Spec.valid_ellipsoid a b -> - 90 < lat < 90 -> - (b * b / a) < h -> 0 < h ->
  Spec.p_foot a b lat + Rabs (Spec.z_foot a b lat)
  < (Spec.N a b lat + h) * cos (Spec.rad lat) + Rabs (Spec.Z a b lat h).
Proof.
  intros V Hlat Hh Hpos.
  pose proof (polar_term_pos a b lat h V Hh) as Hp.
  pose proof (cos_lat_pos lat Hlat) as Hc.
  pose proof (N_pos a b lat V) as HN. pose proof (e2_bounds a b V) as He.
  unfold Spec.p_foot, Spec.z_foot, Spec.Z.
  set (c := cos (Spec.rad lat)) in *. set (s := sin (Spec.rad lat)) in *.
  set (n := Spec.N a b lat) in *. set (e := Spec.e2 a b) in *.
  rewrite !Rabs_mult.
  rewrite (Rabs_pos_eq ((1 - e) * n + h)) by lra.
  rewrite (Rabs_pos_eq (1 - e)) by lra. rewrite (Rabs_pos_eq n) by lra.
  pose proof (Rabs_pos s) as Hs.
  nra.
Qed.

Lemma start_in_equatorial_plane (a b pg : R) :
  0 < pg -> Spec.p_start a pg 0 = a /\ Spec.z_start b pg 0 = 0.
Proof.
  intros Hp.
  assert (Es : sqrt (pg * pg + 0 * 0) = pg).
  { replace (pg * pg + 0 * 0) with (pg * pg) by ring. apply sqrt_square. lra. }
  unfold Spec.p_start, Spec.z_start, Spec.r. rewrite Es. split; [field; lra | ring].
Qed.

(** The round trip with a solver that is only close to the projection. *)
Lemma round_trip_stable (lat long h a b : num) (vlat vlon vh va vb : R) :
  real lat vlat -> real long vlon -> real h vh -> real a va -> real b vb ->
  Spec.valid_ellipsoid va vb ->
  - 90 < vlat < 90 -> - 180 < vlon < 180 -> - (vb * vb / va) < vh ->
  exists x y z,
    llhxyz lat long h a b = Ok (x, y, z) /\
    real (p_G_value x y) (Spec.P va vb vlat vh) /\
    real z (Spec.Z va vb vlat vh) /\
    (Spec.f1 (Spec.G va vb) (Spec.H va vb) (Spec.P va vb vlat vh) (Spec.Z va vb vlat vh)
       (Spec.p_foot va vb vlat) (Spec.z_foot va vb vlat) = 0 /\
     Spec.f2 (Spec.G va vb) (Spec.H va vb) (Spec.K va vb)
       (Spec.p_foot va vb vlat) (Spec.z_foot va vb vlat) = 0 /\
     0 < Spec.p_foot va vb vlat /\
     0 <= Spec.z_foot va vb vlat * Spec.Z va vb vlat vh) /\
    (forall pE zE : R,
       Spec.f1 (Spec.G va vb) (Spec.H va vb) (Spec.P va vb vlat vh) (Spec.Z va vb vlat vh)
         pE zE = 0 ->
       Spec.f2 (Spec.G va vb) (Spec.H va vb) (Spec.K va vb) pE zE = 0 ->
       0 < pE -> 0 <= zE * Spec.Z va vb vlat vh ->
       pE = Spec.p_foot va vb vlat /\ zE = Spec.z_foot va vb vlat) /\
    exists delta C, 0 < delta /\ 0 <= C /\
      forall (solver : root_finder) (trace : bool) (method : string) (w : world)
             (pE zE d : R),
        to_R (fst (OptimizeResult.x (solve solver x y z a b method))) = Some pE ->
        to_R (snd (OptimizeResult.x (solve solver x y z a b method))) = Some zE ->
        Rabs (pE - Spec.p_foot va vb vlat) <= d ->
        Rabs (zE - Spec.z_foot va vb vlat) <= d ->
        d < delta ->
        exists phi lam hh n w' vphi vhh,
          xyzllh solver x y z a b trace method w = (Ok (phi, lam, hh, n), w') /\
          real phi vphi /\ Rabs (vphi - vlat) <= C * d /\
          real lam vlon /\
          real hh vhh /\ Rabs (vhh - vh) <= 2 * d.
Proof.
  intros rlat rlon rh ra rb V Hlat Hlon Hh.
  destruct (llhxyz_finite lat long h a b vlat vlon vh va vb rlat rlon rh ra rb V)
    as (x & y & z & E & rx & ry & rz).
  destruct (llhxyz_Np _ _ _ _ _ _ _ _ E) as (fx & fy & fz & Ex & Ey & Ez).
  pose proof (real_p_G x y _ _ rx ry) as rp.
  rewrite (meridian_radius va vb vlat vlon vh V Hlat Hh) in rp.
  fold (Spec.P va vb vlat vh) in rp.
  exists x, y, z. split; [exact E |]. split; [exact rp |]. split; [exact rz |]. split.
  { destruct (foot_is_root va vb vlat vh V) as [F1 F2].
    repeat split; [exact F1 | exact F2 | apply (foot_p_pos va vb vlat V Hlat) |
                   apply (foot_same_side va vb vlat vh V Hh)]. }
  split.
  { intros pE zE F1 F2 HpE Hside.
    now apply (root_in_quadrant_is_foot va vb vlat vh V Hlat Hh pE zE). }
  pose proof (foot_p_pos va vb vlat V Hlat) as HpF.
  set (pF := Spec.p_foot va vb vlat) in *. set (zF := Spec.z_foot va vb vlat) in *.
  set (m := Rabs ((Spec.P va vb vlat vh + Rabs (Spec.Z va vb vlat vh)) - (pF + Rabs zF))).
  set (K0 := Spec.H va vb * Spec.H va vb * (pF + Rabs zF) * 2 / (pF * pF)).
  assert (HK0 : 0 <= K0).
  { unfold K0. pose proof (Rabs_pos zF).
    apply Rmult_le_pos; [| left; apply Rinv_0_lt_compat; nra].
    apply Rmult_le_pos; [| lra]. apply Rmult_le_pos; nra. }
  assert (HC : 0 <= 180 / PI * K0).
  { pose proof PI_RGT_0. apply Rmult_le_pos; [| exact HK0].
    left. apply Rdiv_lt_0_compat; lra. }
  assert (Hmag0 : Rabs vh = Spec.height_magnitude pF zF
                              (Spec.P va vb vlat vh) (Spec.Z va vb vlat vh)).
  { symmetry. apply height_magnitude_recovered. }
  assert (Hsign0 : vh < 0 <-> Spec.inside pF zF
                                (Spec.P va vb vlat vh) (Spec.Z va vb vlat vh)).
  { symmetry. apply (inside_iff_negative_height va vb vlat vh V Hlat Hh). }
  assert (Hout0 : 0 < vh -> pF + Rabs zF
                            < Spec.P va vb vlat vh + Rabs (Spec.Z va vb vlat vh)).
  { apply (outside_margin va vb vlat vh V Hlat Hh). }
  assert (Hdelta : exists delta, 0 < delta /\ delta <= pF / 2 /\
                                 (vh = 0 \/ 2 * delta <= m)).
  { destruct (Req_dec vh 0) as [H0 | Hn0].
    - exists (pF / 2). repeat split; [lra | lra | now left].
    - assert (Hm : 0 < m).
      { unfold m. apply Rabs_pos_lt. unfold Spec.inside in Hsign0.
        destruct (Rtotal_order vh 0) as [L | [E0 | G]]; [| contradiction |].
        + apply Hsign0 in L. lra.
        + apply Hout0 in G. lra. }
      exists (Rmin (pF / 2) (m / 2)).
      pose proof (Rmin_l (pF / 2) (m / 2)). pose proof (Rmin_r (pF / 2) (m / 2)).
      repeat split; [apply Rmin_pos; lra | lra | right; lra]. }
  destruct Hdelta as (delta & Hd0 & Hd1 & Hd2).
  exists delta, (180 / PI * K0). split; [exact Hd0 |]. split; [exact HC |].
  intros solver trace method w pE zE d Hp Hz Dp Dz Hd.
  destruct (latitude_lipschitz (Spec.H va vb) pF zF pE zE d HpF Dp Dz) as [HpE Hlat'];
    [lra |].
  unfold pF, zF in Hlat'. rewrite (latitude_recovered va vb vlat V Hlat) in Hlat'.
  fold pF zF in Hlat'. fold K0 in Hlat'.
  assert (Hyx : raises_zero_division y x = false) by (rewrite Ex; apply raises_Np_r).
  assert (Ha : va <> 0) by (destruct V; lra).
  assert (Hb : vb <> 0) by (destruct V; lra).
  rewrite (xyzllh_run solver x y z a b trace method w Hyx
             (no_raise_nonzero b a va ra Ha) (no_raise_nonzero a b vb rb Hb)).
  set (root := OptimizeResult.x (solve solver x y z a b method)) in *.
  destruct (step3_finite (arith fdiv a b) (Np (fst root)) (Np (snd root)) (p_G_value x y) z
              (Spec.H va vb) pE zE (Spec.P va vb vlat vh) (Spec.Z va vb vlat vh))
    as (phi & hh & vhh & E3 & rphi & rhh & Hmag & Hsign);
    try assumption.
  { now apply real_quot. }
  { lra. }
  rewrite step3_Np in E3.
  assert (E3' : step3_value (arith fdiv a b) (Np (fst root)) (Np (snd root)) (p_G_value x y) z
                = (phi, hh)) by congruence.
  rewrite E3'. cbn [fst snd].
  eexists _, _, _, _, _, _, vhh. split; [reflexivity |].
  split; [exact rphi |]. split; [exact Hlat' |]. split.
  - destruct (longitude_recovered va vb vlat vlon vh V Hlat Hlon Hh) as [Hden Hlam].
    rewrite <- Hlam. now apply lambda_2_finite.
  - split; [exact rhh |].
    apply (signed_height_lipschitz pF zF (Spec.P va vb vlat vh) (Spec.Z va vb vlat vh)
             vh pE zE vhh d); try assumption.
    destruct Hd2 as [H0 | Hm]; [now left | right; fold m; lra].
Qed.

(** The radicand of [N] is positive for all non-zero axes, well-formed
    ellipsoid or not. *)
Lemma radicand_pos_nonzero_axes (a b lat : R) :
  a <> 0 -> b <> 0 ->
  0 < 1 - Spec.e2 a b * (sin (Spec.rad lat) * sin (Spec.rad lat)).
Proof.
  intros Ha Hb. unfold Spec.e2.
  pose proof (sin2_cos2 (Spec.rad lat)) as T. unfold Rsqr in T.
  set (s := sin (Spec.rad lat)) in *. set (c := cos (Spec.rad lat)) in *.
  assert (Hq : b / a <> 0).
  { unfold Rdiv. apply Rmult_integral_contrapositive_currified;
      [assumption | now apply Rinv_neq_0_compat]. }
  assert (Hq2 : 0 < b / a * (b / a)) by (apply Rsqr_pos_lt in Hq; exact Hq).
  set (q2 := b / a * (b / a)) in *.
  replace (1 - (1 - q2) * (s * s)) with (c * c + q2 * (s * s)) by lra.
  destruct (Req_dec s 0) as [Es | Es].
  - rewrite Es in *. nra.
  - assert (0 < s * s) by (apply Rsqr_pos_lt in Es; exact Es).
    assert (0 < q2 * (s * s)) by (now apply Rmult_lt_0_compat). nra.
Qed.

(** ** The claims *)

(** C1 (as amended).  For a well-formed ellipsoid, a latitude strictly
    between -90 and 90 degrees, a longitude strictly between -180 and 180
    degrees and a height above [-b^2/a], [llhxyz] returns a point
    [(x, y, z)] whose projection [(N cos lat, (1-e2) N sin lat)] is a root of
    the system given to the solver, the only one with [p_E > 0] and [z_E] on
    the side of [z].  The round trip holds within a tolerance proportional to
    that of the solve: there are [delta > 0] and [C] such that, whenever the
    solver returns a point within [d < delta] of the projection, [xyzllh]
    returns the longitude that was given, a latitude within [C d] degrees of
    the latitude that was given and a height within [2 d] of the height that
    was given (real arithmetic on finite values: the rounding of float64 is
    not modelled). *)
Theorem round_trip (lat long h a b : num) (vlat vlon vh va vb : R) :
  real lat vlat -> real long vlon -> real h vh -> real a va -> real b vb ->
  Spec.valid_ellipsoid va vb ->
  - 90 < vlat < 90 -> - 180 < vlon < 180 -> - (vb * vb / va) < vh ->
  exists x y z,
    llhxyz lat long h a b = Ok (x, y, z) /\
    real (p_G_value x y) (Spec.P va vb vlat vh) /\
    real z (Spec.Z va vb vlat vh) /\
    (Spec.f1 (Spec.G va vb) (Spec.H va vb) (Spec.P va vb vlat vh) (Spec.Z va vb vlat vh)
       (Spec.p_foot va vb vlat) (Spec.z_foot va vb vlat) = 0 /\
     Spec.f2 (Spec.G va vb) (Spec.H va vb) (Spec.K va vb)
       (Spec.p_foot va vb vlat) (Spec.z_foot va vb vlat) = 0 /\
     0 < Spec.p_foot va vb vlat /\
     0 <= Spec.z_foot va vb vlat * Spec.Z va vb vlat vh) /\
    (forall pE zE : R,
       Spec.f1 (Spec.G va vb) (Spec.H va vb) (Spec.P va vb vlat vh) (Spec.Z va vb vlat vh)
         pE zE = 0 ->
       Spec.f2 (Spec.G va vb) (Spec.H va vb) (Spec.K va vb) pE zE = 0 ->
       0 < pE -> 0 <= zE * Spec.Z va vb vlat vh ->
       pE = Spec.p_foot va vb vlat /\ zE = Spec.z_foot va vb vlat) /\
    exists delta C, 0 < delta /\ 0 <= C /\
      forall (solver : root_finder) (trace : bool) (method : string) (w : world)
             (pE zE d : R),
        to_R (fst (OptimizeResult.x (solve solver x y z a b method))) = Some pE ->
        to_R (snd (OptimizeResult.x (solve solver x y z a b method))) = Some zE ->
        Rabs (pE - Spec.p_foot va vb vlat) <= d ->
        Rabs (zE - Spec.z_foot va vb vlat) <= d ->
        d < delta ->
        exists phi lam hh n w' vphi vhh,
          xyzllh solver x y z a b trace method w = (Ok (phi, lam, hh, n), w') /\
          real phi vphi /\ Rabs (vphi - vlat) <= C * d /\
          real lam vlon /\
          real hh vhh /\ Rabs (vhh - vh) <= 2 * d.
Proof. apply round_trip_stable. Qed.

(** The point (lat, lon, h) = (0, 30, 100) on the default ellipsoid, with a
    solver that stays at the starting point: for a point of the equatorial
    plane the starting point is the projection, and the three coordinates
    come back. *)
Lemma round_trip_witness :
  exists x y z,
    llhxyz (Py (Fin 0)) (Py (Fin 30)) (Py (Fin 100)) default_a default_b = Ok (x, y, z) /\
    exists phi lam hh n w',
      xyzllh (stay_solver true) x y z default_a default_b false default_method
        (World 0 [])
      = (Ok (phi, lam, hh, n), w') /\
      real phi 0 /\ real lam 30 /\ real hh 100.
Proof.
  assert (V : Spec.valid_ellipsoid 6378 6356) by (unfold Spec.valid_ellipsoid; lra).
  assert (Hlat : - 90 < 0 < 90) by lra.
  assert (Hh : - (6356 * 6356 / 6378) < 100).
  { assert (0 < 6356 * 6356 / 6378) by (apply Rdiv_lt_0_compat; lra). lra. }
  destruct (round_trip (Py (Fin 0)) (Py (Fin 30)) (Py (Fin 100)) default_a default_b
              0 30 100 6378 6356)
    as (x & y & z & E & _ & _ & _ & _ & delta & C & Hdelta & HC & RT);
    try reflexivity; try assumption; try lra.
  destruct (llhxyz_finite (Py (Fin 0)) (Py (Fin 30)) (Py (Fin 100)) default_a default_b
              0 30 100 6378 6356) as (x' & y' & z' & E' & rx & ry & rz);
    try reflexivity; try assumption.
  rewrite E in E'. injection E' as <- <- <-.
  exists x, y, z. split; [exact E |].
  destruct (forward_on_equator 6378 6356 30 100) as (_ & _ & EZ).
  assert (Hne : Spec.X 6378 6356 0 30 100 <> 0 \/ Spec.Y 6378 6356 0 30 100 <> 0
                \/ Spec.Z 6378 6356 0 100 <> 0).
  { pose proof (meridian_radius 6378 6356 0 30 100 V Hlat Hh) as Em.
    rewrite N_equator, rad_0, cos_0 in Em.
    destruct (Req_dec (Spec.X 6378 6356 0 30 100) 0) as [EX | NX]; [| now left].
    destruct (Req_dec (Spec.Y 6378 6356 0 30 100) 0) as [EY | NY]; [| now right; left].
    exfalso. rewrite EX, EY in Em.
    replace (0 * 0 + 0 * 0) with 0 in Em by ring. rewrite sqrt_0 in Em. lra. }
  destruct (start_finite x y z default_a default_b _ _ _ 6378 6356 rx ry rz
              eq_refl eq_refl Hne) as [Sp Sz].
  rewrite (meridian_radius 6378 6356 0 30 100 V Hlat Hh), EZ in Sp, Sz.
  rewrite N_equator, rad_0, cos_0 in Sp, Sz.
  destruct (start_in_equatorial_plane 6378 6356 ((6378 + 100) * 1)) as [Ep Ez]; [lra |].
  rewrite Ep in Sp. rewrite Ez in Sz.
  destruct (foot_on_equator 6378 6356) as [Fp Fz].
  destruct (RT (stay_solver true) false default_method (World 0 []) 6378 0 0 Sp Sz)
    as (phi & lam & hh & n & w' & vphi & vhh & Erun & rphi & Bphi & rlam & rhh & Bhh).
  { rewrite Fp. replace (6378 - 6378) with 0 by ring. rewrite Rabs_R0. lra. }
  { rewrite Fz. replace (0 - 0) with 0 by ring. rewrite Rabs_R0. lra. }
  { exact Hdelta. }
  exists phi, lam, hh, n, w'. split; [exact Erun |].
  assert (Ephi : vphi = 0).
  { replace (C * 0) with 0 in Bphi by ring.
    pose proof (Rabs_pos (vphi - 0)) as P.
    assert (Z : Rabs (vphi - 0) = 0) by lra.
    revert Z. unfold Rabs. destruct (Rcase_abs (vphi - 0)); lra. }
  assert (Ehh : vhh = 100).
  { replace (2 * 0) with 0 in Bhh by ring.
    pose proof (Rabs_pos (vhh - 100)) as P.
    assert (Z : Rabs (vhh - 100) = 0) by lra.
    revert Z. unfold Rabs. destruct (Rcase_abs (vhh - 100)); lra. }
  rewrite Ephi in rphi. rewrite Ehh in rhh. auto.
Defined.

(** C1, the claim as stated fails.  The geodetic point (lat, lon, h) =
    (0, 270, 0) on the default ellipsoid is sent by [llhxyz] to the point
    (0, -6378, 0), and [xyzllh] returns for it, whatever the solver does, the
    longitude -90: the longitude comes back only up to a full turn. *)
Lemma round_trip_fails_at_longitude_270 :
  exists x y z,
    llhxyz (PyInt 0) (PyInt 270) (PyInt 0) default_a default_b = Ok (x, y, z) /\
    real x 0 /\ real y (- 6378) /\ real z 0 /\
    forall (solver : root_finder) (trace : bool) (method : string) (w : world),
    exists phi lam hh n w',
      xyzllh solver x y z default_a default_b trace method w
      = (Ok (phi, lam, hh, n), w') /\
      real lam (- 90).
Proof.
  destruct (llhxyz_finite (PyInt 0) (PyInt 270) (PyInt 0) default_a default_b
              0 270 0 6378 6356) as (x & y & z & E & rx & ry & rz);
    try reflexivity; [unfold Spec.valid_ellipsoid; lra |].
  destruct (forward_at_longitude_270 6378 6356) as (EX & EY & EZ).
  rewrite EX in rx. rewrite EY in ry. rewrite EZ in rz.
  destruct (llhxyz_Np _ _ _ _ _ _ _ _ E) as (fx & fy & fz & Ex & Ey & Ez).
  exists x, y, z. repeat (split; [assumption |]).
  intros solver trace method w.
  rewrite xyzllh_run; [| rewrite Ex; apply raises_Np_r | apply Req_b_false; lra ..].
  eexists _, _, _, _, _. split; [reflexivity |].
  destruct (longitude_negative_y_axis 6378) as [Hden Hlam]; [lra |].
  rewrite <- Hlam. now apply lambda_2_finite.
Qed.

(** C2 (as amended).  For a finite input and finite non-zero [a], [b] (and no
    ZeroDivisionError in the longitude), [xyzllh] reduces the point to
    [(p_G, z_G) = (sqrt(x^2 + y^2), z)] and calls the root finder once, on a
    residual [F], a Jacobian [J] and a starting point [start] such that, at
    every finite point [(p_E, z_E)],
    F = (f1, f2) with f1 = (p_E - p_G) H z_E - (z_E - z_G) G p_E and
    f2 = G p_E^2 + H z_E^2 - K,
    J = [[H z_E - (z_E - z_G) G, (p_E - p_G) H - G p_E], [2 G p_E, 2 H z_E]],
    and, away from the origin, start = (a p_G r, b z_G r) with
    r = 1 / sqrt(p_G^2 + z_G^2), where G = b/a, H = a/b, K = a b.  The
    latitude and height returned are those [step3] recovers from the [x] of
    the solver's result. *)
Theorem solve_steps (x y z a b : num) (vx vy vz va vb : R) :
  real x vx -> real y vy -> real z vz -> real a va -> real b vb ->
  va <> 0 -> vb <> 0 ->
  raises_zero_division y x = false ->
  exists (F : point -> point) (J : point -> matrix) (start : point) (p_G Hn : num),
    real p_G (sqrt (vx * vx + vy * vy)) /\
    real Hn (Spec.H va vb) /\
    (forall p pe ze,
       to_R (fst p) = Some pe -> to_R (snd p) = Some ze ->
       to_R (fst (F p))
         = Some (Spec.f1 (Spec.G va vb) (Spec.H va vb) (sqrt (vx * vx + vy * vy)) vz pe ze) /\
       to_R (snd (F p))
         = Some (Spec.f2 (Spec.G va vb) (Spec.H va vb) (Spec.K va vb) pe ze)) /\
    (forall p pe ze,
       to_R (fst p) = Some pe -> to_R (snd p) = Some ze ->
       to_R (fst (fst (J p))) = Some (Spec.df1_dp (Spec.G va vb) (Spec.H va vb) vz ze) /\
       to_R (snd (fst (J p)))
         = Some (Spec.df1_dz (Spec.G va vb) (Spec.H va vb) (sqrt (vx * vx + vy * vy)) pe) /\
       to_R (fst (snd (J p))) = Some (Spec.df2_dp (Spec.G va vb) pe) /\
       to_R (snd (snd (J p))) = Some (Spec.df2_dz (Spec.H va vb) ze)) /\
    (vx <> 0 \/ vy <> 0 \/ vz <> 0 ->
       to_R (fst start) = Some (Spec.p_start va (sqrt (vx * vx + vy * vy)) vz) /\
       to_R (snd start) = Some (Spec.z_start vb (sqrt (vx * vx + vy * vy)) vz)) /\
    forall (solver : root_finder) (trace : bool) (method : string) (w : world),
    exists phi lam h,
      fst (xyzllh solver x y z a b trace method w)
      = Ok (phi, lam, h, length (OptimizeResult.evals (solver F J start method))) /\
      step3 Hn (Np (fst (OptimizeResult.x (solver F J start method))))
        (Np (snd (OptimizeResult.x (solver F J start method)))) p_G z
      = Ok (phi, h).
Proof.
  intros rx ry rz ra rb Ha Hb Hyx.
  assert (rG : real (arith fdiv b a) (Spec.G va vb)) by (now apply real_quot).
  assert (rH : real (arith fdiv a b) (Spec.H va vb)) by (now apply real_quot).
  assert (rK : real (nmul a b) (Spec.K va vb)) by (now apply real_mul).
  pose proof (real_p_G x y vx vy rx ry) as rp.
  exists (fun_value (arith fdiv b a) (arith fdiv a b) (nmul a b) (p_G_value x y) z),
         (jac (arith fdiv b a) (arith fdiv a b) (p_G_value x y) z),
         (start_value x y z a b), (p_G_value x y), (arith fdiv a b).
  split; [exact rp |]. split; [exact rH |].
  split; [intros p pe ze; now apply fun_value_finite |].
  split; [intros p pe ze; now apply jac_finite |].
  split; [intros Hne; now apply (start_finite x y z a b vx vy vz va vb) |].
  intros solver trace method w.
  rewrite (xyzllh_run solver x y z a b trace method w Hyx
             (no_raise_nonzero b a va ra Ha) (no_raise_nonzero a b vb rb Hb)).
  rewrite step3_Np. eexists _, _, _. split; [reflexivity |].
  cbn [fst]. unfold solve. now rewrite <- surjective_pairing.
Qed.

Lemma solve_steps_witness :
  exists (F : point -> point) (J : point -> matrix) (start : point) (p_G Hn : num),
    real p_G (sqrt (3 * 3 + 4 * 4)) /\
    real Hn (Spec.H 2 1) /\
    (to_R (fst (F (Fin 1, Fin 7)))
       = Some (Spec.f1 (Spec.G 2 1) (Spec.H 2 1) (sqrt (3 * 3 + 4 * 4)) 0 1 7) /\
     to_R (snd (F (Fin 1, Fin 7)))
       = Some (Spec.f2 (Spec.G 2 1) (Spec.H 2 1) (Spec.K 2 1) 1 7)) /\
    (to_R (fst (fst (J (Fin 1, Fin 7)))) = Some (Spec.df1_dp (Spec.G 2 1) (Spec.H 2 1) 0 7) /\
     to_R (snd (fst (J (Fin 1, Fin 7))))
       = Some (Spec.df1_dz (Spec.G 2 1) (Spec.H 2 1) (sqrt (3 * 3 + 4 * 4)) 1) /\
     to_R (fst (snd (J (Fin 1, Fin 7)))) = Some (Spec.df2_dp (Spec.G 2 1) 1) /\
     to_R (snd (snd (J (Fin 1, Fin 7)))) = Some (Spec.df2_dz (Spec.H 2 1) 7)) /\
    (to_R (fst start) = Some (Spec.p_start 2 (sqrt (3 * 3 + 4 * 4)) 0) /\
     to_R (snd start) = Some (Spec.z_start 1 (sqrt (3 * 3 + 4 * 4)) 0)) /\
    forall (solver : root_finder) (trace : bool) (method : string) (w : world),
    exists phi lam h,
      fst (xyzllh solver (Py (Fin 3)) (Py (Fin 4)) (Py (Fin 0)) (PyInt 2) (PyInt 1)
             trace method w)
      = Ok (phi, lam, h, length (OptimizeResult.evals (solver F J start method))) /\
      step3 Hn (Np (fst (OptimizeResult.x (solver F J start method))))
        (Np (snd (OptimizeResult.x (solver F J start method)))) p_G (Py (Fin 0))
      = Ok (phi, h).
Proof.
  destruct (solve_steps (Py (Fin 3)) (Py (Fin 4)) (Py (Fin 0)) (PyInt 2) (PyInt 1) 3 4 0 2 1)
    as (F & J & start & p_G & Hn & rp & rH & HF & HJ & Hs & Hcall);
    try reflexivity; try lra; [apply Req_b_false; lra |].
  exists F, J, start, p_G, Hn.
  split; [exact rp |]. split; [exact rH |].
  split; [apply HF; reflexivity |].
  split; [apply HJ; reflexivity |].
  split; [apply Hs; left; lra |].
  exact Hcall.
Defined.

(** C2, the claim as stated fails.  The Cartesian point (0, 5, 3) given as
    plain Python numbers never reaches the reduction to the meridian plane:
    the first statement [y / x] raises ZeroDivisionError, whatever the solver,
    and nothing is printed, not even under [trace], where the longitudes and
    every evaluation of the residual are printed. *)
Lemma python_zero_x_stops_before_the_solver :
  xyzllh (stay_solver true) (PyInt 0) (PyInt 5) (PyInt 3) default_a default_b
    true default_method (World 0 [])
  = (Raise ZeroDivisionError, World 0 []) /\
  forall (solver : root_finder) (trace : bool) (method : string) (w : world),
    xyzllh solver (PyInt 0) (PyInt 5) (PyInt 3) default_a default_b trace method w
    = (Raise ZeroDivisionError, World 0 (stdout w)).
Proof.
  assert (Hyx : raises_zero_division (PyInt 5) (PyInt 0) = true)
    by (apply Req_b_true; reflexivity).
  split; [| intros solver trace method w]; now rewrite xyzllh_raise_yx.
Qed.

(** C3.  For finite arguments with [p_E <> 0], [step3] returns the latitude
    [atan(H^2 z_E / p_E)] converted to degrees and a height whose magnitude is
    the distance [sqrt((p_E - p_G)^2 + (z_E - z_G)^2)]; the height is negative
    if and only if [p_G + |z_G| < p_E + |z_E|]. *)
Theorem step3_postconditions (H p_E z_E p_G z_G : num) (vH vpE vzE vpG vzG : R) :
  real H vH -> real p_E vpE -> real z_E vzE -> real p_G vpG -> real z_G vzG ->
  vpE <> 0 ->
  exists phi h vh,
    step3 H p_E z_E p_G z_G = Ok (phi, h) /\
    real phi (Spec.latitude vH vpE vzE) /\
    real h vh /\
    Rabs vh = Spec.height_magnitude vpE vzE vpG vzG /\
    (vh < 0 <-> Spec.inside vpE vzE vpG vzG).
Proof. apply step3_finite. Qed.

Lemma step3_postconditions_witness :
  exists phi h vh,
    step3 (Py (Fin 2)) (Np (Fin 1)) (Np (Fin 0)) (Np (Fin 3)) (Np (Fin 0)) = Ok (phi, h) /\
    real phi (Spec.latitude 2 1 0) /\
    real h vh /\
    Rabs vh = Spec.height_magnitude 1 0 3 0 /\
    (vh < 0 <-> Spec.inside 1 0 3 0).
Proof.
  apply (step3_postconditions _ _ _ _ _ 2 1 0 3 0); try reflexivity. lra.
Defined.

(** C4 (as amended).  [xyzllh] never reads the [success] flag of the solver's
    result: a solver that reports the opposite flag leads to the same
    outcome.  When no division raises, the call returns as a normal result
    the latitude and height that [step3] recovers from the solver's [x],
    converged or not, together with the number of residual evaluations. *)
Theorem convergence_flag_ignored (solver : root_finder) (x y z a b : num)
  (trace : bool) (method : string) (w : world) :
  xyzllh (flip_success solver) x y z a b trace method w
  = xyzllh solver x y z a b trace method w /\
  (raises_zero_division y x = false ->
   raises_zero_division b a = false ->
   raises_zero_division a b = false ->
   exists phi lam h,
     fst (xyzllh solver x y z a b trace method w)
     = Ok (phi, lam, h, length (OptimizeResult.evals (solve solver x y z a b method))) /\
     step3 (arith fdiv a b)
       (Np (fst (OptimizeResult.x (solve solver x y z a b method))))
       (Np (snd (OptimizeResult.x (solve solver x y z a b method))))
       (p_G_value x y) z
     = Ok (phi, h)).
Proof.
  split.
  - destruct (raises_zero_division y x) eqn:Hyx.
    + now rewrite !xyzllh_raise_yx.
    + destruct (raises_zero_division b a || raises_zero_division a b) eqn:HGH.
      * now rewrite !xyzllh_raise_GH.
      * apply orb_false_elim in HGH as [Hba Hab]. now rewrite !xyzllh_run.
  - intros Hyx Hba Hab.
    rewrite (xyzllh_run solver x y z a b trace method w Hyx Hba Hab), step3_Np.
    eexists _, _, _. split; [reflexivity |]. cbn [fst]. now rewrite <- surjective_pairing.
Qed.

Lemma convergence_flag_ignored_witness :
  xyzllh (flip_success (stay_solver true)) (Np (Fin 6378)) (Np (Fin 0)) (Np (Fin 0))
    default_a default_b false default_method (World 0 [])
  = xyzllh (stay_solver true) (Np (Fin 6378)) (Np (Fin 0)) (Np (Fin 0))
      default_a default_b false default_method (World 0 []) /\
  exists phi lam h,
    fst (xyzllh (stay_solver true) (Np (Fin 6378)) (Np (Fin 0)) (Np (Fin 0))
           default_a default_b false default_method (World 0 []))
    = Ok (phi, lam, h, 1%nat) /\
    step3 (arith fdiv default_a default_b)
      (Np (fst (start_value (Np (Fin 6378)) (Np (Fin 0)) (Np (Fin 0)) default_a default_b)))
      (Np (snd (start_value (Np (Fin 6378)) (Np (Fin 0)) (Np (Fin 0)) default_a default_b)))
      (p_G_value (Np (Fin 6378)) (Np (Fin 0))) (Np (Fin 0))
    = Ok (phi, h).
Proof.
  destruct (convergence_flag_ignored (stay_solver true) (Np (Fin 6378)) (Np (Fin 0))
              (Np (Fin 0)) default_a default_b false default_method (World 0 []))
    as [Hflip Hret].
  split; [exact Hflip |].
  apply Hret; [reflexivity | apply Req_b_false; lra | apply Req_b_false; lra].
Defined.

(** C4, the claim as stated fails: with a solver that reports
    [success = False], the call still returns a normal result. *)
Lemma non_converged_result_returned :
  OptimizeResult.success
    (solve (stay_solver false) (Np (Fin 6378)) (Np (Fin 0)) (Np (Fin 0))
       default_a default_b default_method) = false /\
  exists r w',
    xyzllh (stay_solver false) (Np (Fin 6378)) (Np (Fin 0)) (Np (Fin 0))
      default_a default_b false default_method (World 0 [])
    = (Ok r, w').
Proof.
  split; [reflexivity |].
  rewrite xyzllh_run; try reflexivity; try (apply Req_b_false; lra).
  eexists _, _. reflexivity.
Qed.

(** C5 (as amended).  For an input on the rotation axis ([x = y = 0]) no
    DegenerateInputError exists.  When [x] and [y] are Python numbers the
    first division [y / x] raises Python's ZeroDivisionError.  Otherwise, for
    a finite [z <> 0] and finite non-zero [a] and [b], the solver is handed a
    finite starting point with a finite residual, and the call returns
    normally with a NaN longitude.  At the origin ([z = 0] too) the starting
    point handed to the solver is (NaN, NaN). *)
Theorem rotation_axis_input (solver : root_finder) (x y z a b : num)
  (trace : bool) (method : string) (w : world) (vz va vb : R) :
  is_zero (val x) = true -> is_zero (val y) = true ->
  (raises_zero_division y x = true ->
     fst (xyzllh solver x y z a b trace method w) = Raise ZeroDivisionError) /\
  (raises_zero_division y x = false ->
   real z vz -> vz <> 0 -> real a va -> va <> 0 -> real b vb -> vb <> 0 ->
     (exists ps zs r1 r2,
        to_R (fst (start_value x y z a b)) = Some ps /\
        to_R (snd (start_value x y z a b)) = Some zs /\
        to_R (fst (fun_value (arith fdiv b a) (arith fdiv a b) (nmul a b) (p_G_value x y) z
                     (start_value x y z a b))) = Some r1 /\
        to_R (snd (fun_value (arith fdiv b a) (arith fdiv a b) (nmul a b) (p_G_value x y) z
                     (start_value x y z a b))) = Some r2) /\
     exists phi lam h n,
       fst (xyzllh solver x y z a b trace method w) = Ok (phi, lam, h, n) /\
       val lam = NaN) /\
  (is_zero (val z) = true -> start_value x y z a b = (NaN, NaN)).
Proof.
  intros Hx Hy. split; [| split].
  - intros Hyx. now rewrite xyzllh_raise_yx.
  - intros Hyx rz Hz ra Ha rb Hb.
    assert (rx : real x 0) by (apply is_zero_real, Hx).
    assert (ry : real y 0) by (apply is_zero_real, Hy).
    split.
    + destruct (start_finite x y z a b 0 0 vz va vb rx ry rz ra rb) as [Sp Sz];
        [right; right; exact Hz |].
      destruct (fun_value_finite (arith fdiv b a) (arith fdiv a b) (nmul a b)
                  (p_G_value x y) z (vb / va) (va / vb) (va * vb)
                  (sqrt (0 * 0 + 0 * 0)) vz
                  (real_quot _ _ _ _ rb ra Ha) (real_quot _ _ _ _ ra rb Hb)
                  (real_mul _ _ _ _ ra rb) (real_p_G x y 0 0 rx ry) rz
                  (start_value x y z a b) _ _ Sp Sz) as [E1 E2].
      eexists _, _, _, _. repeat split; eassumption.
    + rewrite (xyzllh_run solver x y z a b trace method w Hyx
                 (no_raise_nonzero b a va ra Ha) (no_raise_nonzero a b vb rb Hb)).
      eexists _, _, _, _. split; [reflexivity |].
      apply (lambda_2_nan x y 0); [exact rx | lra | assumption].
  - intros Hz. now apply start_nan.
Qed.

Lemma rotation_axis_input_witness :
  fst (xyzllh (stay_solver true) (Py (Fin 0)) (Py (Fin 0)) (Py (Fin 5))
         default_a default_b false default_method (World 0 []))
  = Raise ZeroDivisionError /\
  ((exists ps zs r1 r2,
      to_R (fst (start_value (Np (Fin 0)) (Np (Fin 0)) (Np (Fin 5)) default_a default_b))
      = Some ps /\
      to_R (snd (start_value (Np (Fin 0)) (Np (Fin 0)) (Np (Fin 5)) default_a default_b))
      = Some zs /\
      to_R (fst (fun_value (arith fdiv default_b default_a) (arith fdiv default_a default_b)
                   (nmul default_a default_b) (p_G_value (Np (Fin 0)) (Np (Fin 0)))
                   (Np (Fin 5))
                   (start_value (Np (Fin 0)) (Np (Fin 0)) (Np (Fin 5))
                      default_a default_b))) = Some r1 /\
      to_R (snd (fun_value (arith fdiv default_b default_a) (arith fdiv default_a default_b)
                   (nmul default_a default_b) (p_G_value (Np (Fin 0)) (Np (Fin 0)))
                   (Np (Fin 5))
                   (start_value (Np (Fin 0)) (Np (Fin 0)) (Np (Fin 5))
                      default_a default_b))) = Some r2) /\
   exists phi lam h n,
     fst (xyzllh (stay_solver true) (Np (Fin 0)) (Np (Fin 0)) (Np (Fin 5))
            default_a default_b false default_method (World 0 []))
     = Ok (phi, lam, h, n) /\
     val lam = NaN) /\
  start_value (Np (Fin 0)) (Np (Fin 0)) (Np (Fin 0)) default_a default_b = (NaN, NaN).
Proof.
  split; [| split].
  - apply (rotation_axis_input (stay_solver true) (Py (Fin 0)) (Py (Fin 0)) (Py (Fin 5))
             default_a default_b false default_method (World 0 []) 5 6378 6356);
      apply Req_b_true; reflexivity.
  - apply (rotation_axis_input (stay_solver true) (Np (Fin 0)) (Np (Fin 0)) (Np (Fin 5))
             default_a default_b false default_method (World 0 []) 5 6378 6356);
      try reflexivity; try (apply Req_b_true; reflexivity); lra.
  - apply (rotation_axis_input (stay_solver true) (Np (Fin 0)) (Np (Fin 0)) (Np (Fin 0))
             default_a default_b false default_method (World 0 []) 0 6378 6356);
      apply Req_b_true; reflexivity.
Defined.

(** C5, the claim as stated fails: the point (0, 0, 5) given as NumPy scalars,
    with the default ellipsoid, is converted without any error and the
    longitude returned is NaN. *)
Lemma rotation_axis_no_error :
  exists phi lam h n w',
    xyzllh (stay_solver true) (Np (Fin 0)) (Np (Fin 0)) (Np (Fin 5))
      default_a default_b false default_method (World 0 [])
    = (Ok (phi, lam, h, n), w') /\
    val lam = NaN.
Proof.
  rewrite xyzllh_run; try reflexivity; try (apply Req_b_false; lra).
  eexists _, _, _, _, _. split; [reflexivity |].
  apply (lambda_2_nan _ _ 0); [reflexivity | lra | apply Req_b_true; reflexivity].
Qed.

(** C6 (as amended).  Neither operation checks the ellipsoid, and no
    InvalidParameterError exists: the parameters are used as they are given.
    For all finite non-zero [a] and [b], of any sign and in any order, and
    finite arguments, [llhxyz] returns the closed-form coordinates computed
    from them; and for a finite point other than the origin for which
    [y / x] does not raise, [xyzllh] hands the solver the starting point
    [(a p_G r, b z_G r)] scaled by them and returns the latitude and height
    that [step3] recovers, with [H = a / b], from the solver's result. *)
Theorem no_parameter_validation (solver : root_finder) (lat long h x y z a b : num)
  (vlat vlon vh vx vy vz va vb : R) (trace : bool) (method : string) (w : world) :
  real lat vlat -> real long vlon -> real h vh ->
  real x vx -> real y vy -> real z vz ->
  real a va -> real b vb -> va <> 0 -> vb <> 0 ->
  vx <> 0 \/ vy <> 0 \/ vz <> 0 ->
  raises_zero_division y x = false ->
  (exists x' y' z',
     llhxyz lat long h a b = Ok (x', y', z') /\
     real x' (Spec.X va vb vlat vlon vh) /\
     real y' (Spec.Y va vb vlat vlon vh) /\
     real z' (Spec.Z va vb vlat vh)) /\
  (to_R (fst (start_value x y z a b))
     = Some (Spec.p_start va (sqrt (vx * vx + vy * vy)) vz) /\
   to_R (snd (start_value x y z a b))
     = Some (Spec.z_start vb (sqrt (vx * vx + vy * vy)) vz)) /\
  (exists phi lam hh,
     fst (xyzllh solver x y z a b trace method w)
     = Ok (phi, lam, hh, length (OptimizeResult.evals (solve solver x y z a b method))) /\
     step3 (arith fdiv a b)
       (Np (fst (OptimizeResult.x (solve solver x y z a b method))))
       (Np (snd (OptimizeResult.x (solve solver x y z a b method))))
       (p_G_value x y) z
     = Ok (phi, hh)).
Proof.
  intros rlat rlon rh rx ry rz ra rb Ha Hb Hne Hyx. split; [| split].
  - apply llhxyz_finite_radicand; try assumption.
    now apply radicand_pos_nonzero_axes.
  - now apply (start_finite x y z a b vx vy vz va vb).
  - rewrite (xyzllh_run solver x y z a b trace method w Hyx
               (no_raise_nonzero b a va ra Ha) (no_raise_nonzero a b vb rb Hb)), step3_Np.
    eexists _, _, _. split; [reflexivity |]. cbn [fst]. now rewrite <- surjective_pairing.
Qed.

(** The ellipsoid a = -2, b = 5: a negative axis, and [a < b]. *)
Lemma no_parameter_validation_witness :
  (exists x' y' z',
     llhxyz (Py (Fin 10)) (Py (Fin 20)) (Py (Fin 30)) (PyInt (- 2)) (PyInt 5)
     = Ok (x', y', z') /\
     real x' (Spec.X (- 2) 5 10 20 30) /\
     real y' (Spec.Y (- 2) 5 10 20 30) /\
     real z' (Spec.Z (- 2) 5 10 30)) /\
  (to_R (fst (start_value (Np (Fin 3)) (Np (Fin 4)) (Np (Fin 1)) (PyInt (- 2)) (PyInt 5)))
     = Some (Spec.p_start (- 2) (sqrt (3 * 3 + 4 * 4)) 1) /\
   to_R (snd (start_value (Np (Fin 3)) (Np (Fin 4)) (Np (Fin 1)) (PyInt (- 2)) (PyInt 5)))
     = Some (Spec.z_start 5 (sqrt (3 * 3 + 4 * 4)) 1)) /\
  (exists phi lam hh,
     fst (xyzllh (stay_solver true) (Np (Fin 3)) (Np (Fin 4)) (Np (Fin 1))
            (PyInt (- 2)) (PyInt 5) false default_method (World 0 []))
     = Ok (phi, lam, hh,
           length (OptimizeResult.evals
                     (solve (stay_solver true) (Np (Fin 3)) (Np (Fin 4)) (Np (Fin 1))
                        (PyInt (- 2)) (PyInt 5) default_method))) /\
     step3 (arith fdiv (PyInt (- 2)) (PyInt 5))
       (Np (fst (OptimizeResult.x
                   (solve (stay_solver true) (Np (Fin 3)) (Np (Fin 4)) (Np (Fin 1))
                      (PyInt (- 2)) (PyInt 5) default_method))))
       (Np (snd (OptimizeResult.x
                   (solve (stay_solver true) (Np (Fin 3)) (Np (Fin 4)) (Np (Fin 1))
                      (PyInt (- 2)) (PyInt 5) default_method))))
       (p_G_value (Np (Fin 3)) (Np (Fin 4))) (Np (Fin 1))
     = Ok (phi, hh)).
Proof.
  apply (no_parameter_validation (stay_solver true) _ _ _ _ _ _ _ _
           10 20 30 3 4 1 (- 2) 5); try reflexivity; lra.
Defined.

(** C6, the claim as stated fails: with a = 1 < b = 2 both operations return
    a result computed from these parameters. *)
Lemma malformed_ellipsoid_accepted :
  ~ Spec.valid_ellipsoid 1 2 /\
  (exists x y z,
     llhxyz (PyInt 0) (PyInt 0) (PyInt 0) (PyInt 1) (PyInt 2) = Ok (x, y, z) /\
     real x 1 /\ real y 0 /\ real z 0) /\
  (exists r w',
     xyzllh (stay_solver true) (Np (Fin 1)) (Np (Fin 0)) (Np (Fin 0))
       (PyInt 1) (PyInt 2) false default_method (World 0 [])
     = (Ok r, w')).
Proof.
  split; [unfold Spec.valid_ellipsoid; lra |]. split.
  - destruct (llhxyz_finite_radicand (PyInt 0) (PyInt 0) (PyInt 0) (PyInt 1) (PyInt 2)
                0 0 0 1 2) as (x & y & z & E & rx & ry & rz); try reflexivity; try lra.
    { unfold Spec.rad. replace (0 * (PI / 180)) with 0 by ring. rewrite sin_0. lra. }
    destruct (forward_at_origin_of_angles 1 2) as (EX & EY & EZ).
    rewrite EX in rx. rewrite EY in ry. rewrite EZ in rz.
    exists x, y, z. auto.
  - rewrite xyzllh_run; try reflexivity; try (apply Req_b_false; lra).
    eexists _, _. reflexivity.
Qed.

(** C7.  For finite arguments in degrees and a well-formed ellipsoid
    ([a >= b > 0]), [llhxyz] returns, without raising and without iterating,
    x = (N+h) cos(lat) cos(lon), y = (N+h) cos(lat) sin(lon),
    z = ((1-e2) N + h) sin(lat), with e2 = 1 - (b/a)^2 and
    N = a / sqrt(1 - e2 sin^2(lat)). *)
Theorem llhxyz_closed_form (lat long h a b : num) (vlat vlon vh va vb : R) :
  real lat vlat -> real long vlon -> real h vh -> real a va -> real b vb ->
  Spec.valid_ellipsoid va vb ->
  exists x y z,
    llhxyz lat long h a b = Ok (x, y, z) /\
    real x (Spec.X va vb vlat vlon vh) /\
    real y (Spec.Y va vb vlat vlon vh) /\
    real z (Spec.Z va vb vlat vh).
Proof. apply llhxyz_finite. Qed.

Lemma llhxyz_closed_form_witness :
  exists x y z,
    llhxyz (Py (Fin 45)) (Py (Fin 90)) (Py (Fin 100)) default_a default_b = Ok (x, y, z) /\
    real x (Spec.X 6378 6356 45 90 100) /\
    real y (Spec.Y 6378 6356 45 90 100) /\
    real z (Spec.Z 6378 6356 45 100).
Proof.
  apply (llhxyz_closed_form _ _ _ _ _ 45 90 100 6378 6356); try reflexivity.
  unfold Spec.valid_ellipsoid. lra.
Defined.

(** C8 (as amended).  [step3] has no guard for [p_E = 0]; the outcome is the
    one of the IEEE division.  For finite [H <> 0] and [z_E]: when [p_E] is
    the NumPy positive zero and [z_E <> 0] the latitude is 90 or -90 degrees
    with the sign of [z_E]; when [p_E] is the NumPy negative zero the sign is
    reversed; when [z_E = 0] too the latitude is NaN; and when [H], [z_E] and
    [p_E] are Python numbers the division raises ZeroDivisionError. *)
Theorem polar_axis_latitude (H z_E p_G z_G : num) (vH vz : R) :
  real H vH -> vH <> 0 -> real z_E vz ->
  (vz <> 0 ->
     exists phi h, step3 H (Np (Fin 0)) z_E p_G z_G = Ok (phi, h) /\
                   real phi (if Rlt_b vz 0 then - 90 else 90)) /\
  (vz <> 0 ->
     exists phi h, step3 H (Np NZero) z_E p_G z_G = Ok (phi, h) /\
                   real phi (if Rlt_b vz 0 then 90 else - 90)) /\
  (vz = 0 ->
     forall v, is_zero v = true ->
     exists phi h, step3 H (Np v) z_E p_G z_G = Ok (phi, h) /\ val phi = NaN) /\
  (forall h0 z0 p0, H = Py h0 -> z_E = Py z0 -> is_zero p0 = true ->
     step3 H (Py p0) z_E p_G z_G = Raise ZeroDivisionError).
Proof.
  intros rH HH rz. repeat split.
  - intros Hz. rewrite step3_Np. eexists _, _. split; [reflexivity |].
    now apply (latitude_positive_zero H z_E p_G z_G vH vz).
  - intros Hz. rewrite step3_Np. eexists _, _. split; [reflexivity |].
    now apply (latitude_negative_zero H z_E p_G z_G vH vz).
  - intros Hz v Hv. rewrite step3_Np. eexists _, _. split; [reflexivity |].
    now apply (latitude_zero_zero H z_E p_G z_G vH vz).
  - intros h0 z0 p0 -> -> Hp. rewrite step3_eq. cbn. now rewrite Hp.
Qed.

Lemma polar_axis_latitude_witness :
  (exists phi h, step3 (Py (Fin 2)) (Np (Fin 0)) (Np (Fin 1)) (Np (Fin 0)) (Np (Fin 3))
                 = Ok (phi, h) /\
                 real phi (if Rlt_b 1 0 then - 90 else 90)) /\
  (exists phi h, step3 (Py (Fin 2)) (Np NZero) (Np (Fin 1)) (Np (Fin 0)) (Np (Fin 3))
                 = Ok (phi, h) /\
                 real phi (if Rlt_b 1 0 then 90 else - 90)) /\
  (exists phi h, step3 (Py (Fin 2)) (Np (Fin 0)) (Np (Fin 0)) (Np (Fin 0)) (Np (Fin 3))
                 = Ok (phi, h) /\ val phi = NaN) /\
  step3 (Py (Fin 2)) (Py (Fin 0)) (Py (Fin 1)) (Np (Fin 0)) (Np (Fin 3))
  = Raise ZeroDivisionError.
Proof.
  split; [| split; [| split]].
  - apply (polar_axis_latitude (Py (Fin 2)) (Np (Fin 1)) (Np (Fin 0)) (Np (Fin 3)) 2 1);
      try reflexivity; lra.
  - apply (polar_axis_latitude (Py (Fin 2)) (Np (Fin 1)) (Np (Fin 0)) (Np (Fin 3)) 2 1);
      try reflexivity; lra.
  - apply (polar_axis_latitude (Py (Fin 2)) (Np (Fin 0)) (Np (Fin 0)) (Np (Fin 3)) 2 0);
      try reflexivity; try lra. apply Req_b_true. reflexivity.
  - apply (polar_axis_latitude (Py (Fin 2)) (Py (Fin 1)) (Np (Fin 0)) (Np (Fin 3)) 2 1
             eq_refl) with (h0 := Fin 2) (z0 := Fin 1);
      try reflexivity; try lra. apply Req_b_true. reflexivity.
Defined.

(** C8, the claim as stated fails.  On the ellipse with a = 2, b = 1 (so
    H = 2) the pole (p_E, z_E) = (0, 1) has a positive [z_E]; with [p_E] the
    negative zero [step3] returns the latitude -90, and with Python floats it
    raises ZeroDivisionError instead of returning 90. *)
Lemma polar_axis_not_handled :
  (exists phi h,
     step3 (Py (Fin 2)) (Np NZero) (Np (Fin 1)) (Np (Fin 0)) (Np (Fin 3)) = Ok (phi, h) /\
     real phi (- 90)) /\
  step3 (Py (Fin 2)) (Py (Fin 0)) (Py (Fin 1)) (Py (Fin 0)) (Py (Fin 3))
  = Raise ZeroDivisionError.
Proof.
  split.
  - rewrite step3_Np. eexists _, _. split; [reflexivity |].
    pose proof (latitude_negative_zero (Py (Fin 2)) (Np (Fin 1)) (Np (Fin 0)) (Np (Fin 3)) 2 1)
      as L.
    rewrite (Rlt_b_false 1 0) in L by lra. apply L; [reflexivity | lra | reflexivity | lra].
  - rewrite step3_eq. cbn. now rewrite Req_b_true.
Qed.

(** C9 (as amended).  The result of a call and the final value of the global
    counter do not depend on the state left by earlier calls, but a call is
    not free of effects: it overwrites the module-level counter [iters] and
    appends to the standard output.  When it returns, the count it returns is
    the final value of the global counter, that is the number of residual
    evaluations, and the solver's root has been printed. *)
Theorem call_effects (solver : root_finder) (x y z a b : num)
  (trace : bool) (method : string) :
  exists r n out,
    (forall w, xyzllh solver x y z a b trace method w = (r, World n (stdout w ++ out))) /\
    (forall v, r = Ok v ->
       snd v = n /\
       n = length (OptimizeResult.evals (solve solver x y z a b method)) /\
       In (PrintRoot (OptimizeResult.x (solve solver x y z a b method))) out).
Proof.
  destruct (raises_zero_division y x) eqn:Hyx.
  - exists (Raise ZeroDivisionError), 0%nat, []. split; [| discriminate].
    intros w. now rewrite xyzllh_raise_yx, app_nil_r.
  - destruct (raises_zero_division b a || raises_zero_division a b) eqn:HGH.
    + eexists (Raise ZeroDivisionError), 0%nat, _. split; [| discriminate].
      intros w. now rewrite xyzllh_raise_GH.
    + apply orb_false_elim in HGH as [Hba Hab].
      eexists _, _, _. split.
      * intros w. now rewrite xyzllh_run.
      * intros v Hv. injection Hv as <-. cbn [snd]. repeat split.
        unfold xyzllh_prints. apply in_or_app. right. apply in_or_app. right.
        apply in_or_app. left. now left.
Qed.

Lemma call_effects_witness :
  exists v n out,
    (forall w, xyzllh (stay_solver true) (Np (Fin 6378)) (Np (Fin 0)) (Np (Fin 0))
                 default_a default_b false default_method w
               = (Ok v, World n (stdout w ++ out))) /\
    snd v = n /\ n = 1%nat /\
    In (PrintRoot (start_value (Np (Fin 6378)) (Np (Fin 0)) (Np (Fin 0))
                     default_a default_b)) out.
Proof.
  destruct (call_effects (stay_solver true) (Np (Fin 6378)) (Np (Fin 0)) (Np (Fin 0))
              default_a default_b false default_method)
    as (r & n & out & Hrun & Hok).
  assert (Er : exists v, r = Ok v).
  { specialize (Hrun (World 0 [])).
    rewrite xyzllh_run in Hrun; try reflexivity; try (apply Req_b_false; lra).
    injection Hrun as <- _ _. eexists. reflexivity. }
  destruct Er as [v ->].
  exists v, n, out. split; [exact Hrun |]. exact (Hok v eq_refl).
Defined.

(** C9, the claim as stated fails: a call with [trace] off, started with the
    global counter at 7 and nothing printed, leaves the counter at 1 and one
    line, the root, on the standard output. *)
Lemma call_is_not_pure :
  exists r root,
    xyzllh (stay_solver true) (Np (Fin 6378)) (Np (Fin 0)) (Np (Fin 0))
      default_a default_b false default_method (World 7 [])
    = (Ok r, World 1 [PrintRoot root]).
Proof.
  rewrite xyzllh_run; try reflexivity; try (apply Req_b_false; lra).
  eexists _, _. reflexivity.
Qed.

(** C10.  For a finite [x < 0] and [y = 0] (either zero), and an ellipsoid
    whose divisions do not raise, the denominator [x + w] of
    [2 atan(y / (x + w))] is zero, the quotient is 0/0, and [xyzllh] returns
    normally with a NaN longitude. *)
Theorem negative_x_axis_longitude_nan (solver : root_finder) (x y z a b : num)
  (trace : bool) (method : string) (w : world) (vx : R) :
  real x vx -> vx < 0 -> is_zero (val y) = true ->
  raises_zero_division b a = false ->
  raises_zero_division a b = false ->
  real (nadd x (np_sqrt (nadd (nmul x x) (nmul y y)))) 0 /\
  exists phi lam h n w',
    xyzllh solver x y z a b trace method w = (Ok (phi, lam, h, n), w') /\
    val lam = NaN.
Proof.
  intros rx Hx Hy Hba Hab. split.
  - apply (half_angle_denominator_zero x y vx); [assumption | lra | assumption].
  - assert (Hyx : raises_zero_division y x = false)
      by (apply (no_raise_nonzero y x vx); [assumption | lra]).
    rewrite (xyzllh_run solver x y z a b trace method w Hyx Hba Hab).
    eexists _, _, _, _, _. split; [reflexivity |].
    apply (lambda_2_nan x y vx); [assumption | lra | assumption].
Qed.

Lemma negative_x_axis_longitude_nan_witness :
  real (nadd (Np (Fin (-6378)))
          (np_sqrt (nadd (nmul (Np (Fin (-6378))) (Np (Fin (-6378))))
                         (nmul (Np (Fin 0)) (Np (Fin 0)))))) 0 /\
  exists phi lam h n w',
    xyzllh (stay_solver true) (Np (Fin (-6378))) (Np (Fin 0)) (Np (Fin 0))
      (Np (Fin 6378)) (Np (Fin 6356)) false default_method (World 0 [])
    = (Ok (phi, lam, h, n), w') /\
    val lam = NaN.
Proof.
  apply (negative_x_axis_longitude_nan _ _ _ _ _ _ _ _ _ (-6378));
    try reflexivity; try lra.
  apply Req_b_true. reflexivity.
Defined.

(** ** Further properties of [llhxyz] *)

Lemma rad_plus_turns (d : R) (k : nat) :
  Spec.rad (d + 360 * INR k) = Spec.rad d + 2 * INR k * PI.
Proof. unfold Spec.rad. field. Qed.

Lemma rad_opp (d : R) : Spec.rad (- d) = - Spec.rad d.
Proof. unfold Spec.rad. ring. Qed.

Lemma rad_deg (r : R) : Spec.rad (Spec.deg r) = r.
Proof. unfold Spec.rad, Spec.deg. field. apply PI_neq0. Qed.

Lemma N_opp (a b lat : R) : Spec.N a b (- lat) = Spec.N a b lat.
Proof.
  unfold Spec.N. rewrite rad_opp, sin_neg.
  replace (- sin (Spec.rad lat) * - sin (Spec.rad lat))
    with (sin (Spec.rad lat) * sin (Spec.rad lat)) by ring.
  reflexivity.
Qed.

Lemma forward_period (a b lat lon h : R) (k : nat) :
  Spec.X a b lat (lon + 360 * INR k) h = Spec.X a b lat lon h /\
  Spec.Y a b lat (lon + 360 * INR k) h = Spec.Y a b lat lon h.
Proof.
  unfold Spec.X, Spec.Y. now rewrite rad_plus_turns, cos_period, sin_period.
Qed.

Lemma forward_mirror (a b lat lon h : R) :
  Spec.X a b (- lat) lon h = Spec.X a b lat lon h /\
  Spec.Y a b (- lat) lon h = Spec.Y a b lat lon h /\
  Spec.Z a b (- lat) h = - Spec.Z a b lat h.
Proof.
  unfold Spec.X, Spec.Y, Spec.Z. rewrite N_opp, rad_opp, sin_neg, cos_neg.
  repeat split; ring.
Qed.

Lemma forward_normal_distance (a b lat lon h : R) :
  sqrt ((Spec.X a b lat lon h - Spec.X a b lat lon 0)
        * (Spec.X a b lat lon h - Spec.X a b lat lon 0)
        + (Spec.Y a b lat lon h - Spec.Y a b lat lon 0)
          * (Spec.Y a b lat lon h - Spec.Y a b lat lon 0)
        + (Spec.Z a b lat h - Spec.Z a b lat 0) * (Spec.Z a b lat h - Spec.Z a b lat 0))
  = Rabs h.
Proof.
  unfold Spec.X, Spec.Y, Spec.Z.
  pose proof (sin2_cos2 (Spec.rad lat)) as T1. unfold Rsqr in T1.
  pose proof (sin2_cos2 (Spec.rad lon)) as T2. unfold Rsqr in T2.
  set (c := cos (Spec.rad lat)) in *. set (s := sin (Spec.rad lat)) in *.
  set (cl := cos (Spec.rad lon)) in *. set (sl := sin (Spec.rad lon)) in *.
  set (n := Spec.N a b lat). set (e := Spec.e2 a b).
  replace (((n + h) * c * cl - (n + 0) * c * cl) * ((n + h) * c * cl - (n + 0) * c * cl)
           + ((n + h) * c * sl - (n + 0) * c * sl) * ((n + h) * c * sl - (n + 0) * c * sl)
           + (((1 - e) * n + h) * s - ((1 - e) * n + 0) * s)
             * (((1 - e) * n + h) * s - ((1 - e) * n + 0) * s))
    with (h * h * ((c * c) * (sl * sl + cl * cl) + s * s)) by ring.
  rewrite T2, Rmult_1_r, (Rplus_comm (c * c)), T1, Rmult_1_r.
  rewrite <- (sqrt_Rsqr_abs h). reflexivity.
Qed.

Lemma forward_on_ellipsoid (a b lat lon : R) :
  Spec.valid_ellipsoid a b ->
  Spec.X a b lat lon 0 * Spec.X a b lat lon 0 / (a * a)
  + Spec.Y a b lat lon 0 * Spec.Y a b lat lon 0 / (a * a)
  + Spec.Z a b lat 0 * Spec.Z a b lat 0 / (b * b) = 1.
Proof.
  intros V. destruct V as [Hb Hab]. assert (Ha : 0 < a) by lra.
  pose proof (N_radicand a b lat (conj Hb Hab)) as E.
  pose proof (sin2_cos2 (Spec.rad lat)) as T1. unfold Rsqr in T1.
  pose proof (sin2_cos2 (Spec.rad lon)) as T2. unfold Rsqr in T2.
  unfold Spec.X, Spec.Y, Spec.Z. unfold Spec.e2 in *.
  set (c := cos (Spec.rad lat)) in *. set (s := sin (Spec.rad lat)) in *.
  set (cl := cos (Spec.rad lon)) in *. set (sl := sin (Spec.rad lon)) in *.
  set (n := Spec.N a b lat) in *.
  replace ((n + 0) * c * cl * ((n + 0) * c * cl) / (a * a)
           + (n + 0) * c * sl * ((n + 0) * c * sl) / (a * a)
           + ((1 - (1 - b / a * (b / a))) * n + 0) * s
             * (((1 - (1 - b / a * (b / a))) * n + 0) * s) / (b * b))
    with ((n * n * (c * c * (sl * sl + cl * cl) + b / a * (b / a) * (s * s))) / (a * a))
    by (field; lra).
  rewrite T2, Rmult_1_r.
  replace (c * c + b / a * (b / a) * (s * s))
    with (1 - (1 - b / a * (b / a)) * (s * s))
    by (assert (Hc : c * c = 1 - s * s) by lra; rewrite Hc; ring).
  rewrite E. field. lra.
Qed.

(** X1.  Longitudes that differ by whole turns give the same point: for a
    well-formed ellipsoid and finite arguments, [llhxyz] at the longitude
    [lon + 360 k] returns the coordinates it returns at [lon]. *)
Theorem llhxyz_full_turns (lat long long' h a b : num) (vlat vlon vh va vb : R) (k : nat) :
  real lat vlat -> real long vlon -> real long' (vlon + 360 * INR k) ->
  real h vh -> real a va -> real b vb ->
  Spec.valid_ellipsoid va vb ->
  exists x y z x' y' z' vx vy vz,
    llhxyz lat long h a b = Ok (x, y, z) /\
    llhxyz lat long' h a b = Ok (x', y', z') /\
    real x vx /\ real x' vx /\ real y vy /\ real y' vy /\ real z vz /\ real z' vz.
Proof.
  intros rlat rlon rlon' rh ra rb V.
  destruct (llhxyz_finite lat long h a b _ _ _ _ _ rlat rlon rh ra rb V)
    as (x & y & z & E & rx & ry & rz).
  destruct (llhxyz_finite lat long' h a b _ _ _ _ _ rlat rlon' rh ra rb V)
    as (x' & y' & z' & E' & rx' & ry' & rz').
  destruct (forward_period va vb vlat vlon vh k) as [EX EY].
  rewrite EX in rx'. rewrite EY in ry'.
  exists x, y, z, x', y', z'. eexists _, _, _.
  repeat split; eassumption.
Qed.

Lemma llhxyz_full_turns_witness :
  exists x y z x' y' z' vx vy vz,
    llhxyz (Py (Fin 45)) (Py (Fin (-90))) (Py (Fin 100)) default_a default_b = Ok (x, y, z) /\
    llhxyz (Py (Fin 45)) (Py (Fin (-90 + 360 * INR 1))) (Py (Fin 100)) default_a default_b
    = Ok (x', y', z') /\
    real x vx /\ real x' vx /\ real y vy /\ real y' vy /\ real z vz /\ real z' vz.
Proof.
  apply (llhxyz_full_turns _ _ _ _ _ _ 45 (-90) 100 6378 6356 1); try reflexivity.
  unfold Spec.valid_ellipsoid. lra.
Defined.

(** X2.  North-south symmetry: for a well-formed ellipsoid and finite
    arguments, [llhxyz] at the latitude [- lat] returns the same [x] and [y]
    and the opposite [z]. *)
Theorem llhxyz_mirror (lat lat' long h a b : num) (vlat vlon vh va vb : R) :
  real lat vlat -> real lat' (- vlat) -> real long vlon ->
  real h vh -> real a va -> real b vb ->
  Spec.valid_ellipsoid va vb ->
  exists x y z x' y' z' vx vy vz,
    llhxyz lat long h a b = Ok (x, y, z) /\
    llhxyz lat' long h a b = Ok (x', y', z') /\
    real x vx /\ real x' vx /\ real y vy /\ real y' vy /\ real z vz /\ real z' (- vz).
Proof.
  intros rlat rlat' rlon rh ra rb V.
  destruct (llhxyz_finite lat long h a b _ _ _ _ _ rlat rlon rh ra rb V)
    as (x & y & z & E & rx & ry & rz).
  destruct (llhxyz_finite lat' long h a b _ _ _ _ _ rlat' rlon rh ra rb V)
    as (x' & y' & z' & E' & rx' & ry' & rz').
  destruct (forward_mirror va vb vlat vlon vh) as (EX & EY & EZ).
  rewrite EX in rx'. rewrite EY in ry'. rewrite EZ in rz'.
  exists x, y, z, x', y', z'. eexists _, _, _.
  repeat split; eassumption.
Qed.

Lemma llhxyz_mirror_witness :
  exists x y z x' y' z' vx vy vz,
    llhxyz (Py (Fin 45)) (Py (Fin 90)) (Py (Fin 100)) default_a default_b = Ok (x, y, z) /\
    llhxyz (Py (Fin (- (45)))) (Py (Fin 90)) (Py (Fin 100)) default_a default_b
    = Ok (x', y', z') /\
    real x vx /\ real x' vx /\ real y vy /\ real y' vy /\ real z vz /\ real z' (- vz).
Proof.
  apply (llhxyz_mirror _ _ _ _ _ _ 45 90 100 6378 6356); try reflexivity.
  unfold Spec.valid_ellipsoid. lra.
Defined.

(** X3.  The height is a distance along the normal: for a well-formed
    ellipsoid and finite arguments, the point [llhxyz] returns for
    [(lat, lon, h)] is at Euclidean distance [|h|] from the point it returns
    for [(lat, lon, 0)], and that point is on the ellipsoid
    [x^2/a^2 + y^2/a^2 + z^2/b^2 = 1]. *)
Theorem llhxyz_height_is_normal_distance (lat long h h0 a b : num)
  (vlat vlon vh va vb : R) :
  real lat vlat -> real long vlon -> real h vh -> real h0 0 ->
  real a va -> real b vb ->
  Spec.valid_ellipsoid va vb ->
  exists x y z x0 y0 z0 vx vy vz sx sy sz,
    llhxyz lat long h a b = Ok (x, y, z) /\
    llhxyz lat long h0 a b = Ok (x0, y0, z0) /\
    real x vx /\ real y vy /\ real z vz /\
    real x0 sx /\ real y0 sy /\ real z0 sz /\
    sx * sx / (va * va) + sy * sy / (va * va) + sz * sz / (vb * vb) = 1 /\
    sqrt ((vx - sx) * (vx - sx) + (vy - sy) * (vy - sy) + (vz - sz) * (vz - sz))
    = Rabs vh.
Proof.
  intros rlat rlon rh rh0 ra rb V.
  destruct (llhxyz_finite lat long h a b _ _ _ _ _ rlat rlon rh ra rb V)
    as (x & y & z & E & rx & ry & rz).
  destruct (llhxyz_finite lat long h0 a b _ _ _ _ _ rlat rlon rh0 ra rb V)
    as (x0 & y0 & z0 & E0 & rx0 & ry0 & rz0).
  exists x, y, z, x0, y0, z0. eexists _, _, _, _, _, _.
  repeat (split; [eassumption |]). split.
  - now apply forward_on_ellipsoid.
  - apply forward_normal_distance.
Qed.

Lemma llhxyz_height_is_normal_distance_witness :
  exists x y z x0 y0 z0 vx vy vz sx sy sz,
    llhxyz (Py (Fin 45)) (Py (Fin 90)) (Py (Fin 100)) default_a default_b = Ok (x, y, z) /\
    llhxyz (Py (Fin 45)) (Py (Fin 90)) (Py (Fin 0)) default_a default_b = Ok (x0, y0, z0) /\
    real x vx /\ real y vy /\ real z vz /\
    real x0 sx /\ real y0 sy /\ real z0 sz /\
    sx * sx / (6378 * 6378) + sy * sy / (6378 * 6378) + sz * sz / (6356 * 6356) = 1 /\
    sqrt ((vx - sx) * (vx - sx) + (vy - sy) * (vy - sy) + (vz - sz) * (vz - sz))
    = Rabs 100.
Proof.
  apply (llhxyz_height_is_normal_distance _ _ _ _ _ _ 45 90 100 6378 6356);
    try reflexivity.
  unfold Spec.valid_ellipsoid. lra.
Defined.

(** ** Further properties of [step3] *)

Lemma latitude_opp (H p z : R) : Spec.latitude H p (- z) = - Spec.latitude H p z.
Proof.
  unfold Spec.latitude, Spec.deg.
  replace (H * H * - z / p) with (- (H * H * z / p)) by (unfold Rdiv; ring).
  rewrite atan_opp. ring.
Qed.

Lemma height_magnitude_opp (p_E z_E p_G z_G : R) :
  Spec.height_magnitude p_E (- z_E) p_G (- z_G) = Spec.height_magnitude p_E z_E p_G z_G.
Proof. unfold Spec.height_magnitude. f_equal. ring. Qed.

Lemma inside_opp (p_E z_E p_G z_G : R) :
  Spec.inside p_E (- z_E) p_G (- z_G) <-> Spec.inside p_E z_E p_G z_G.
Proof. unfold Spec.inside. rewrite !Rabs_Ropp. tauto. Qed.

(** X4.  North-south symmetry of [step3]: for finite arguments with
    [p_E <> 0], changing the signs of [z_E] and [z_G] changes the sign of the
    latitude and leaves the height unchanged. *)
Theorem step3_mirror (H p_E z_E z_E' p_G z_G z_G' : num) (vH vpE vzE vpG vzG : R) :
  real H vH -> real p_E vpE -> real z_E vzE -> real z_E' (- vzE) ->
  real p_G vpG -> real z_G vzG -> real z_G' (- vzG) ->
  vpE <> 0 ->
  exists phi h phi' h' vphi vh,
    step3 H p_E z_E p_G z_G = Ok (phi, h) /\
    step3 H p_E z_E' p_G z_G' = Ok (phi', h') /\
    real phi vphi /\ real phi' (- vphi) /\ real h vh /\ real h' vh.
Proof.
  intros rH rpE rzE rzE' rpG rzG rzG' HpE.
  destruct (step3_finite H p_E z_E p_G z_G _ _ _ _ _ rH rpE rzE rpG rzG HpE)
    as (phi & h & vh & E & rphi & rh & Hmag & Hsign).
  destruct (step3_finite H p_E z_E' p_G z_G' _ _ _ _ _ rH rpE rzE' rpG rzG' HpE)
    as (phi' & h' & vh' & E' & rphi' & rh' & Hmag' & Hsign').
  rewrite latitude_opp in rphi'.
  rewrite height_magnitude_opp in Hmag'. rewrite inside_opp in Hsign'.
  assert (Ev : vh' = vh).
  { apply signed_height_unique; [congruence | tauto]. }
  rewrite Ev in rh'.
  exists phi, h, phi', h'. eexists _, _. repeat split; eassumption.
Qed.

Lemma step3_mirror_witness :
  exists phi h phi' h' vphi vh,
    step3 (Py (Fin 2)) (Np (Fin 1)) (Np (Fin 3)) (Np (Fin 5)) (Np (Fin 7)) = Ok (phi, h) /\
    step3 (Py (Fin 2)) (Np (Fin 1)) (Np (Fin (- (3)))) (Np (Fin 5)) (Np (Fin (- (7))))
    = Ok (phi', h') /\
    real phi vphi /\ real phi' (- vphi) /\ real h vh /\ real h' vh.
Proof.
  apply (step3_mirror _ _ _ _ _ _ _ 2 1 3 5 7); try reflexivity. lra.
Defined.

(** The arctangent of any [float64] is NaN or within a quarter turn. *)
Lemma fatan_range f :
  fatan f = NaN \/ exists r, to_R (fatan f) = Some r /\ - (PI / 2) <= r <= PI / 2.
Proof.
  pose proof PI_RGT_0 as Hpi.
  destruct f; cbn [fatan]; [now left | right .. ].
  - exists (PI / 2). split; [reflexivity | lra].
  - exists (- (PI / 2)). split; [reflexivity | lra].
  - exists 0. split; [reflexivity | lra].
  - exists (atan r). split; [reflexivity |]. pose proof (atan_bound r). lra.
Qed.

Lemma to_R_deg_factor : to_R (val (arith fdiv (PyInt 180) np_pi)) = Some (180 / PI).
Proof. exact real_deg_factor. Qed.

Lemma degrees_bound (r m : R) :
  - m <= r <= m -> - (m * (180 / PI)) <= r * (180 / PI) <= m * (180 / PI).
Proof.
  intros [L U]. pose proof PI_RGT_0 as Hpi.
  assert (Hk : 0 < 180 / PI) by (apply Rdiv_lt_0_compat; lra).
  split.
  - replace (- (m * (180 / PI))) with (- m * (180 / PI)) by ring.
    apply Rmult_le_compat_r; lra.
  - apply Rmult_le_compat_r; lra.
Qed.

(** An arctangent converted to degrees is NaN or between -90 and 90. *)
Lemma arctan_degrees_range (q : num) :
  let phi := nmul (np_arctan q) (arith fdiv (PyInt 180) np_pi) in
  val phi = NaN \/ exists r, real phi r /\ - 90 <= r <= 90.
Proof.
  cbv zeta. unfold real. rewrite val_nmul. unfold np_arctan. cbn [val].
  destruct (fatan_range (val q)) as [E | (r & E & B)].
  - left. rewrite E. reflexivity.
  - right. exists (r * (180 / PI)). split.
    + apply to_R_fmul; [exact E | exact to_R_deg_factor].
    + pose proof (degrees_bound r (PI / 2) B) as D.
      rewrite quarter_turn_degrees in D. lra.
Qed.

(** X5.  Whenever [step3] returns, the latitude it returns is NaN or lies
    between -90 and 90 degrees, whatever the arguments (zeros, infinities
    and NaN included). *)
Theorem step3_latitude_range (H p_E z_E p_G z_G phi h : num) :
  step3 H p_E z_E p_G z_G = Ok (phi, h) ->
  val phi = NaN \/ exists r, real phi r /\ - 90 <= r <= 90.
Proof.
  rewrite step3_eq.
  destruct (raises_zero_division (nmul (nmul H H) z_E) p_E); [discriminate |].
  intros E. injection E as <- _. apply arctan_degrees_range.
Qed.

(** At a pole of the ellipse ([p_E] the NumPy zero, [z_E = 1]). *)
Lemma step3_latitude_range_witness :
  exists phi h,
    step3 (Py (Fin 2)) (Np (Fin 0)) (Np (Fin 1)) (Np (Fin 0)) (Np (Fin 3)) = Ok (phi, h) /\
    (val phi = NaN \/ exists r, real phi r /\ - 90 <= r <= 90).
Proof.
  eexists _, _. split; [apply step3_Np |].
  eapply (step3_latitude_range (Py (Fin 2)) (Np (Fin 0)) (Np (Fin 1)) (Np (Fin 0))
            (Np (Fin 3))).
  apply step3_Np.
Defined.

(** ** Further properties of [xyzllh] *)

(** Twice an arctangent converted to degrees is NaN or between -180 and 180. *)
Lemma double_arctan_degrees_range (q : num) :
  let lam := nmul (nmul (PyInt 2) (np_arctan q)) (arith fdiv (PyInt 180) np_pi) in
  val lam = NaN \/ exists r, real lam r /\ - 180 <= r <= 180.
Proof.
  cbv zeta. unfold real. rewrite !val_nmul. unfold np_arctan. cbn [val].
  destruct (fatan_range (val q)) as [E | (r & E & B)].
  - left. rewrite E, fmul_NaN_r. reflexivity.
  - right. exists (2 * r * (180 / PI)). split.
    + apply to_R_fmul; [| exact to_R_deg_factor].
      apply to_R_fmul; [apply real_PyInt | exact E].
    + assert (B2 : - PI <= 2 * r <= PI) by lra.
      pose proof (degrees_bound (2 * r) PI B2) as D.
      replace (PI * (180 / PI)) with 180 in D by (field; apply PI_neq0). lra.
Qed.

Lemma xyzllh_outcome_cases (solver : root_finder) (x y z a b : num) (trace : bool)
  (method : string) (w : world) :
  let raises := raises_zero_division y x || raises_zero_division b a
                || raises_zero_division a b in
  let root := OptimizeResult.x (solve solver x y z a b method) in
  let s3 := step3_value (arith fdiv a b) (Np (fst root)) (Np (snd root)) (p_G_value x y) z in
  fst (xyzllh solver x y z a b trace method w) =
  if raises then Raise ZeroDivisionError
  else Ok (fst s3, lambda_2_value x y, snd s3,
           length (OptimizeResult.evals (solve solver x y z a b method))).
Proof.
  cbv zeta.
  destruct (raises_zero_division y x) eqn:Hyx.
  { rewrite xyzllh_raise_yx by assumption. reflexivity. }
  destruct (raises_zero_division b a || raises_zero_division a b) eqn:HGH.
  { rewrite xyzllh_raise_GH by assumption.
    cbn [orb] in *. rewrite HGH. reflexivity. }
  cbn [orb] in *. rewrite HGH.
  apply orb_false_elim in HGH. destruct HGH as [Hba Hab].
  rewrite xyzllh_run by assumption. reflexivity.
Qed.

(** X6.  Whenever [xyzllh] returns, for any solver and any input (NaN and
    infinities included), the latitude it returns is NaN or between -90 and
    90 degrees and the longitude is NaN or between -180 and 180 degrees. *)
Theorem xyzllh_angle_ranges (solver : root_finder) (x y z a b : num) (trace : bool)
  (method : string) (w : world) (phi lam h : num) (n : nat) :
  fst (xyzllh solver x y z a b trace method w) = Ok (phi, lam, h, n) ->
  (val phi = NaN \/ exists r, real phi r /\ - 90 <= r <= 90) /\
  (val lam = NaN \/ exists r, real lam r /\ - 180 <= r <= 180).
Proof.
  rewrite xyzllh_outcome_cases.
  destruct (raises_zero_division y x || raises_zero_division b a
            || raises_zero_division a b); [discriminate |].
  intros E. injection E as <- <- _ _. split.
  - apply arctan_degrees_range.
  - apply double_arctan_degrees_range.
Qed.

Lemma xyzllh_angle_ranges_witness :
  exists phi lam h n,
    fst (xyzllh (stay_solver true) (Np (Fin 3)) (Np (Fin 4)) (Np (Fin 1))
           default_a default_b false default_method (World 0 []))
    = Ok (phi, lam, h, n) /\
    (val phi = NaN \/ exists r, real phi r /\ - 90 <= r <= 90) /\
    (val lam = NaN \/ exists r, real lam r /\ - 180 <= r <= 180).
Proof.
  assert (E : raises_zero_division (Np (Fin 4)) (Np (Fin 3))
              || raises_zero_division default_b default_a
              || raises_zero_division default_a default_b = false).
  { apply orb_false_intro; [apply orb_false_intro; [reflexivity |] |];
      apply Req_b_false; lra. }
  eexists _, _, _, _. split.
  - rewrite xyzllh_outcome_cases, E. reflexivity.
  - eapply (xyzllh_angle_ranges (stay_solver true) (Np (Fin 3)) (Np (Fin 4)) (Np (Fin 1))
              default_a default_b false default_method (World 0 [])).
    rewrite xyzllh_outcome_cases, E. reflexivity.
Defined.

Lemma real_of_finite (f : float64) (r : R) : to_R f = Some r -> real_of f = r.
Proof. unfold real_of. now intros ->. Qed.

(** X7.  The matrix returned by the closure [jac] is the Jacobian of the
    closure [fun]: at every finite point its four entries are the partial
    derivatives of the two components of the residual. *)
Theorem jac_is_jacobian_of_fun (G H K p_G z_G : num) (g h k pg zg p z : R) :
  real G g -> real H h -> real K k -> real p_G pg -> real z_G zg ->
  let F1 u v := real_of (fst (fun_value G H K p_G z_G (Fin u, Fin v))) in
  let F2 u v := real_of (snd (fun_value G H K p_G z_G (Fin u, Fin v))) in
  let J := jac G H p_G z_G (Fin p, Fin z) in
  derivable_pt_lim (fun u => F1 u z) p (real_of (fst (fst J))) /\
  derivable_pt_lim (fun v => F1 p v) z (real_of (snd (fst J))) /\
  derivable_pt_lim (fun u => F2 u z) p (real_of (fst (snd J))) /\
  derivable_pt_lim (fun v => F2 p v) z (real_of (snd (snd J))).
Proof.
  intros rG rH rK rpG rzG F1 F2 J.
  assert (EF : forall u v, F1 u v = Spec.f1 g h pg zg u v /\ F2 u v = Spec.f2 g h k u v).
  { intros u v.
    destruct (fun_value_finite G H K p_G z_G g h k pg zg rG rH rK rpG rzG (Fin u, Fin v) u v)
      as [E1 E2]; try reflexivity.
    split; apply real_of_finite; assumption. }
  destruct (jac_finite G H p_G z_G g h pg zg rG rH rpG rzG (Fin p, Fin z) p z)
    as (J11 & J12 & J21 & J22); try reflexivity.
  fold J in J11, J12, J21, J22.
  rewrite (real_of_finite _ _ J11), (real_of_finite _ _ J12),
          (real_of_finite _ _ J21), (real_of_finite _ _ J22).
  destruct (jacobian_is_derivative g h k pg zg p z) as (D11 & D12 & D21 & D22).
  repeat split.
  - apply (derivable_pt_lim_eq _ (fun u => Spec.f1 g h pg zg u z)); [| exact D11].
    intros u. apply EF.
  - apply (derivable_pt_lim_eq _ (fun v => Spec.f1 g h pg zg p v)); [| exact D12].
    intros v. apply EF.
  - apply (derivable_pt_lim_eq _ (fun u => Spec.f2 g h k u z)); [| exact D21].
    intros u. apply EF.
  - apply (derivable_pt_lim_eq _ (fun v => Spec.f2 g h k p v)); [| exact D22].
    intros v. apply EF.
Qed.

Lemma jac_is_jacobian_of_fun_witness :
  let G := Np (Fin 2) in
  let H := Np (Fin 3) in
  let K := Np (Fin 5) in
  let p_G := Np (Fin 7) in
  let z_G := Np (Fin 11) in
  let F1 u v := real_of (fst (fun_value G H K p_G z_G (Fin u, Fin v))) in
  let F2 u v := real_of (snd (fun_value G H K p_G z_G (Fin u, Fin v))) in
  let J := jac G H p_G z_G (Fin 1, Fin 4) in
  derivable_pt_lim (fun u => F1 u 4) 1 (real_of (fst (fst J))) /\
  derivable_pt_lim (fun v => F1 1 v) 4 (real_of (snd (fst J))) /\
  derivable_pt_lim (fun u => F2 u 4) 1 (real_of (fst (snd J))) /\
  derivable_pt_lim (fun v => F2 1 v) 4 (real_of (snd (snd J))).
Proof.
  apply (jac_is_jacobian_of_fun _ _ _ _ _ 2 3 5 7 11 1 4); reflexivity.
Defined.

(** The starting point of the solver, over the reals. *)

Lemma r_spec (pg zg : R) :
  0 < sqrt (pg * pg + zg * zg) ->
  0 < Spec.r pg zg /\ Spec.r pg zg * Spec.r pg zg * (pg * pg + zg * zg) = 1.
Proof.
  intros Hs. unfold Spec.r.
  assert (Hsq : sqrt (pg * pg + zg * zg) * sqrt (pg * pg + zg * zg) = pg * pg + zg * zg).
  { apply sqrt_sqrt, sum_squares_nonneg. }
  set (s := sqrt (pg * pg + zg * zg)) in *. split.
  - apply Rdiv_lt_0_compat; lra.
  - rewrite <- Hsq. field. lra.
Qed.

Lemma start_on_ellipse_exact (a b pg zg : R) :
  a <> 0 -> b <> 0 -> 0 < sqrt (pg * pg + zg * zg) ->
  Spec.f2 (b / a) (a / b) (a * b) (Spec.p_start a pg zg) (Spec.z_start b pg zg) = 0 /\
  Spec.p_start a pg zg * Spec.p_start a pg zg / (a * a)
  + Spec.z_start b pg zg * Spec.z_start b pg zg / (b * b) = 1.
Proof.
  intros Ha Hb Hs. destruct (r_spec pg zg Hs) as [_ Hr].
  unfold Spec.f2, Spec.p_start, Spec.z_start.
  set (r := Spec.r pg zg) in *. split.
  - replace (b / a * (a * pg * r * (a * pg * r)) + a / b * (b * zg * r * (b * zg * r)) - a * b)
      with (a * b * (r * r * (pg * pg + zg * zg)) - a * b) by (field; split; assumption).
    rewrite Hr. ring.
  - replace (a * pg * r * (a * pg * r) / (a * a) + b * zg * r * (b * zg * r) / (b * b))
      with (r * r * (pg * pg + zg * zg)) by (field; split; assumption).
    exact Hr.
Qed.

Lemma start_signs (a b pg zg : R) :
  0 <= pg -> 0 < sqrt (pg * pg + zg * zg) ->
  0 <= a * Spec.p_start a pg zg /\ 0 <= b * zg * Spec.z_start b pg zg.
Proof.
  intros Hp Hs. destruct (r_spec pg zg Hs) as [Hr _].
  unfold Spec.p_start, Spec.z_start. set (r := Spec.r pg zg) in *. split.
  - replace (a * (a * pg * r)) with (a * a * (pg * r)) by ring.
    apply Rmult_le_pos; [nra |]. apply Rmult_le_pos; lra.
  - replace (b * zg * (b * zg * r)) with ((b * zg) * (b * zg) * r) by ring.
    apply Rmult_le_pos; [nra | lra].
Qed.

Lemma start_first_residual (a b pg zg : R) :
  a <> 0 -> b <> 0 ->
  zg = 0 \/ pg = 0 \/ a = b ->
  Spec.f1 (b / a) (a / b) pg zg (Spec.p_start a pg zg) (Spec.z_start b pg zg) = 0.
Proof.
  unfold Spec.f1, Spec.p_start, Spec.z_start. intros Ha Hb [-> | [-> | <-]].
  - ring.
  - ring.
  - set (r := Spec.r pg zg). field. assumption.
Qed.

Lemma radius_zero_on_axis (vx vy : R) : vx = 0 /\ vy = 0 -> sqrt (vx * vx + vy * vy) = 0.
Proof.
  intros [-> ->]. replace (0 * 0 + 0 * 0) with 0 by ring. apply sqrt_0.
Qed.

(** The residual at the starting point, for a finite input away from the
    origin. *)
Lemma residual_at_start x y z a b vx vy vz va vb :
  real x vx -> real y vy -> real z vz -> real a va -> real b vb ->
  vx <> 0 \/ vy <> 0 \/ vz <> 0 -> va <> 0 -> vb <> 0 ->
  let pg := sqrt (vx * vx + vy * vy) in
  let F := fun_value (arith fdiv b a) (arith fdiv a b) (nmul a b) (p_G_value x y) z
             (start_value x y z a b) in
  to_R (fst (start_value x y z a b)) = Some (Spec.p_start va pg vz) /\
  to_R (snd (start_value x y z a b)) = Some (Spec.z_start vb pg vz) /\
  to_R (fst F) = Some (Spec.f1 (vb / va) (va / vb) pg vz
                         (Spec.p_start va pg vz) (Spec.z_start vb pg vz)) /\
  to_R (snd F) = Some 0.
Proof.
  intros rx ry rz ra rb Hne Ha Hb pg F.
  destruct (start_finite x y z a b vx vy vz va vb rx ry rz ra rb Hne) as [Sp Sz].
  fold pg in Sp, Sz.
  destruct (fun_value_finite (arith fdiv b a) (arith fdiv a b) (nmul a b) (p_G_value x y) z
              (vb / va) (va / vb) (va * vb) pg vz
              (real_quot _ _ _ _ rb ra Ha) (real_quot _ _ _ _ ra rb Hb)
              (real_mul _ _ _ _ ra rb) (real_p_G x y vx vy rx ry) rz
              (start_value x y z a b) _ _ Sp Sz) as [E1 E2].
  fold F in E1, E2.
  destruct (start_on_ellipse_exact va vb pg vz Ha Hb (norm_pos vx vy vz Hne)) as [E0 _].
  rewrite E0 in E2. auto.
Qed.

(** X8.  The starting point handed to the solver lies on the ellipse: for a
    finite input other than the origin and non-zero axes, its coordinates
    satisfy [p^2/a^2 + z^2/b^2 = 1], the second component of the residual
    [fun] vanishes there, and it lies on the side of the input ([p] has the
    sign of [a], [z] the sign of [b * z_G]). *)
Theorem start_on_the_ellipse (x y z a b : num) (vx vy vz va vb : R) :
  real x vx -> real y vy -> real z vz -> real a va -> real b vb ->
  vx <> 0 \/ vy <> 0 \/ vz <> 0 -> va <> 0 -> vb <> 0 ->
  exists ps zs,
    to_R (fst (start_value x y z a b)) = Some ps /\
    to_R (snd (start_value x y z a b)) = Some zs /\
    ps * ps / (va * va) + zs * zs / (vb * vb) = 1 /\
    to_R (snd (fun_value (arith fdiv b a) (arith fdiv a b) (nmul a b) (p_G_value x y) z
                 (start_value x y z a b))) = Some 0 /\
    0 <= va * ps /\ 0 <= vb * vz * zs.
Proof.
  intros rx ry rz ra rb Hne Ha Hb.
  destruct (residual_at_start x y z a b vx vy vz va vb rx ry rz ra rb Hne Ha Hb)
    as (Sp & Sz & _ & E2).
  pose proof (norm_pos vx vy vz Hne) as Hs.
  destruct (start_on_ellipse_exact va vb _ vz Ha Hb Hs) as [_ Eell].
  destruct (start_signs va vb (sqrt (vx * vx + vy * vy)) vz (sqrt_pos _) Hs) as [S1 S2].
  eexists _, _. repeat split; eassumption.
Qed.

Lemma start_on_the_ellipse_witness :
  exists ps zs,
    to_R (fst (start_value (Py (Fin 3)) (Py (Fin 4)) (Py (Fin 12)) default_a default_b))
    = Some ps /\
    to_R (snd (start_value (Py (Fin 3)) (Py (Fin 4)) (Py (Fin 12)) default_a default_b))
    = Some zs /\
    ps * ps / (6378 * 6378) + zs * zs / (6356 * 6356) = 1 /\
    to_R (snd (fun_value (arith fdiv default_b default_a) (arith fdiv default_a default_b)
                 (nmul default_a default_b) (p_G_value (Py (Fin 3)) (Py (Fin 4)))
                 (Py (Fin 12))
                 (start_value (Py (Fin 3)) (Py (Fin 4)) (Py (Fin 12)) default_a default_b)))
    = Some 0 /\
    0 <= 6378 * ps /\ 0 <= 6356 * 12 * zs.
Proof.
  apply (start_on_the_ellipse _ _ _ _ _ 3 4 12 6378 6356); try reflexivity; lra.
Defined.

(** X9.  For an input in the equatorial plane ([z = 0]), for an input on
    the rotation axis ([x = y = 0]), and for every input when the ellipsoid
    is a sphere ([a = b]), the starting point is already an exact root of
    the system: both components of [fun] vanish there. *)
Theorem start_is_exact_root (x y z a b : num) (vx vy vz va vb : R) :
  real x vx -> real y vy -> real z vz -> real a va -> real b vb ->
  vx <> 0 \/ vy <> 0 \/ vz <> 0 -> va <> 0 -> vb <> 0 ->
  vz = 0 \/ (vx = 0 /\ vy = 0) \/ va = vb ->
  let F := fun_value (arith fdiv b a) (arith fdiv a b) (nmul a b) (p_G_value x y) z
             (start_value x y z a b) in
  to_R (fst F) = Some 0 /\ to_R (snd F) = Some 0.
Proof.
  intros rx ry rz ra rb Hne Ha Hb Hcase F.
  destruct (residual_at_start x y z a b vx vy vz va vb rx ry rz ra rb Hne Ha Hb)
    as (_ & _ & E1 & E2).
  fold F in E1, E2. split; [| exact E2].
  rewrite E1. f_equal. apply start_first_residual; [assumption .. |].
  destruct Hcase as [Hz | [Hxy | Hab]];
    [now left | right; left; now apply radius_zero_on_axis | now right; right].
Qed.

Lemma start_is_exact_root_witness :
  let F := fun_value (arith fdiv default_b default_a) (arith fdiv default_a default_b)
             (nmul default_a default_b) (p_G_value (Py (Fin 0)) (Py (Fin 0))) (Py (Fin 7))
             (start_value (Py (Fin 0)) (Py (Fin 0)) (Py (Fin 7)) default_a default_b) in
  to_R (fst F) = Some 0 /\ to_R (snd F) = Some 0.
Proof.
  apply (start_is_exact_root _ _ _ _ _ 0 0 7 6378 6356); try reflexivity; lra.
Defined.

(** ** The longitude as a polar angle *)

Lemma radius_pos (x y : R) :
  x + sqrt (x * x + y * y) <> 0 ->
  0 < sqrt (x * x + y * y) /\ 0 < x + sqrt (x * x + y * y).
Proof.
  intros Hden.
  pose proof (sqrt_pos (x * x + y * y)) as Hw.
  pose proof (sqrt_sqrt (x * x + y * y) (sum_squares_nonneg x y)) as Hsq.
  set (w := sqrt (x * x + y * y)) in *.
  assert (Hxw : 0 <= x + w) by nra.
  split; [| lra].
  destruct (Req_dec w 0) as [E | E]; [| lra].
  exfalso. apply Hden. rewrite E in *. nra.
Qed.

(** Sine and cosine of an arctangent, without square roots. *)
Lemma atan_circle (u : R) :
  0 < cos (atan u) /\ sin (atan u) = u * cos (atan u) /\
  cos (atan u) * cos (atan u) * (1 + u * u) = 1.
Proof.
  pose proof (atan_bound u) as B.
  assert (Hc : 0 < cos (atan u)) by (apply cos_gt_0; lra).
  assert (Hs : sin (atan u) = u * cos (atan u)).
  { pose proof (tan_atan u) as T. unfold tan in T.
    transitivity (sin (atan u) / cos (atan u) * cos (atan u)); [field; lra |].
    now rewrite T. }
  repeat split; [assumption .. |].
  pose proof (sin2_cos2 (atan u)) as P. unfold Rsqr in P. rewrite Hs in P. lra.
Qed.

(** The half-angle formula gives the polar angle of [(x, y)]. *)
Lemma half_angle_polar (x y : R) :
  x + sqrt (x * x + y * y) <> 0 ->
  sqrt (x * x + y * y) * cos (2 * atan (y / (x + sqrt (x * x + y * y)))) = x /\
  sqrt (x * x + y * y) * sin (2 * atan (y / (x + sqrt (x * x + y * y)))) = y.
Proof.
  intros Hden. destruct (radius_pos x y Hden) as [Hw Hxw].
  pose proof (sqrt_sqrt (x * x + y * y) (sum_squares_nonneg x y)) as Hsq.
  set (w := sqrt (x * x + y * y)) in *.
  set (u := y / (x + w)).
  destruct (atan_circle u) as (Hc & Hs & Hcu).
  rewrite cos_2a_cos, sin_2a, Hs.
  set (c := cos (atan u)) in *.
  assert (Hu : (1 + u * u) * (x + w) = 2 * w).
  { assert (Hy : y * y = w * w - x * x) by lra.
    unfold u.
    replace ((1 + y / (x + w) * (y / (x + w))) * (x + w))
      with (((x + w) * (x + w) + y * y) / (x + w)) by (field; lra).
    rewrite Hy. field. lra. }
  assert (Hc2 : c * c * (2 * w) = x + w).
  { rewrite <- Hu. rewrite <- Rmult_assoc, Hcu. ring. }
  split.
  - replace (w * (2 * c * c - 1)) with (c * c * (2 * w) - w) by ring. lra.
  - replace (w * (2 * (u * c) * c)) with (c * c * (2 * w) * u) by ring.
    rewrite Hc2. unfold u. field. lra.
Qed.

Lemma longitude_polar (x y : R) :
  x + sqrt (x * x + y * y) <> 0 ->
  - 180 < Spec.longitude x y < 180 /\
  sqrt (x * x + y * y) * cos (Spec.rad (Spec.longitude x y)) = x /\
  sqrt (x * x + y * y) * sin (Spec.rad (Spec.longitude x y)) = y.
Proof.
  intros Hden. unfold Spec.longitude. rewrite rad_deg. split.
  - pose proof (atan_bound (y / (x + sqrt (x * x + y * y)))) as B.
    pose proof PI_RGT_0 as Hpi.
    assert (Hk : 0 < 180 / PI) by (apply Rdiv_lt_0_compat; lra).
    assert (E : 180 = PI * (180 / PI)) by (field; lra).
    unfold Spec.deg. split.
    + replace (- 180) with (- PI * (180 / PI)) by (field; lra).
      apply Rmult_lt_compat_r; lra.
    + rewrite E at 2. apply Rmult_lt_compat_r; lra.
  - apply half_angle_polar, Hden.
Qed.

(** X10.  Whenever [xyzllh] returns for a finite point [(x, y)] off the
    closed negative x-axis, the longitude it returns is the polar angle of
    [(x, y)]: strictly between -180 and 180 degrees, with
    [w cos(lon) = x] and [w sin(lon) = y] for [w = sqrt(x^2 + y^2)];
    whatever [z], the ellipsoid and the solver. *)
Theorem longitude_is_polar_angle (solver : root_finder) (x y z a b : num) (trace : bool)
  (method : string) (w : world) (vx vy : R) (phi lam h : num) (n : nat) :
  real x vx -> real y vy ->
  vx + sqrt (vx * vx + vy * vy) <> 0 ->
  fst (xyzllh solver x y z a b trace method w) = Ok (phi, lam, h, n) ->
  exists v,
    real lam v /\ - 180 < v < 180 /\
    sqrt (vx * vx + vy * vy) * cos (Spec.rad v) = vx /\
    sqrt (vx * vx + vy * vy) * sin (Spec.rad v) = vy.
Proof.
  intros rx ry Hden E.
  rewrite xyzllh_outcome_cases in E.
  destruct (raises_zero_division y x || raises_zero_division b a
            || raises_zero_division a b); [discriminate |].
  injection E as _ <- _ _.
  exists (Spec.longitude vx vy). split.
  - now apply lambda_2_finite.
  - now apply longitude_polar.
Qed.

Lemma longitude_is_polar_angle_witness :
  exists v,
    real (lambda_2_value (Py (Fin (- (3)))) (Py (Fin 4))) v /\ - 180 < v < 180 /\
    sqrt (- (3) * - (3) + 4 * 4) * cos (Spec.rad v) = - (3) /\
    sqrt (- (3) * - (3) + 4 * 4) * sin (Spec.rad v) = 4.
Proof.
  assert (Es : sqrt (- (3) * - (3) + 4 * 4) = 5).
  { replace (- (3) * - (3) + 4 * 4) with (5 * 5) by ring. apply sqrt_square. lra. }
  eapply (longitude_is_polar_angle (stay_solver true) (Py (Fin (- (3)))) (Py (Fin 4))
            (Py (Fin 0)) default_a default_b false default_method (World 0 [])
            (- (3)) 4).
  - reflexivity.
  - reflexivity.
  - rewrite Es. lra.
  - rewrite xyzllh_outcome_cases.
    replace (raises_zero_division (Py (Fin 4)) (Py (Fin (- (3))))
             || raises_zero_division default_b default_a
             || raises_zero_division default_a default_b) with false; [reflexivity |].
    symmetry. apply orb_false_intro; [apply orb_false_intro |];
      apply Req_b_false; lra.
Defined.

(** ** The two longitudes of [xyzllh] *)

Lemma tan_of_polar (w x y t : R) :
  0 < w -> x <> 0 -> w * cos t = x -> w * sin t = y -> tan t = y / x.
Proof.
  intros Hw Hx Hc Hs. unfold tan. rewrite <- Hc, <- Hs.
  assert (cos t <> 0) by (intros E; apply Hx; rewrite <- Hc, E; ring).
  field. split; [assumption | lra].
Qed.

Lemma atan_gt_quarter (u : R) : 1 < u -> PI / 4 < atan u.
Proof. intros H. rewrite <- atan_1. now apply atan_increasing. Qed.

Lemma atan_lt_quarter (u : R) : u < 1 -> atan u < PI / 4.
Proof. intros H. rewrite <- atan_1. now apply atan_increasing. Qed.

Lemma atan_lt_minus_quarter (u : R) : u < - 1 -> atan u < - (PI / 4).
Proof.
  intros H. rewrite <- atan_1, <- atan_opp. apply atan_increasing. lra.
Qed.

Lemma atan_gt_minus_quarter (u : R) : - 1 < u -> - (PI / 4) < atan u.
Proof.
  intros H. rewrite <- atan_1, <- atan_opp. apply atan_increasing. lra.
Qed.

(** The direct formula [atan(y/x)] against the half-angle formula. *)
Lemma direct_longitude (x y : R) :
  x <> 0 -> x + sqrt (x * x + y * y) <> 0 ->
  let half := 2 * atan (y / (x + sqrt (x * x + y * y))) in
  (0 < x -> atan (y / x) = half) /\
  (x < 0 -> 0 < y -> atan (y / x) = half - PI) /\
  (x < 0 -> y < 0 -> atan (y / x) = half + PI).
Proof.
  intros Hx Hden half.
  destruct (radius_pos x y Hden) as [Hw Hxw].
  destruct (half_angle_polar x y Hden) as [Pc Ps]. fold half in Pc, Ps.
  pose proof (sqrt_sqrt (x * x + y * y) (sum_squares_nonneg x y)) as Hsq.
  pose proof (atan_bound (y / (x + sqrt (x * x + y * y)))) as B.
  pose proof PI_RGT_0 as Hpi.
  set (w := sqrt (x * x + y * y)) in *.
  set (u := y / (x + w)) in *.
  assert (Hu : u * (x + w) = y) by (unfold u; field; lra).
  repeat split.
  - intros Hpos.
    assert (Hy1 : y <= w).
    { destruct (Rle_or_lt y w) as [L | L]; [assumption | exfalso].
      assert (w * w < y * y) by (apply Rmult_le_0_lt_compat; lra). nra. }
    assert (Hy2 : - y <= w).
    { destruct (Rle_or_lt (- y) w) as [L | L]; [assumption | exfalso].
      assert (w * w < - y * - y) by (apply Rmult_le_0_lt_compat; lra). nra. }
    assert (U1 : u < 1) by (apply (Rmult_lt_reg_r (x + w)); [lra | rewrite Hu; lra]).
    assert (U2 : - 1 < u) by (apply (Rmult_lt_reg_r (x + w)); [lra | rewrite Hu; lra]).
    pose proof (atan_lt_quarter u U1). pose proof (atan_gt_minus_quarter u U2).
    rewrite <- (tan_of_polar w x y half Hw Hx Pc Ps).
    apply atan_tan. unfold half. lra.
  - intros Hneg Hy.
    assert (Hyx : w < y - x).
    { destruct (Rlt_or_le w (y - x)) as [L | L]; [assumption | exfalso].
      assert ((y - x) * (y - x) <= w * w) by (apply Rmult_le_compat; lra).
      assert (x * y < 0) by nra. nra. }
    assert (U1 : 1 < u) by (apply (Rmult_lt_reg_r (x + w)); [lra | rewrite Hu; lra]).
    pose proof (atan_gt_quarter u U1).
    assert (T : tan (half - PI) = y / x).
    { replace (y / x) with (- y / - x) by (field; lra).
      apply (tan_of_polar w); [lra | lra | |].
      - rewrite cos_minus, cos_PI, sin_PI. lra.
      - rewrite sin_minus, cos_PI, sin_PI. lra. }
    rewrite <- T. apply atan_tan. unfold half. lra.
  - intros Hneg Hy.
    assert (Hyx : w < - y - x).
    { destruct (Rlt_or_le w (- y - x)) as [L | L]; [assumption | exfalso].
      assert ((- y - x) * (- y - x) <= w * w) by (apply Rmult_le_compat; lra).
      assert (0 < x * y) by nra. nra. }
    assert (U1 : u < - 1) by (apply (Rmult_lt_reg_r (x + w)); [lra | rewrite Hu; lra]).
    pose proof (atan_lt_minus_quarter u U1).
    assert (T : tan (half + PI) = y / x).
    { replace (y / x) with (- y / - x) by (field; lra).
      apply (tan_of_polar w); [lra | lra | |].
      - rewrite cos_plus, cos_PI, sin_PI. lra.
      - rewrite sin_plus, cos_PI, sin_PI. lra. }
    rewrite <- T. apply atan_tan. unfold half. lra.
Qed.

Lemma lambda_1_finite x y vx vy :
  real x vx -> real y vy -> vx <> 0 ->
  real (lambda_1_value x y) (Spec.deg (atan (vy / vx))).
Proof.
  intros rx ry Hx. unfold lambda_1_value, Spec.deg.
  apply real_mul; [| apply real_deg_factor].
  apply real_arctan, real_quot; assumption.
Qed.

Lemma half_turn_degrees : Spec.deg PI = 180.
Proof. unfold Spec.deg. field. apply PI_neq0. Qed.

(** With [trace] set, the first thing a call prints is the pair of
    longitudes, unless [y / x] raises. *)
Lemma xyzllh_prints_lambdas (solver : root_finder) x y z a b method w :
  raises_zero_division y x = false ->
  exists r n rest,
    xyzllh solver x y z a b true method w =
    (r, World n (stdout w ++
                 PrintLambdas (lambda_1_value x y) (lambda_2_value x y) :: rest)).
Proof.
  intros Hyx.
  destruct (raises_zero_division b a || raises_zero_division a b) eqn:HGH.
  - rewrite xyzllh_raise_GH by assumption. eexists _, _, _. reflexivity.
  - apply orb_false_elim in HGH. destruct HGH as [Hba Hab].
    rewrite xyzllh_run by assumption. unfold xyzllh_prints. cbn [app].
    eexists _, _, _. reflexivity.
Qed.

(** X11.  The source expects the directly computed longitude [lambda_1] to
    equal [lambda_2].  It does for every finite point with [x > 0]: the two
    longitudes printed under [trace] have the same value. *)
Theorem lambdas_agree_for_positive_x (solver : root_finder) (x y z a b : num)
  (method : string) (w : world) (vx vy : R) :
  real x vx -> real y vy -> 0 < vx ->
  exists l1 l2 v r n rest,
    xyzllh solver x y z a b true method w =
    (r, World n (stdout w ++ PrintLambdas l1 l2 :: rest)) /\
    real l1 v /\ real l2 v.
Proof.
  intros rx ry Hx.
  assert (Hx0 : vx <> 0) by lra.
  destruct (xyzllh_prints_lambdas solver x y z a b method w
              (no_raise_nonzero y x vx rx Hx0)) as (r & n & rest & E).
  assert (Hden : vx + sqrt (vx * vx + vy * vy) <> 0).
  { pose proof (sqrt_pos (vx * vx + vy * vy)). lra. }
  destruct (direct_longitude vx vy Hx0 Hden) as (D & _ & _).
  exists (lambda_1_value x y), (lambda_2_value x y), (Spec.longitude vx vy), r, n, rest.
  split; [exact E |]. split.
  - unfold Spec.longitude. rewrite <- (D Hx). now apply lambda_1_finite.
  - now apply lambda_2_finite.
Qed.

Lemma lambdas_agree_for_positive_x_witness :
  exists l1 l2 v r n rest,
    xyzllh (stay_solver true) (Py (Fin 3)) (Py (Fin 4)) (Py (Fin 0)) default_a default_b
      true default_method (World 0 []) =
    (r, World n (stdout (World 0 []) ++ PrintLambdas l1 l2 :: rest)) /\
    real l1 v /\ real l2 v.
Proof.
  apply (lambdas_agree_for_positive_x _ _ _ _ _ _ _ _ 3 4); try reflexivity. lra.
Defined.

(** X12.  In the half-plane [x < 0] the expectation fails: for a finite
    point with [y <> 0] the direct longitude [lambda_1] is half a turn away
    from [lambda_2], 180 degrees below it for [y > 0] and 180 degrees above
    it for [y < 0].  ([lambda_2] is the one returned.) *)
Theorem lambdas_differ_for_negative_x (solver : root_finder) (x y z a b : num)
  (method : string) (w : world) (vx vy : R) :
  real x vx -> real y vy -> vx < 0 -> vy <> 0 ->
  exists l1 l2 v1 v2 r n rest,
    xyzllh solver x y z a b true method w =
    (r, World n (stdout w ++ PrintLambdas l1 l2 :: rest)) /\
    real l1 v1 /\ real l2 v2 /\
    ((0 < vy /\ v1 = v2 - 180) \/ (vy < 0 /\ v1 = v2 + 180)).
Proof.
  intros rx ry Hx Hy.
  assert (Hx0 : vx <> 0) by lra.
  destruct (xyzllh_prints_lambdas solver x y z a b method w
              (no_raise_nonzero y x vx rx Hx0)) as (r & n & rest & E).
  assert (Hden : vx + sqrt (vx * vx + vy * vy) <> 0).
  { pose proof (sqrt_pos (vx * vx + vy * vy)) as Hw.
    pose proof (sqrt_sqrt (vx * vx + vy * vy) (sum_squares_nonneg vx vy)) as Hsq.
    set (s := sqrt (vx * vx + vy * vy)) in *.
    intros E0. assert (Es : s = - vx) by lra. rewrite Es in Hsq.
    assert (vy * vy = 0) by lra. apply Hy. nra. }
  destruct (direct_longitude vx vy Hx0 Hden) as (_ & Dpos & Dneg).
  exists (lambda_1_value x y), (lambda_2_value x y),
         (Spec.deg (atan (vy / vx))), (Spec.longitude vx vy), r, n, rest.
  split; [exact E |]. split; [now apply lambda_1_finite |].
  split; [now apply lambda_2_finite |].
  unfold Spec.longitude.
  destruct (Rtotal_order vy 0) as [Hneg | [H0 | Hpos]]; [| contradiction |].
  - right. split; [assumption |]. rewrite (Dneg Hx Hneg).
    rewrite <- half_turn_degrees. unfold Spec.deg. ring.
  - left. split; [lra |]. rewrite (Dpos Hx Hpos).
    rewrite <- half_turn_degrees. unfold Spec.deg. ring.
Qed.

Lemma lambdas_differ_for_negative_x_witness :
  exists l1 l2 v1 v2 r n rest,
    xyzllh (stay_solver true) (Py (Fin (- (3)))) (Py (Fin 4)) (Py (Fin 0))
      default_a default_b true default_method (World 0 []) =
    (r, World n (stdout (World 0 []) ++ PrintLambdas l1 l2 :: rest)) /\
    real l1 v1 /\ real l2 v2 /\
    ((0 < 4 /\ v1 = v2 - 180) \/ (4 < 0 /\ v1 = v2 + 180)).
Proof.
  apply (lambdas_differ_for_negative_x _ _ _ _ _ _ _ _ (- (3)) 4); try reflexivity; lra.
Defined.

(** ** From Cartesian to geodetic and back *)

Lemma latitude_range (H p z : R) : - 90 < Spec.latitude H p z < 90.
Proof.
  unfold Spec.latitude, Spec.deg.
  pose proof (atan_bound (H * H * z / p)) as B.
  pose proof PI_RGT_0 as Hpi.
  assert (Hk : 0 < 180 / PI) by (apply Rdiv_lt_0_compat; lra).
  pose proof quarter_turn_degrees as Q.
  assert (L : - (PI / 2) * (180 / PI) < atan (H * H * z / p) * (180 / PI))
    by (apply Rmult_lt_compat_r; lra).
  assert (U : atan (H * H * z / p) * (180 / PI) < PI / 2 * (180 / PI))
    by (apply Rmult_lt_compat_r; lra).
  lra.
Qed.

(** A point of the ellipse with [p > 0] is the foot of the normal of the
    latitude that [step3] computes for it. *)
Lemma root_is_foot_of_its_latitude (a b pE zE : R) :
  Spec.valid_ellipsoid a b -> 0 < pE ->
  Spec.f2 (Spec.G a b) (Spec.H a b) (Spec.K a b) pE zE = 0 ->
  Spec.p_foot a b (Spec.latitude (Spec.H a b) pE zE) = pE /\
  Spec.z_foot a b (Spec.latitude (Spec.H a b) pE zE) = zE.
Proof.
  intros V HpE F2.
  assert (Ha : 0 < a) by (destruct V; lra).
  assert (Hb : 0 < b) by (destruct V; lra).
  pose proof (latitude_range (Spec.H a b) pE zE) as Hlat.
  pose proof (latitude_recovered a b _ V Hlat) as L.
  pose proof (foot_p_pos a b _ V Hlat) as Hpf.
  destruct (foot_is_root a b (Spec.latitude (Spec.H a b) pE zE) 0 V) as [_ F2f].
  set (pf := Spec.p_foot a b (Spec.latitude (Spec.H a b) pE zE)) in *.
  set (zf := Spec.z_foot a b (Spec.latitude (Spec.H a b) pE zE)) in *.
  unfold Spec.latitude in L.
  apply (f_equal Spec.rad) in L. rewrite !rad_deg in L.
  apply (f_equal tan) in L. rewrite !tan_atan in L.
  assert (HH : 0 < Spec.H a b) by (unfold Spec.H; apply Rdiv_lt_0_compat; lra).
  assert (HG : 0 < Spec.G a b) by (unfold Spec.G; apply Rdiv_lt_0_compat; lra).
  assert (HK : 0 < Spec.K a b) by (unfold Spec.K; apply Rmult_lt_0_compat; lra).
  unfold Spec.f2 in F2, F2f.
  set (Hc := Spec.H a b) in *. set (Gc := Spec.G a b) in *. set (Kc := Spec.K a b) in *.
  assert (Rz : zf * pE = zE * pf).
  { apply (Rmult_eq_reg_l (Hc * Hc)); [| nra].
    transitivity (Hc * Hc * zf / pf * (pf * pE)); [field; lra |].
    rewrite L. field. lra. }
  assert (Ep : pE * pE * Kc = pf * pf * Kc).
  { transitivity (Gc * (pE * pE) * (pf * pf) + Hc * ((zf * pE) * (zf * pE))).
    - replace Kc with (Gc * (pf * pf) + Hc * (zf * zf)) by lra. ring.
    - rewrite Rz. replace Kc with (Gc * (pE * pE) + Hc * (zE * zE)) by lra. ring. }
  assert (Ep2 : pE * pE = pf * pf) by (apply (Rmult_eq_reg_r Kc); lra).
  assert (E : pf = pE).
  { assert (Hprod : (pf - pE) * (pf + pE) = 0) by (ring_simplify; lra).
    apply Rmult_integral in Hprod. destruct Hprod; lra. }
  split; [exact E |].
  apply (Rmult_eq_reg_r pE); [| lra]. rewrite Rz, E. ring.
Qed.

(** For a root of the system on the side of the point, the signed height of
    [step3] carries the foot to the point along the normal. *)
Lemma normal_through_root (a b pE zE pG zG vh : R) :
  Spec.valid_ellipsoid a b -> 0 < pE ->
  Spec.f1 (Spec.G a b) (Spec.H a b) pG zG pE zE = 0 ->
  0 <= zE * zG ->
  Rabs vh = Spec.height_magnitude pE zE pG zG ->
  (vh < 0 <-> Spec.inside pE zE pG zG) ->
  pE + vh * cos (Spec.rad (Spec.latitude (Spec.H a b) pE zE)) = pG /\
  zE + vh * sin (Spec.rad (Spec.latitude (Spec.H a b) pE zE)) = zG.
Proof.
  intros V HpE F1 Hside Hmag Hsign.
  assert (Ha : 0 < a) by (destruct V; lra).
  assert (Hb : 0 < b) by (destruct V; lra).
  unfold Spec.latitude. rewrite rad_deg.
  unfold Spec.f1, Spec.G in F1. unfold Spec.H in *.
  set (t := a / b * (a / b) * zE / pE) in *.
  destruct (atan_circle t) as (Hc & Hs & Hcu).
  rewrite Hs. set (c := cos (atan t)) in *.
  assert (Hab : 0 < a / b * (a / b)).
  { apply Rmult_lt_0_compat; apply Rdiv_lt_0_compat; lra. }
  assert (Ht : t * pE = a / b * (a / b) * zE) by (unfold t; field; lra).
  assert (Hz : zG - zE = (pG - pE) * t).
  { assert (E : (zE - zG) * (b / a) * pE = (pE - pG) * (a / b) * zE) by lra.
    assert (Hba : 0 < b / a) by (apply Rdiv_lt_0_compat; lra).
    apply (Rmult_eq_reg_r (b / a * pE)); [| apply Rgt_not_eq; nra].
    replace ((zG - zE) * (b / a * pE)) with (- ((zE - zG) * (b / a) * pE)) by ring.
    rewrite E. unfold t. field. lra. }
  remember (pG - pE) as d eqn:Hd.
  set (hs := d / c).
  assert (Hhc : hs * c = d) by (unfold hs; field; lra).
  assert (Hinv : 1 + t * t = / (c * c)).
  { apply (Rmult_eq_reg_l (c * c)); [| nra]. rewrite Hcu. field. lra. }
  assert (Hsq : (pE - pG) * (pE - pG) + (zE - zG) * (zE - zG) = Rsqr hs).
  { replace (pE - pG) with (- d) by lra.
    replace (zE - zG) with (- (d * t)) by lra.
    transitivity (d * d * (1 + t * t)); [ring |].
    rewrite Hinv. unfold Rsqr, hs. field. lra. }
  assert (Hsh : hs < 0 <-> d < 0).
  { split; intros L.
    - rewrite <- Hhc. nra.
    - destruct (Rlt_or_le hs 0) as [L' | L']; [assumption | exfalso].
      assert (0 <= hs * c) by (apply Rmult_le_pos; lra). lra. }
  assert (Hin : Spec.inside pE zE pG zG <-> d < 0).
  { unfold Spec.inside.
    destruct (Rtotal_order zE 0) as [Hneg | [H0 | Hpos]].
    - assert (t < 0) by nra. assert (zG <= 0) by nra.
      rewrite (Rabs_left zE Hneg).
      replace (Rabs zG) with (- zG)
        by (unfold Rabs; destruct (Rcase_abs zG); lra).
      split; intros L; nra.
    - assert (t = 0) by nra. assert (zG = 0) by nra.
      subst zE. replace zG with 0. rewrite Rabs_R0. lra.
    - assert (0 < t) by nra. assert (0 <= zG) by nra.
      rewrite (Rabs_pos_eq zE) by lra. rewrite (Rabs_pos_eq zG) by lra.
      split; intros L; nra. }
  assert (Ev : vh = hs).
  { apply signed_height_unique.
    - rewrite Hmag. unfold Spec.height_magnitude. rewrite Hsq. apply sqrt_Rsqr_abs.
    - tauto. }
  rewrite Ev. split.
  - rewrite Hhc. lra.
  - replace (hs * (t * c)) with (hs * c * t) by ring. rewrite Hhc. lra.
Qed.

(** The forward formulas at the latitude, longitude and height of a root. *)
Lemma forward_of_inverse (a b x y z pE zE vh : R) :
  Spec.valid_ellipsoid a b ->
  x + sqrt (x * x + y * y) <> 0 ->
  0 < pE ->
  Spec.f1 (Spec.G a b) (Spec.H a b) (sqrt (x * x + y * y)) z pE zE = 0 ->
  Spec.f2 (Spec.G a b) (Spec.H a b) (Spec.K a b) pE zE = 0 ->
  0 <= zE * z ->
  Rabs vh = Spec.height_magnitude pE zE (sqrt (x * x + y * y)) z ->
  (vh < 0 <-> Spec.inside pE zE (sqrt (x * x + y * y)) z) ->
  let lat := Spec.latitude (Spec.H a b) pE zE in
  let lon := Spec.longitude x y in
  Spec.X a b lat lon vh = x /\ Spec.Y a b lat lon vh = y /\ Spec.Z a b lat vh = z.
Proof.
  intros V Hden HpE F1 F2 Hside Hmag Hsign lat lon.
  destruct (root_is_foot_of_its_latitude a b pE zE V HpE F2) as [Ep Ez].
  destruct (normal_through_root a b pE zE _ z vh V HpE F1 Hside Hmag Hsign) as [Np Nz].
  destruct (longitude_polar x y Hden) as (_ & Pc & Ps).
  fold lat in Ep, Ez, Np, Nz. fold lon in Pc, Ps.
  unfold Spec.p_foot in Ep. unfold Spec.z_foot in Ez.
  unfold Spec.X, Spec.Y, Spec.Z.
  assert (EP : (Spec.N a b lat + vh) * cos (Spec.rad lat) = sqrt (x * x + y * y)).
  { rewrite <- Np, <- Ep. ring. }
  repeat split.
  - rewrite EP. exact Pc.
  - rewrite EP. exact Ps.
  - transitivity (zE + vh * sin (Spec.rad lat)); [| exact Nz].
    rewrite <- Ez. ring.
Qed.

(** X13.  [llhxyz] undoes [xyzllh]: for a finite point off the closed
    negative x-axis half-plane and a well-formed ellipsoid, if the solver
    returns an exact root of the system with [p_E > 0] on the side of the
    point, then [xyzllh] returns finite coordinates from which [llhxyz]
    computes the point [(x, y, z)] again. *)
Theorem xyzllh_then_llhxyz (solver : root_finder) (x y z a b : num)
  (vx vy vz va vb pE zE : R) (trace : bool) (method : string) (w : world) :
  real x vx -> real y vy -> real z vz -> real a va -> real b vb ->
  Spec.valid_ellipsoid va vb ->
  raises_zero_division y x = false ->
  vx + sqrt (vx * vx + vy * vy) <> 0 ->
  to_R (fst (OptimizeResult.x (solve solver x y z a b method))) = Some pE ->
  to_R (snd (OptimizeResult.x (solve solver x y z a b method))) = Some zE ->
  Spec.f1 (Spec.G va vb) (Spec.H va vb) (sqrt (vx * vx + vy * vy)) vz pE zE = 0 ->
  Spec.f2 (Spec.G va vb) (Spec.H va vb) (Spec.K va vb) pE zE = 0 ->
  0 < pE -> 0 <= zE * vz ->
  exists phi lam h n w' x' y' z',
    xyzllh solver x y z a b trace method w = (Ok (phi, lam, h, n), w') /\
    llhxyz phi lam h a b = Ok (x', y', z') /\
    real x' vx /\ real y' vy /\ real z' vz.
Proof.
  intros rx ry rz ra rb V Hyx Hden Hp Hz F1 F2 HpE Hside.
  assert (Ha : va <> 0) by (destruct V; lra).
  assert (Hb : vb <> 0) by (destruct V; lra).
  rewrite (xyzllh_run solver x y z a b trace method w Hyx
             (no_raise_nonzero b a va ra Ha) (no_raise_nonzero a b vb rb Hb)).
  set (root := OptimizeResult.x (solve solver x y z a b method)) in *.
  destruct (step3_finite (arith fdiv a b) (Np (fst root)) (Np (snd root)) (p_G_value x y) z
              (Spec.H va vb) pE zE (sqrt (vx * vx + vy * vy)) vz)
    as (phi & hh & vhh & E3 & rphi & rhh & Hmag & Hsign);
    try assumption.
  { now apply real_quot. }
  { now apply real_p_G. }
  { lra. }
  rewrite step3_Np in E3.
  assert (E3' : step3_value (arith fdiv a b) (Np (fst root)) (Np (snd root)) (p_G_value x y) z
                = (phi, hh)) by congruence.
  rewrite E3'. cbn [fst snd].
  pose proof (lambda_2_finite x y vx vy rx ry Hden) as rlam.
  destruct (llhxyz_finite phi (lambda_2_value x y) hh a b _ _ _ va vb rphi rlam rhh ra rb V)
    as (x' & y' & z' & E & rx' & ry' & rz').
  destruct (forward_of_inverse va vb vx vy vz pE zE vhh V Hden HpE F1 F2 Hside Hmag Hsign)
    as (EX & EY & EZ).
  rewrite EX in rx'. rewrite EY in ry'. rewrite EZ in rz'.
  eexists _, _, _, _, _, x', y', z'. split; [reflexivity |].
  repeat split; assumption.
Qed.

Lemma start_value_equatorial x y z a b vx vy va vb :
  real x vx -> real y vy -> real z 0 -> real a va -> real b vb ->
  vx <> 0 \/ vy <> 0 ->
  to_R (fst (start_value x y z a b)) = Some va /\
  to_R (snd (start_value x y z a b)) = Some 0.
Proof.
  intros rx ry rz ra rb Hne.
  assert (Hp : 0 < sqrt (vx * vx + vy * vy)).
  { apply sqrt_lt_R0. destruct Hne; nra. }
  destruct (start_finite x y z a b vx vy 0 va vb rx ry rz ra rb) as [Sp Sz]; [tauto |].
  destruct (start_in_equatorial_plane va vb _ Hp) as [Ep Ez].
  rewrite Ep in Sp. rewrite Ez in Sz. auto.
Qed.

Lemma xyzllh_then_llhxyz_witness :
  exists phi lam h n w' x' y' z',
    xyzllh (stay_solver true) (Np (Fin 3)) (Np (Fin 4)) (Np (Fin 0))
      default_a default_b false default_method (World 0 [])
    = (Ok (phi, lam, h, n), w') /\
    llhxyz phi lam h default_a default_b = Ok (x', y', z') /\
    real x' 3 /\ real y' 4 /\ real z' 0.
Proof.
  destruct (start_value_equatorial (Np (Fin 3)) (Np (Fin 4)) (Np (Fin 0))
              default_a default_b 3 4 6378 6356) as [Sp Sz];
    try reflexivity; [left; lra |].
  apply (xyzllh_then_llhxyz (stay_solver true) (Np (Fin 3)) (Np (Fin 4)) (Np (Fin 0))
           default_a default_b 3 4 0 6378 6356 6378 0); try reflexivity.
  - unfold Spec.valid_ellipsoid. lra.
  - pose proof (sqrt_pos (3 * 3 + 4 * 4)). lra.
  - exact Sp.
  - exact Sz.
  - unfold Spec.f1. ring.
  - unfold Spec.f2, Spec.G, Spec.H, Spec.K. field.
  - lra.
  - lra.
Defined.

(** X14.  Points of the equatorial plane: for finite [x], [y] not both zero
    and [z = 0], when the solver returns its starting point (an exact root
    there), [xyzllh] returns the latitude 0 and the height
    [sqrt(x^2 + y^2) - a], whatever [b]. *)
Theorem equatorial_plane_conversion (solver : root_finder) (x y z a b : num)
  (vx vy va vb : R) (trace : bool) (method : string) (w : world) :
  real x vx -> real y vy -> real z 0 -> real a va -> real b vb ->
  0 < va -> vb <> 0 ->
  raises_zero_division y x = false ->
  vx <> 0 \/ vy <> 0 ->
  OptimizeResult.x (solve solver x y z a b method) = start_value x y z a b ->
  exists phi lam h n w',
    xyzllh solver x y z a b trace method w = (Ok (phi, lam, h, n), w') /\
    real phi 0 /\ real h (sqrt (vx * vx + vy * vy) - va).
Proof.
  intros rx ry rz ra rb Ha Hb Hyx Hne Hroot.
  assert (Ha0 : va <> 0) by lra.
  rewrite (xyzllh_run solver x y z a b trace method w Hyx
             (no_raise_nonzero b a va ra Ha0) (no_raise_nonzero a b vb rb Hb)).
  cbv zeta. rewrite Hroot.
  destruct (start_value_equatorial x y z a b vx vy va vb rx ry rz ra rb Hne) as [Sp Sz].
  set (root := start_value x y z a b) in *.
  destruct (step3_finite (arith fdiv a b) (Np (fst root)) (Np (snd root)) (p_G_value x y) z
              (va / vb) va 0 (sqrt (vx * vx + vy * vy)) 0)
    as (phi & hh & vhh & E3 & rphi & rhh & Hmag & Hsign);
    try assumption.
  { now apply real_quot. }
  { now apply real_p_G. }
  rewrite step3_Np in E3.
  assert (E3' : step3_value (arith fdiv a b) (Np (fst root)) (Np (snd root)) (p_G_value x y) z
                = (phi, hh)) by congruence.
  rewrite E3'. cbn [fst snd].
  eexists _, _, _, _, _. split; [reflexivity |]. split.
  - apply (real_eq _ _ _ rphi). unfold Spec.latitude, Spec.deg.
    replace (va / vb * (va / vb) * 0 / va) with 0 by (field; lra).
    rewrite atan_0. ring.
  - apply (real_eq _ _ _ rhh). apply signed_height_unique.
    + rewrite Hmag. unfold Spec.height_magnitude.
      replace ((va - sqrt (vx * vx + vy * vy)) * (va - sqrt (vx * vx + vy * vy))
               + (0 - 0) * (0 - 0))
        with (Rsqr (sqrt (vx * vx + vy * vy) - va)) by (unfold Rsqr; ring).
      apply sqrt_Rsqr_abs.
    + rewrite Hsign. unfold Spec.inside. rewrite Rabs_R0. split; intros; lra.
Qed.

Lemma equatorial_plane_conversion_witness :
  exists phi lam h n w',
    xyzllh (stay_solver true) (Np (Fin 3)) (Np (Fin 4)) (Np (Fin 0))
      default_a default_b true default_method (World 0 [])
    = (Ok (phi, lam, h, n), w') /\
    real phi 0 /\ real h (sqrt (3 * 3 + 4 * 4) - 6378).
Proof.
  apply (equatorial_plane_conversion (stay_solver true) (Np (Fin 3)) (Np (Fin 4))
           (Np (Fin 0)) default_a default_b 3 4 6378 6356); try reflexivity; lra.
Defined.

(** ** The interactive driver *)

Lemma default_axes_no_raise :
  raises_zero_division default_b default_a = false /\
  raises_zero_division default_a default_b = false.
Proof.
  split.
  - apply (no_raise_nonzero _ _ 6378); [reflexivity | lra].
  - apply (no_raise_nonzero _ _ 6356); [reflexivity | lra].
Qed.

(** With the default ellipsoid [llhxyz] returns, and returns NumPy scalars,
    whatever its arguments. *)
Lemma llhxyz_default_ok (lat long h : num) :
  exists fx fy fz, llhxyz lat long h default_a default_b = Ok (Np fx, Np fy, Np fz).
Proof.
  destruct (llhxyz_outcome lat long h default_a default_b) as [[[x y] z] E].
  destruct default_axes_no_raise as [Hba _]. rewrite Hba in E.
  destruct (llhxyz_Np _ _ _ _ _ _ _ _ E) as (fx & fy & fz & -> & -> & ->).
  exists fx, fy, fz. exact E.
Qed.

(** A call of [xyzllh] on NumPy scalars with the default ellipsoid. *)
Lemma call_xyzllh_Np (solver : root_finder) (fx fy fz : float64) (trace : bool)
  (c : console) :
  let x := Np fx in
  let y := Np fy in
  let z := Np fz in
  let res := solve solver x y z default_a default_b default_method in
  let root := OptimizeResult.x res in
  let s3 := step3_value (arith fdiv default_a default_b) (Np (fst root)) (Np (snd root))
              (p_G_value x y) z in
  call_xyzllh solver x y z trace c =
  (Done (fst s3, lambda_2_value x y, snd s3, length (OptimizeResult.evals res)),
   Console (length (OptimizeResult.evals res)) (c_stdin c)
     (c_stdout c ++
      map FromXyzllh (xyzllh_prints solver x y z default_a default_b trace default_method))).
Proof.
  cbv zeta. unfold call_xyzllh.
  destruct default_axes_no_raise as [Hba Hab].
  rewrite (xyzllh_run solver (Np fx) (Np fy) (Np fz) default_a default_b trace
             default_method (World (c_iters c) []) (raises_Np_r _ _) Hba Hab).
  reflexivity.
Qed.

(** The outcome of the driver, as far as the code of this file decides it. *)
Lemma tester_run (solver : root_finder) (float : string -> option float64)
  (trace : bool) (c : console) :
  fst (tester solver float trace c) =
  match c_stdin c with
  | [] => Failed EOFError
  | l1 :: r1 =>
    match float l1 with
    | None => Failed ValueError
    | Some _ =>
      match r1 with
      | [] => Failed EOFError
      | l2 :: r2 =>
        match float l2 with
        | None => Failed ValueError
        | Some _ =>
          match r2 with
          | [] => Failed EOFError
          | l3 :: _ =>
            match float l3 with
            | None => Failed ValueError
            | Some _ => Done tt
            end
          end
        end
      end
    end
  end.
Proof.
  destruct c as [n stdin out]. unfold tester, float_input.
  cbn [c_stdin c_iters c_stdout].
  destruct stdin as [| l1 r1]; [reflexivity |].
  destruct (float l1) as [v1 |]; [| reflexivity].
  cbn [c_stdin c_iters c_stdout].
  destruct r1 as [| l2 r2]; [reflexivity |].
  destruct (float l2) as [v2 |]; [| reflexivity].
  cbn [c_stdin c_iters c_stdout].
  destruct r2 as [| l3 r3]; [reflexivity |].
  destruct (float l3) as [v3 |]; [| reflexivity].
  destruct (llhxyz_default_ok (Py v1) (Py v2) (Py v3)) as (fx & fy & fz & E).
  rewrite E, call_xyzllh_Np. reflexivity.
Qed.

(** X15.  The driver [tester] never fails with ZeroDivisionError, although
    [xyzllh] itself raises it for a plain Python zero [x]: whatever the
    numbers entered (0, NaN and infinities included), the coordinates passed
    on are the NumPy scalars returned by [llhxyz], and the default axes are
    not zero. *)
Theorem tester_no_zero_division (solver : root_finder) (float : string -> option float64)
  (trace : bool) (c : console) :
  fst (tester solver float trace c) <> Failed (Arithmetic ZeroDivisionError).
Proof.
  rewrite tester_run.
  destruct (c_stdin c) as [| l1 [| l2 [| l3 r3]]];
    try destruct (float l1); try destruct (float l2); try destruct (float l3);
    discriminate.
Qed.

(** X16.  A complete run of the driver.  Whenever [tester] runs to its end,
    the standard input began with three lines that [float] accepts and
    exactly these were consumed; the output is the three prompts, then what
    [xyzllh] prints, then the seven result lines showing the numbers entered,
    the Cartesian point of [llhxyz] and the result of [xyzllh] on that point
    with the default ellipsoid.  The iteration count it reports is the number
    of evaluations of the residual by the solver in this call, whatever the
    global counter held before. *)
Theorem tester_completes (solver : root_finder) (float : string -> option float64)
  (trace : bool) (c c' : console) :
  tester solver float trace c = (Done tt, c') ->
  exists l1 l2 l3 rest v1 v2 v3 x y z la lo h n,
    c_stdin c = l1 :: l2 :: l3 :: rest /\
    float l1 = Some v1 /\ float l2 = Some v2 /\ float l3 = Some v3 /\
    llhxyz (Py v1) (Py v2) (Py v3) default_a default_b = Ok (x, y, z) /\
    fst (xyzllh solver x y z default_a default_b trace default_method
           (World (c_iters c) [])) = Ok (la, lo, h, n) /\
    n = length (OptimizeResult.evals
                  (solve solver x y z default_a default_b default_method)) /\
    c' =
    Console n rest
      (c_stdout c
       ++ [Prompt "Enter latitude: "; Prompt "Enter longitude: "; Prompt "Enter height: "]
       ++ map FromXyzllh
            (xyzllh_prints solver x y z default_a default_b trace default_method)
       ++ [Blank; ResultsHeader; Entered (Py v1) (Py v2) (Py v3); Equivalent x y z;
           BackConverted la lo h; Took n; Blank]).
Proof.
  destruct c as [k stdin out]. unfold tester, float_input.
  cbn [c_stdin c_iters c_stdout].
  destruct stdin as [| l1 r1]; [discriminate |].
  destruct (float l1) as [v1 |] eqn:F1; [| discriminate].
  cbn [c_stdin c_iters c_stdout].
  destruct r1 as [| l2 r2]; [discriminate |].
  destruct (float l2) as [v2 |] eqn:F2; [| discriminate].
  cbn [c_stdin c_iters c_stdout].
  destruct r2 as [| l3 r3]; [discriminate |].
  destruct (float l3) as [v3 |] eqn:F3; [| discriminate].
  destruct (llhxyz_default_ok (Py v1) (Py v2) (Py v3)) as (fx & fy & fz & E).
  destruct default_axes_no_raise as [Hba Hab].
  rewrite E, call_xyzllh_Np. cbn [c_stdin c_iters c_stdout].
  intros Hrun. injection Hrun as <-.
  exists l1, l2, l3, r3, v1, v2, v3, (Np fx), (Np fy), (Np fz).
  eexists _, _, _, _.
  repeat (split; [reflexivity || eassumption |]).
  split; [| split; [reflexivity |]].
  - rewrite (xyzllh_run solver (Np fx) (Np fy) (Np fz) default_a default_b trace
               default_method (World k []) (raises_Np_r _ _) Hba Hab).
    reflexivity.
  - repeat rewrite <- app_assoc. reflexivity.
Qed.

Lemma tester_completes_witness :
  let float := fun s : string => if String.eqb s "0"%string then Some (Fin 0) else None in
  let c := Console 5 ["0"; "0"; "0"; "more"]%string [] in
  exists l1 l2 l3 rest v1 v2 v3 x y z la lo h n,
    c_stdin c = l1 :: l2 :: l3 :: rest /\
    float l1 = Some v1 /\ float l2 = Some v2 /\ float l3 = Some v3 /\
    llhxyz (Py v1) (Py v2) (Py v3) default_a default_b = Ok (x, y, z) /\
    fst (xyzllh (stay_solver true) x y z default_a default_b false default_method
           (World (c_iters c) [])) = Ok (la, lo, h, n) /\
    n = length (OptimizeResult.evals
                  (solve (stay_solver true) x y z default_a default_b default_method)) /\
    snd (tester (stay_solver true) float false c) =
    Console n rest
      (c_stdout c
       ++ [Prompt "Enter latitude: "; Prompt "Enter longitude: "; Prompt "Enter height: "]
       ++ map FromXyzllh
            (xyzllh_prints (stay_solver true) x y z default_a default_b false
               default_method)
       ++ [Blank; ResultsHeader; Entered (Py v1) (Py v2) (Py v3); Equivalent x y z;
           BackConverted la lo h; Took n; Blank]).
Proof.
  intros float c.
  apply (tester_completes (stay_solver true) float false c).
  pose proof (tester_run (stay_solver true) float false c) as Hf.
  destruct (tester (stay_solver true) float false c) as [o c'].
  cbn [fst snd] in *. rewrite Hf. reflexivity.
Defined.

(** ** Rotation about the axis *)

Lemma Req_b_eq (x y : R) : Req_b x y = true -> x = y.
Proof. unfold Req_b. destruct (Req_dec_T x y); [auto | discriminate]. Qed.

Lemma fmul_self (f : float64) (r : R) : to_R f = Some r -> fmul f f = Fin (r * r).
Proof.
  intros E. unfold fmul. rewrite E, xorb_nilpotent. unfold mk.
  destruct (Req_b (r * r) 0) eqn:Z; [| reflexivity].
  apply Req_b_eq in Z. now rewrite Z.
Qed.

(** The distance to the axis of a finite point, as a [float64]. *)
Lemma p_G_value_finite x y vx vy :
  real x vx -> real y vy -> p_G_value x y = Np (Fin (sqrt (vx * vx + vy * vy))).
Proof.
  intros rx ry. unfold p_G_value, np_sqrt. f_equal.
  rewrite val_nadd, !val_nmul, (fmul_self _ _ rx), (fmul_self _ _ ry).
  cbn [fadd fsqrt]. rewrite Rlt_b_false; [reflexivity |].
  pose proof (sum_squares_nonneg vx vy). lra.
Qed.

Lemma solve_depends_on_radius (solver : root_finder) x y x' y' z a b method :
  p_G_value x y = p_G_value x' y' ->
  solve solver x y z a b method = solve solver x' y' z a b method.
Proof. intros E. unfold solve, start_value. now rewrite E. Qed.

(** X17.  Latitude and height are invariant under rotation about the axis:
    two finite points with the same [z] at the same distance from the axis
    give the same latitude, the same height and the same iteration count
    (or the same exception), for any solver, as long as [y / x] does not
    raise for either. *)
Theorem xyzllh_rotation_invariant (solver : root_finder) (x y x' y' z a b : num)
  (vx vy vx' vy' : R) (trace : bool) (method : string) (w : world) :
  real x vx -> real y vy -> real x' vx' -> real y' vy' ->
  vx * vx + vy * vy = vx' * vx' + vy' * vy' ->
  raises_zero_division y x = false -> raises_zero_division y' x' = false ->
  match fst (xyzllh solver x y z a b trace method w),
        fst (xyzllh solver x' y' z a b trace method w) with
  | Ok (phi, _, h, n), Ok (phi', _, h', n') => phi = phi' /\ h = h' /\ n = n'
  | Raise e, Raise e' => e = e'
  | _, _ => False
  end.
Proof.
  intros rx ry rx' ry' Hr Hyx Hyx'.
  assert (Ep : p_G_value x y = p_G_value x' y').
  { rewrite (p_G_value_finite x y vx vy rx ry), (p_G_value_finite x' y' vx' vy' rx' ry').
    now rewrite Hr. }
  rewrite !xyzllh_outcome_cases, Hyx, Hyx'. cbn [orb].
  destruct (raises_zero_division b a || raises_zero_division a b); [reflexivity |].
  rewrite (solve_depends_on_radius solver x y x' y' z a b method Ep), Ep.
  repeat split.
Qed.

Lemma xyzllh_rotation_invariant_witness :
  match fst (xyzllh (stay_solver true) (Np (Fin 3)) (Np (Fin 4)) (Np (Fin 1))
               default_a default_b false default_method (World 0 [])),
        fst (xyzllh (stay_solver true) (Np (Fin (- (5)))) (Np (Fin 0)) (Np (Fin 1))
               default_a default_b false default_method (World 0 [])) with
  | Ok (phi, _, h, n), Ok (phi', _, h', n') => phi = phi' /\ h = h' /\ n = n'
  | Raise e, Raise e' => e = e'
  | _, _ => False
  end.
Proof.
  apply (xyzllh_rotation_invariant _ _ _ _ _ _ _ _ 3 4 (- (5)) 0); try reflexivity. lra.
Defined.

(** ** The results of [llhxyz] *)

(** X18.  Whenever [llhxyz] returns, its three results are NumPy scalars,
    also when all its arguments are plain Python numbers, so that the
    division [y / x] of a following [xyzllh] cannot raise; and [b / a] was
    not a division of plain Python numbers by zero. *)
Theorem llhxyz_returns_numpy_scalars (lat long h a b x y z : num) :
  llhxyz lat long h a b = Ok (x, y, z) ->
  raises_zero_division b a = false /\
  exists fx fy fz, x = Np fx /\ y = Np fy /\ z = Np fz.
Proof.
  intros E. split.
  - destruct (llhxyz_outcome lat long h a b) as [r E'].
    destruct (raises_zero_division b a); [congruence | reflexivity].
  - exact (llhxyz_Np _ _ _ _ _ _ _ _ E).
Qed.

(** With [b] the Python number 0. *)
Lemma llhxyz_returns_numpy_scalars_witness :
  exists x y z,
    llhxyz (Py (Fin 45)) (Py (Fin 0)) (Py (Fin 0)) (PyInt 1) (PyInt 0) = Ok (x, y, z) /\
    raises_zero_division (PyInt 0) (PyInt 1) = false /\
    exists fx fy fz, x = Np fx /\ y = Np fy /\ z = Np fz.
Proof.
  destruct (llhxyz_outcome (Py (Fin 45)) (Py (Fin 0)) (Py (Fin 0)) (PyInt 1) (PyInt 0))
    as [[[x y] z] E].
  assert (H : raises_zero_division (PyInt 0) (PyInt 1) = false)
    by (apply Req_b_false; lra).
  rewrite H in E.
  exists x, y, z. split; [exact E |].
  exact (llhxyz_returns_numpy_scalars _ _ _ _ _ _ _ _ E).
Defined.
